(** * nutconf: command-line option store, option validation and
      configuration merge (src/common/nutconfbin.cpp)

    The definitions come first and follow the source file top-down:
    - [MultiMap]: [std::multimap<std::string, Arguments>] as a key-sorted
      association list, with [insert], [find], [count], [get], [strings];
    - [Opts]: class [Options] (the tokenizer and its lookups);
    - [NutConf]: class [NutConfOptions] (validation, [getMonitor]);
    - [Stream]: formatted extraction of an unsigned number ([ss >> port]);
    - [Merge]: [monitor] and [setDevices];
    - [Main]: [listenAddr], [source], [store], [setMonitors],
      [setListenAddrs], [Usage], [mainx] and [main].
    The facts about them follow, in the same order. *)

From Stdlib Require Import String Ascii List ZArith Lia Bool.
From stdpp Require Import base list sorting gmap strings.
Import ListNotations.

Local Open Scope string_scope.
Local Open Scope list_scope.

(** ** [std::multimap<std::string, Arguments>] *)

Module MultiMap.

(** Keys are compared by [std::less<std::string>]: byte-wise as unsigned
    chars, a proper prefix first.  This is [String.compare], and [String.ltb]
    is [operator<]. *)

(** Option arguments list ([std::list<std::string>]). *)
Abbreviation Arguments := (list string).

(** The container keeps its entries ordered by key; entries with equal keys
    stay in insertion order.  An iterator is the part of the container from
    its element on, and [end()] is the empty rest. *)
Abbreviation Map := (list (string * Arguments)).

(** Position at which [insert] places a new entry with key [k]: the upper
    bound of [k], i.e. in front of the first entry whose key is above [k]. *)
Fixpoint upper_bound (k : string) (m : Map) : nat :=
  match m with
  | [] => 0
  | e :: m' => if String.ltb k (fst e) then 0 else S (upper_bound k m')
  end.

(** [map->insert(Map::value_type(opt, Arguments()))]; the position of the
    new entry is returned with the map. *)
Definition insert (k : string) (m : Map) : Map * nat :=
  let p := upper_bound k m in (take p m ++ (k, []) :: drop p m, p).

(** [map.find(opt)]: the first entry with that key. *)
Fixpoint find (m : Map) (opt : string) : Map :=
  match m with
  | [] => []
  | e :: m' => if String.eqb (fst e) opt then m else find m' opt
  end.

(** The loop [for (; entry != map.end() && entry->first == opt; ++entry) ++cnt] *)
Fixpoint count_from (entry : Map) (opt : string) : nat :=
  match entry with
  | [] => 0
  | e :: next => if String.eqb (fst e) opt then S (count_from next opt) else 0
  end.

(** [Options::count(map, opt)] *)
Definition count (m : Map) (opt : string) : nat :=
  count_from (find m opt) opt.

(** The loop [for (; order; --order)] of [Options::get] and the assignment
    that follows it; [entry] is not [end()] when the source gets here. *)
Fixpoint get_from (entry : Map) (opt : string) (order : nat) : option Arguments :=
  match order with
  | 0 =>
      match entry with
      | e :: _ => Some (snd e)
      | [] => None
      end
  | S order' =>
      match entry with
      | _ :: ((e :: _) as next) =>
          if String.eqb (fst e) opt then get_from next opt order' else None
      | _ => None
      end
  end.

(** [Options::get(map, opt, args, order)]: [None] is the [false] return,
    [Some args] is [true] with the out-parameter. *)
Definition get (m : Map) (opt : string) (order : nat) : option Arguments :=
  match find m opt with
  | [] => None
  | entry => get_from entry opt order
  end.

(** [Options::strings(map, list)]: the keys, one per entry. *)
Definition strings (m : Map) : list string := map fst m.

(** The arguments of the entries stored under [opt], in container order. *)
Definition entries_of (opt : string) (m : Map) : list Arguments :=
  map snd (List.filter (fun e => String.eqb (fst e) opt) m).

(** Keys never decrease along the container. *)
Inductive sorted : Map -> Prop :=
| sorted_nil : sorted []
| sorted_cons e m :
    Forall (fun e' => String.ltb (fst e') (fst e) = false) m ->
    sorted m -> sorted (e :: m).

End MultiMap.

(** ** class [Options] *)

Module Opts.
Import MultiMap.

(** Option type *)
Inductive type_t := singleDash | doubleDash.

(** [m_last] points at the arguments of the entry that the last [add]
    created: the map it lives in and its position there.  The position stays
    right until the next [add], the only operation that moves entries, and
    that one sets [m_last] anew.  [None] is the [NULL] pointer. *)
Record Options := mkOptions {
  m_last : option (type_t * nat);
  m_args : Arguments;
  m_single : Map;
  m_double : Map
}.

(** [args->push_back(arg)] on the entry an iterator points at. *)
Definition push_back (arg : string) (e : string * Arguments) : string * Arguments :=
  (fst e, snd e ++ [arg]).

(** [Options::add] *)
Definition add (type : type_t) (opt : string) (o : Options) : Options :=
  match type with
  | singleDash =>
      let '(m, entry) := insert opt (m_single o) in
      mkOptions (Some (singleDash, entry)) (m_args o) m (m_double o)
  | doubleDash =>
      let '(m, entry) := insert opt (m_double o) in
      mkOptions (Some (doubleDash, entry)) (m_args o) (m_single o) m
  end.

(** [Options::addArg] *)
Definition addArg (arg : string) (o : Options) : Options :=
  match m_last o with
  | None => mkOptions None (m_args o ++ [arg]) (m_single o) (m_double o)
  | Some (singleDash, entry) =>
      mkOptions (m_last o) (m_args o) (alter (push_back arg) entry (m_single o)) (m_double o)
  | Some (doubleDash, entry) =>
      mkOptions (m_last o) (m_args o) (m_single o) (alter (push_back arg) entry (m_double o))
  end.

(** ['-' != arg[i]]; only evaluated by the source where [i < arg.size()]. *)
Definition not_dash_at (i : nat) (arg : string) : bool :=
  match String.get i arg with
  | Some c => negb (Ascii.eqb c "-"%char)
  | None => true
  end.

(** [arg.substr(pos)] *)
Definition substr_from (pos : nat) (arg : string) : string :=
  String.substring pos (String.length arg - pos) arg.

(** The body of the constructor's loop, for one token. *)
Definition step (o : Options) (arg : string) : Options :=
  if String.eqb arg "" || not_dash_at 0 arg || (String.length arg =? 1)%nat then
    addArg arg o
  else if not_dash_at 1 arg then
    add singleDash (substr_from 1 arg) o
  else if (String.length arg =? 2)%nat then
    mkOptions None (m_args o) (m_single o) (m_double o)
  else if not_dash_at 2 arg then
    add doubleDash (substr_from 2 arg) o
  else
    addArg arg o.

Definition empty : Options := mkOptions None [] [] [].

(** The loop over [argv[1] .. argv[argc - 1]], from a given state. *)
Definition run (o : Options) (tokens : list string) : Options :=
  fold_left step tokens o.

(** [Options::Options(argv, argc)]: [argv[0]] names the binary and is
    skipped. *)
Definition Options_ctor (argv : list string) : Options :=
  run empty (tail argv).

Definition countSingle (o : Options) (opt : string) : nat := count (m_single o) opt.
Definition countDouble (o : Options) (opt : string) : nat := count (m_double o) opt.

(** [inline bool count(const std::string & opt) const]: the sum is converted
    to the declared return type [bool]. *)
Definition count (o : Options) (opt : string) : bool :=
  negb (countSingle o opt + countDouble o opt =? 0)%nat.

(** A [bool] read back as a number, as a caller expecting a count does. *)
Definition bool_to_size (b : bool) : nat := if b then 1 else 0.

Definition existsSingle (o : Options) (opt : string) : bool := (0 <? countSingle o opt)%nat.
Definition existsDouble (o : Options) (opt : string) : bool := (0 <? countDouble o opt)%nat.
Definition exists_ (o : Options) (opt : string) : bool := existsSingle o opt || existsDouble o opt.

Definition getSingle (o : Options) (opt : string) (order : nat) : option Arguments :=
  get (m_single o) opt order.
Definition getDouble (o : Options) (opt : string) (order : nat) : option Arguments :=
  get (m_double o) opt order.

(** [Options::get()]: the binary's own arguments. *)
Definition get_args (o : Options) : Arguments := m_args o.

Definition stringsSingle (o : Options) : list string := strings (m_single o).
Definition stringsDouble (o : Options) : list string := strings (m_double o).

(** Every occurrence of the double-dashed [opt], addressed by its order as
    [getDouble] does: orders [0] up to [countDouble o opt - 1]. *)
Definition occurrences (o : Options) (opt : string) : list Arguments :=
  omap (getDouble o opt) (seq 0 (countDouble o opt)).

(** [m_last] points into the map it names. *)
Definition last_valid (o : Options) : Prop :=
  match m_last o with
  | None => True
  | Some (singleDash, entry) => entry < length (m_single o)
  | Some (doubleDash, entry) => entry < length (m_double o)
  end.

(** The class invariant: both maps are ordered and [m_last] is not
    dangling. *)
Definition wf (o : Options) : Prop :=
  sorted (m_single o) /\ sorted (m_double o) /\ last_valid o.

(** The argument list that [addArg] extends: the one [m_last] points at, or
    the binary's arguments. *)
Definition current (o : Options) : option Arguments :=
  match m_last o with
  | None => Some (m_args o)
  | Some (singleDash, entry) => snd <$> m_single o !! entry
  | Some (doubleDash, entry) => snd <$> m_double o !! entry
  end.

(** How the constructor treats a token. *)
Inductive token_class :=
| Argument
| SingleOption (name : string)
| Separator
| DoubleOption (name : string).

Definition classify (arg : string) : token_class :=
  if String.eqb arg "" || not_dash_at 0 arg || (String.length arg =? 1)%nat then Argument
  else if not_dash_at 1 arg then SingleOption (substr_from 1 arg)
  else if (String.length arg =? 2)%nat then Separator
  else if not_dash_at 2 arg then DoubleOption (substr_from 2 arg)
  else Argument.

Definition is_argument (arg : string) : bool :=
  match classify arg with Argument => true | _ => false end.

Definition is_option (arg : string) : bool :=
  match classify arg with SingleOption _ | DoubleOption _ => true | _ => false end.

(** The three shapes of a token that looks like an option and is none. *)
Definition literal (arg : string) : Prop :=
  arg = "" \/ arg = "-" \/ String.prefix "---" arg = true.

(** The command line as it is written: the arguments that follow a token
    directly, and the argument lists of the double-dashed [opt], one for
    each time it is written, first to last. *)
Fixpoint leading_args (tokens : list string) : Arguments :=
  match tokens with
  | arg :: tokens' => if is_argument arg then arg :: leading_args tokens' else []
  | [] => []
  end.

Fixpoint written_double (opt : string) (tokens : list string) : list Arguments :=
  match tokens with
  | [] => []
  | arg :: tokens' =>
      match classify arg with
      | DoubleOption name =>
          if String.eqb name opt
          then leading_args tokens' :: written_double opt tokens'
          else written_double opt tokens'
      | _ => written_double opt tokens'
      end
  end.

(** The entries under [opt] once the current occurrence has received the
    arguments [args]. *)
Definition entries_with (opt : string) (args : Arguments) (o : Options) : list Arguments :=
  match m_last o with
  | Some (doubleDash, entry) =>
      entries_of opt (alter (fun e => (fst e, snd e ++ args)) entry (m_double o))
  | _ => entries_of opt (m_double o)
  end.

(** Number of tokens that start an occurrence of [opt], with one dash or
    with two. *)
Definition starts (opt : string) (arg : string) : bool :=
  match classify arg with
  | SingleOption name | DoubleOption name => String.eqb name opt
  | _ => false
  end.

Definition started (opt : string) (tokens : list string) : nat :=
  length (List.filter (starts opt) tokens).

(** [Options::strings()]: the single-dashed options, then the double-dashed
    ones. *)
Definition Options_strings (o : Options) : list string :=
  stringsSingle o ++ stringsDouble o.

(** More of the command line as it is written: the arguments that no
    option takes ([top] tells whether the tokens start outside any
    occurrence), the argument lists of the single-dashed [opt], and the
    option names in the order they are written. *)
Fixpoint written_top (top : bool) (tokens : list string) : Arguments :=
  match tokens with
  | [] => []
  | arg :: tokens' =>
      match classify arg with
      | Argument =>
          if top then arg :: written_top top tokens' else written_top top tokens'
      | Separator => written_top true tokens'
      | SingleOption _ | DoubleOption _ => written_top false tokens'
      end
  end.

Fixpoint written_single (opt : string) (tokens : list string) : list Arguments :=
  match tokens with
  | [] => []
  | arg :: tokens' =>
      match classify arg with
      | SingleOption name =>
          if String.eqb name opt
          then leading_args tokens' :: written_single opt tokens'
          else written_single opt tokens'
      | _ => written_single opt tokens'
      end
  end.

Definition single_name (arg : string) : option string :=
  match classify arg with SingleOption name => Some name | _ => None end.

Definition double_name (arg : string) : option string :=
  match classify arg with DoubleOption name => Some name | _ => None end.

(** Whether [m_last] is [NULL]. *)
Definition no_current (o : Options) : bool :=
  match m_last o with None => true | Some _ => false end.

(** Every argument the store holds: the binary's own and those of all
    occurrences. *)
Definition all_args (o : Options) : Arguments :=
  m_args o ++ concat (map snd (m_single o)) ++ concat (map snd (m_double o)).

(** The entries of the single-dashed [opt] once the current occurrence has
    received the arguments [args]. *)
Definition single_entries_with (opt : string) (args : Arguments) (o : Options)
    : list Arguments :=
  match m_last o with
  | Some (singleDash, entry) =>
      entries_of opt (alter (fun e => (fst e, snd e ++ args)) entry (m_single o))
  | _ => entries_of opt (m_single o)
  end.

(** An option name as the tokenizer can produce it: not empty and not
    starting with a dash. *)
Definition proper_name (name : string) : bool :=
  match name with
  | EmptyString => false
  | String c _ => negb (Ascii.eqb c "-"%char)
  end.


End Opts.

(** ** class [NutConfOptions] *)

Module NutConf.
Import MultiMap Opts.

(** Option mode (getter/setter) *)
Inductive mode_t := NOT_SPECIFIED | GETTER | SETTER.

Definition mode_t_eqb (a b : mode_t) : bool :=
  match a, b with
  | NOT_SPECIFIED, NOT_SPECIFIED | GETTER, GETTER | SETTER, SETTER => true
  | _, _ => false
  end.

(** Listen address specification *)
Definition ListenAddrSpec : Type := string * string.

(** Device specification *)
Record DeviceSpec := mkDeviceSpec {
  id : string;
  driver : string;
  port : string;
  desc : string
}.

(** The object under construction: the [Options] base, the private lists
    and the public members, in the order the class declares them. *)
Record NutConfOptions := mkNutConfOptions {
  base : Options;
  m_unknown : list string;
  m_errors : list string;
  valid : bool;
  autoconfigure : bool;
  is_configured : bool;
  local : string;
  system : bool;
  mode : string;
  monitors : list string;
  set_monitor_cnt : nat;
  add_monitor_cnt : nat;
  listen_addrs : list ListenAddrSpec;
  set_listen_cnt : nat;
  add_listen_cnt : nat;
  devices : list DeviceSpec;
  set_device_cnt : nat;
  add_device_cnt : nat
}.

(** Assignments to one member. *)
Definition upd_m_unknown (f : list string -> list string) (o : NutConfOptions) : NutConfOptions :=
  mkNutConfOptions (base o) (f (m_unknown o)) (m_errors o) (valid o)
    (autoconfigure o) (is_configured o) (local o) (system o) (mode o)
    (monitors o) (set_monitor_cnt o) (add_monitor_cnt o) (listen_addrs o)
    (set_listen_cnt o) (add_listen_cnt o) (devices o) (set_device_cnt o)
    (add_device_cnt o).

Definition upd_m_errors (f : list string -> list string) (o : NutConfOptions) : NutConfOptions :=
  mkNutConfOptions (base o) (m_unknown o) (f (m_errors o)) (valid o)
    (autoconfigure o) (is_configured o) (local o) (system o) (mode o)
    (monitors o) (set_monitor_cnt o) (add_monitor_cnt o) (listen_addrs o)
    (set_listen_cnt o) (add_listen_cnt o) (devices o) (set_device_cnt o)
    (add_device_cnt o).

Definition upd_valid (f : bool -> bool) (o : NutConfOptions) : NutConfOptions :=
  mkNutConfOptions (base o) (m_unknown o) (m_errors o) (f (valid o))
    (autoconfigure o) (is_configured o) (local o) (system o) (mode o)
    (monitors o) (set_monitor_cnt o) (add_monitor_cnt o) (listen_addrs o)
    (set_listen_cnt o) (add_listen_cnt o) (devices o) (set_device_cnt o)
    (add_device_cnt o).

Definition upd_autoconfigure (f : bool -> bool) (o : NutConfOptions) : NutConfOptions :=
  mkNutConfOptions (base o) (m_unknown o) (m_errors o) (valid o)
    (f (autoconfigure o)) (is_configured o) (local o) (system o) (mode o)
    (monitors o) (set_monitor_cnt o) (add_monitor_cnt o) (listen_addrs o)
    (set_listen_cnt o) (add_listen_cnt o) (devices o) (set_device_cnt o)
    (add_device_cnt o).

Definition upd_is_configured (f : bool -> bool) (o : NutConfOptions) : NutConfOptions :=
  mkNutConfOptions (base o) (m_unknown o) (m_errors o) (valid o)
    (autoconfigure o) (f (is_configured o)) (local o) (system o) (mode o)
    (monitors o) (set_monitor_cnt o) (add_monitor_cnt o) (listen_addrs o)
    (set_listen_cnt o) (add_listen_cnt o) (devices o) (set_device_cnt o)
    (add_device_cnt o).

Definition upd_local (f : string -> string) (o : NutConfOptions) : NutConfOptions :=
  mkNutConfOptions (base o) (m_unknown o) (m_errors o) (valid o)
    (autoconfigure o) (is_configured o) (f (local o)) (system o) (mode o)
    (monitors o) (set_monitor_cnt o) (add_monitor_cnt o) (listen_addrs o)
    (set_listen_cnt o) (add_listen_cnt o) (devices o) (set_device_cnt o)
    (add_device_cnt o).

Definition upd_system (f : bool -> bool) (o : NutConfOptions) : NutConfOptions :=
  mkNutConfOptions (base o) (m_unknown o) (m_errors o) (valid o)
    (autoconfigure o) (is_configured o) (local o) (f (system o)) (mode o)
    (monitors o) (set_monitor_cnt o) (add_monitor_cnt o) (listen_addrs o)
    (set_listen_cnt o) (add_listen_cnt o) (devices o) (set_device_cnt o)
    (add_device_cnt o).

Definition upd_mode (f : string -> string) (o : NutConfOptions) : NutConfOptions :=
  mkNutConfOptions (base o) (m_unknown o) (m_errors o) (valid o)
    (autoconfigure o) (is_configured o) (local o) (system o) (f (mode o))
    (monitors o) (set_monitor_cnt o) (add_monitor_cnt o) (listen_addrs o)
    (set_listen_cnt o) (add_listen_cnt o) (devices o) (set_device_cnt o)
    (add_device_cnt o).

Definition upd_monitors (f : list string -> list string) (o : NutConfOptions) : NutConfOptions :=
  mkNutConfOptions (base o) (m_unknown o) (m_errors o) (valid o)
    (autoconfigure o) (is_configured o) (local o) (system o) (mode o)
    (f (monitors o)) (set_monitor_cnt o) (add_monitor_cnt o) (listen_addrs o)
    (set_listen_cnt o) (add_listen_cnt o) (devices o) (set_device_cnt o)
    (add_device_cnt o).

Definition upd_set_monitor_cnt (f : nat -> nat) (o : NutConfOptions) : NutConfOptions :=
  mkNutConfOptions (base o) (m_unknown o) (m_errors o) (valid o)
    (autoconfigure o) (is_configured o) (local o) (system o) (mode o)
    (monitors o) (f (set_monitor_cnt o)) (add_monitor_cnt o) (listen_addrs o)
    (set_listen_cnt o) (add_listen_cnt o) (devices o) (set_device_cnt o)
    (add_device_cnt o).

Definition upd_add_monitor_cnt (f : nat -> nat) (o : NutConfOptions) : NutConfOptions :=
  mkNutConfOptions (base o) (m_unknown o) (m_errors o) (valid o)
    (autoconfigure o) (is_configured o) (local o) (system o) (mode o)
    (monitors o) (set_monitor_cnt o) (f (add_monitor_cnt o)) (listen_addrs o)
    (set_listen_cnt o) (add_listen_cnt o) (devices o) (set_device_cnt o)
    (add_device_cnt o).

Definition upd_listen_addrs (f : list ListenAddrSpec -> list ListenAddrSpec) (o : NutConfOptions) : NutConfOptions :=
  mkNutConfOptions (base o) (m_unknown o) (m_errors o) (valid o)
    (autoconfigure o) (is_configured o) (local o) (system o) (mode o)
    (monitors o) (set_monitor_cnt o) (add_monitor_cnt o) (f (listen_addrs o))
    (set_listen_cnt o) (add_listen_cnt o) (devices o) (set_device_cnt o)
    (add_device_cnt o).

Definition upd_set_listen_cnt (f : nat -> nat) (o : NutConfOptions) : NutConfOptions :=
  mkNutConfOptions (base o) (m_unknown o) (m_errors o) (valid o)
    (autoconfigure o) (is_configured o) (local o) (system o) (mode o)
    (monitors o) (set_monitor_cnt o) (add_monitor_cnt o) (listen_addrs o)
    (f (set_listen_cnt o)) (add_listen_cnt o) (devices o) (set_device_cnt o)
    (add_device_cnt o).

Definition upd_add_listen_cnt (f : nat -> nat) (o : NutConfOptions) : NutConfOptions :=
  mkNutConfOptions (base o) (m_unknown o) (m_errors o) (valid o)
    (autoconfigure o) (is_configured o) (local o) (system o) (mode o)
    (monitors o) (set_monitor_cnt o) (add_monitor_cnt o) (listen_addrs o)
    (set_listen_cnt o) (f (add_listen_cnt o)) (devices o) (set_device_cnt o)
    (add_device_cnt o).

Definition upd_devices (f : list DeviceSpec -> list DeviceSpec) (o : NutConfOptions) : NutConfOptions :=
  mkNutConfOptions (base o) (m_unknown o) (m_errors o) (valid o)
    (autoconfigure o) (is_configured o) (local o) (system o) (mode o)
    (monitors o) (set_monitor_cnt o) (add_monitor_cnt o) (listen_addrs o)
    (set_listen_cnt o) (add_listen_cnt o) (f (devices o)) (set_device_cnt o)
    (add_device_cnt o).

Definition upd_set_device_cnt (f : nat -> nat) (o : NutConfOptions) : NutConfOptions :=
  mkNutConfOptions (base o) (m_unknown o) (m_errors o) (valid o)
    (autoconfigure o) (is_configured o) (local o) (system o) (mode o)
    (monitors o) (set_monitor_cnt o) (add_monitor_cnt o) (listen_addrs o)
    (set_listen_cnt o) (add_listen_cnt o) (devices o) (f (set_device_cnt o))
    (add_device_cnt o).

Definition upd_add_device_cnt (f : nat -> nat) (o : NutConfOptions) : NutConfOptions :=
  mkNutConfOptions (base o) (m_unknown o) (m_errors o) (valid o)
    (autoconfigure o) (is_configured o) (local o) (system o) (mode o)
    (monitors o) (set_monitor_cnt o) (add_monitor_cnt o) (listen_addrs o)
    (set_listen_cnt o) (add_listen_cnt o) (devices o) (set_device_cnt o)
    (f (add_device_cnt o)).

Definition push_error (msg : string) : NutConfOptions -> NutConfOptions :=
  upd_m_errors (fun errors => errors ++ [msg]).

Definition push_unknown (opt : string) : NutConfOptions -> NutConfOptions :=
  upd_m_unknown (fun unknown => unknown ++ [opt]).

(** [args.front()], [args.back()]; the source calls them on non-empty lists
    only. *)
Definition front (args : Arguments) : string := hd "" args.
Definition back (args : Arguments) : string := List.last args "".

(** The double quote character that the source puts around a reported
    value. *)
Definition dquote : string := String "034"%char "".

(** The error for a mode that [checkMode] rejects. *)
Definition unknown_mode (mode : string) : string :=
  "Unknown NUT mode: " ++ dquote ++ mode ++ dquote.

(** [NutConfOptions::optMode(opt, args, order)], with the out-parameter
    [args] returned (it is left empty when the option is not there). *)
Definition optMode (o : Options) (opt : string) (order : nat) : mode_t * Arguments :=
  match getDouble o opt order with
  | None => (NOT_SPECIFIED, [])
  | Some args => match args with
                 | [] => (GETTER, args)
                 | _ :: _ => (SETTER, args)
                 end
  end.

(** [NutConfOptions::checkMode] *)
Definition checkMode (mode : string) : bool :=
  if String.eqb "standalone" mode then true
  else if String.eqb "netserver" mode then true
  else if String.eqb "netclient" mode then true
  else if String.eqb "controlled" mode then true
  else if String.eqb "manual" mode then true
  else if String.eqb "none" mode then true
  else false.

(** The test that picks the set-counter: the first character of the option
    name is the letter s. *)
Definition starts_with_s (opt : string) : bool :=
  match String.get 0 opt with
  | Some c => Ascii.eqb "s"%char c
  | None => false
  end.

(** The counter a set-/add- option uses and the assignment to it. *)
Definition monitor_cnt (opt : string) (o : NutConfOptions) : nat :=
  if starts_with_s opt then set_monitor_cnt o else add_monitor_cnt o.
Definition incr_monitor_cnt (opt : string) : NutConfOptions -> NutConfOptions :=
  if starts_with_s opt then upd_set_monitor_cnt S else upd_add_monitor_cnt S.

Definition listen_cnt (opt : string) (o : NutConfOptions) : nat :=
  if starts_with_s opt then set_listen_cnt o else add_listen_cnt o.
Definition incr_listen_cnt (opt : string) : NutConfOptions -> NutConfOptions :=
  if starts_with_s opt then upd_set_listen_cnt S else upd_add_listen_cnt S.

Definition device_cnt (opt : string) (o : NutConfOptions) : nat :=
  if starts_with_s opt then set_device_cnt o else add_device_cnt o.
Definition incr_device_cnt (opt : string) : NutConfOptions -> NutConfOptions :=
  if starts_with_s opt then upd_set_device_cnt S else upd_add_device_cnt S.

(** The branches of the loop over the double-dashed options, one definition
    per known option. *)
Definition do_autoconfigure (o : NutConfOptions) : NutConfOptions :=
  if autoconfigure o
  then push_error "--autoconfigure option specified more than once" o
  else upd_autoconfigure (fun _ => true) o.

Definition do_is_configured (o : NutConfOptions) : NutConfOptions :=
  if is_configured o
  then push_error "--is-configured option specified more than once" o
  else upd_is_configured (fun _ => true) o.

Definition do_local (o : NutConfOptions) : NutConfOptions :=
  let '(m, args) := optMode (base o) "local" 0 in
  if negb (String.eqb (local o) "") then
    push_error "--local option specified more than once" o
  else if negb (mode_t_eqb SETTER m) then
    push_error "--local option requires an argument" o
  else if (1 <? length args)%nat then
    push_error "Only one directory may be specified with the --local option" o
  else
    upd_local (fun _ => front args) o.

Definition do_system (o : NutConfOptions) : NutConfOptions :=
  if system o
  then push_error "--system option specified more than once" o
  else upd_system (fun _ => true) o.

Definition do_mode (o : NutConfOptions) : NutConfOptions :=
  let '(m, args) := optMode (base o) "mode" 0 in
  if negb (String.eqb (mode o) "") then
    push_error "--mode option specified more than once" o
  else if negb (mode_t_eqb SETTER m) then
    push_error "--mode option requires an argument" o
  else if (1 <? length args)%nat then
    push_error "Only one argument allowed for the --mode option" o
  else if (length args =? 1)%nat && negb (checkMode (front args)) then
    push_error (unknown_mode (front args)) o
  else
    upd_mode (fun _ => front args) o.

Definition do_monitor (opt : string) (o : NutConfOptions) : NutConfOptions :=
  let '(m, args) := optMode (base o) opt (monitor_cnt opt o) in
  let o' :=
    if negb (mode_t_eqb SETTER m) then
      push_error ("--" ++ opt ++ " option requires arguments") o
    else if negb (length args =? 6)%nat then
      push_error ("--" ++ opt ++ " option requires exactly 6 arguments") o
    else
      (* every argument is pushed back, first to last *)
      upd_monitors (fun monitors => monitors ++ args) o in
  incr_monitor_cnt opt o'.

Definition do_listen (opt : string) (o : NutConfOptions) : NutConfOptions :=
  let '(m, args) := optMode (base o) opt (listen_cnt opt o) in
  let o' :=
    if negb (mode_t_eqb SETTER m) then
      push_error ("--" ++ opt ++ " option requires arguments") o
    else if (length args <? 1)%nat || (2 <? length args)%nat then
      push_error ("--" ++ opt ++ " option requires 1 or 2 arguments") o
    else
      let addr_port : ListenAddrSpec :=
        (front args, if (1 <? length args)%nat then back args else "") in
      upd_listen_addrs (fun listen_addrs => listen_addrs ++ [addr_port]) o in
  incr_listen_cnt opt o'.

Definition do_device (opt : string) (o : NutConfOptions) : NutConfOptions :=
  let '(m, args) := optMode (base o) opt (device_cnt opt o) in
  let o' :=
    if negb (mode_t_eqb SETTER m) then
      push_error ("--" ++ opt ++ " option requires arguments") o
    else if (length args <? 3)%nat then
      push_error ("--" ++ opt ++ " option requires at least 3 arguments") o
    else if (4 <? length args)%nat then
      push_error "    (perhaps you need to quote description?)"
        (push_error ("--" ++ opt ++ " option takes at most 4 arguments") o)
    else
      let dev :=
        mkDeviceSpec (nth 0 args "") (nth 1 args "") (nth 2 args "")
                     (nth 3 args "") in
      upd_devices (fun devices => devices ++ [dev]) o in
  incr_device_cnt opt o'.

(** The body of the loop over [stringsDouble()]. *)
Definition specify (o : NutConfOptions) (opt : string) : NutConfOptions :=
  if String.eqb "autoconfigure" opt then do_autoconfigure o
  else if String.eqb "is-configured" opt then do_is_configured o
  else if String.eqb "local" opt then do_local o
  else if String.eqb "system" opt then do_system o
  else if String.eqb "mode" opt then do_mode o
  else if String.eqb "set-monitor" opt || String.eqb "add-monitor" opt then
    do_monitor opt o
  else if String.eqb "set-listen" opt || String.eqb "add-listen" opt then
    do_listen opt o
  else if String.eqb "set-device" opt || String.eqb "add-device" opt then
    do_device opt o
  else push_unknown ("--" ++ opt) o.

(** The two options of the monitor family, the test on an occurrence's
    arguments and the error reported when it fails. *)
Definition is_monitor_opt (opt : string) : bool :=
  String.eqb "set-monitor" opt || String.eqb "add-monitor" opt.

Definition six (args : Arguments) : bool := (length args =? 6)%nat.

Definition monitor_error (opt : string) (args : Arguments) : string :=
  match args with
  | [] => "--" ++ opt ++ " option requires arguments"
  | _ :: _ => "--" ++ opt ++ " option requires exactly 6 arguments"
  end.

(** What one pass of the loop adds to the counter of the option [name]. *)
Definition bump (name opt : string) : nat :=
  if String.eqb name opt then 1 else 0.

(** The names the loop knows. *)
Definition known_options : list string :=
  ["autoconfigure"; "is-configured"; "local"; "system"; "mode";
   "set-monitor"; "add-monitor"; "set-listen"; "add-listen";
   "set-device"; "add-device"].

Definition is_known (opt : string) : bool :=
  existsb (fun name => String.eqb name opt) known_options.

(** The member initialisers. *)
Definition init (b : Options) : NutConfOptions :=
  mkNutConfOptions b [] [] true false false "" false "" [] 0 0 [] 0 0 [] 0 0.

(** The first loop: no single-dashed options are used. *)
Definition reject_single (o : NutConfOptions) : NutConfOptions :=
  fold_left (fun o opt => push_unknown ("-" ++ opt) o) (stringsSingle (base o)) o.

(** The second loop. *)
Definition specify_double (o : NutConfOptions) : NutConfOptions :=
  fold_left specify (stringsDouble (base o)) o.

(** [valid = m_unknown.empty() && m_errors.empty() && get().empty()] *)
Definition is_empty {A} (l : list A) : bool :=
  match l with [] => true | _ :: _ => false end.

Definition check_known (o : NutConfOptions) : NutConfOptions :=
  upd_valid (fun _ => is_empty (m_unknown o) && is_empty (m_errors o)
                      && is_empty (get_args (base o))) o.

(** One of the three mutual-exclusion tests that end the constructor. *)
Definition both (set_cnt add_cnt : nat) : bool :=
  (0 <? set_cnt)%nat && (0 <? add_cnt)%nat.

Definition exclusive (set_cnt add_cnt : nat) (msg : string)
    (o : NutConfOptions) : NutConfOptions :=
  if both set_cnt add_cnt
  then upd_valid (fun _ => false) (push_error msg o)
  else o.

Definition monitor_exclusion_msg : string :=
  "--set-monitor and --add-monitor options can't both be specified".
Definition listen_exclusion_msg : string :=
  "--set-listen and --add-listen options can't both be specified".
Definition device_exclusion_msg : string :=
  "--set-device and --add-device options can't both be specified".

Definition check_exclusive (o : NutConfOptions) : NutConfOptions :=
  let o := exclusive (set_monitor_cnt o) (add_monitor_cnt o) monitor_exclusion_msg o in
  let o := exclusive (set_listen_cnt o) (add_listen_cnt o) listen_exclusion_msg o in
  exclusive (set_device_cnt o) (add_device_cnt o) device_exclusion_msg o.

(** The object as it is when the two loops are done, before [valid] is
    computed. *)
Definition specified (argv : list string) : NutConfOptions :=
  specify_double (reject_single (init (Options_ctor argv))).

(** [NutConfOptions::NutConfOptions(argv, argc)] *)
Definition NutConfOptions_ctor (argv : list string) : NutConfOptions :=
  check_exclusive (check_known (specified argv)).

(** [NutConfOptions::getMode] *)
Definition getMode (o : NutConfOptions) : string :=
  let '(m, args) := optMode (base o) "mode" 0 in
  if negb (mode_t_eqb SETTER m) then "" else front args.

(** What a call of [getMonitor] does: it returns the six out-parameters,
    throws [std::range_error], or reads the vector [monitors] outside its
    bounds (which [operator[]] does not check). *)
Inductive monitor_result :=
| Fields (ups host_port pwr_val user passwd mode : string)
| RangeError (what : string)
| OutOfBounds.

(** [NutConfOptions::getMonitor] *)
Definition getMonitor (o : NutConfOptions) (which : nat) : monitor_result :=
  if (length (monitors o) / 6 <=? which)%nat then
    RangeError "INTERNAL ERROR: monitors index overflow"
  else
    let base_idx := 6 * which in
    match monitors o !! base_idx, monitors o !! (base_idx + 1),
          monitors o !! (base_idx + 2), monitors o !! (base_idx + 3),
          monitors o !! (base_idx + 4), monitors o !! (base_idx + 5) with
    | Some ups, Some host_port, Some pwr_val, Some user, Some passwd, Some mode =>
        Fields ups host_port pwr_val user passwd mode
    | _, _, _, _, _, _ => OutOfBounds
    end.

(** The listen and the device family: the options, and the record (if any)
    that an occurrence with the arguments [args] adds. *)
Definition is_listen_opt (opt : string) : bool :=
  String.eqb "set-listen" opt || String.eqb "add-listen" opt.

Definition is_device_opt (opt : string) : bool :=
  String.eqb "set-device" opt || String.eqb "add-device" opt.

Definition listen_records (args : Arguments) : list ListenAddrSpec :=
  if (length args <? 1)%nat || (2 <? length args)%nat then []
  else [(front args, if (1 <? length args)%nat then back args else "")].

Definition device_records (args : Arguments) : list DeviceSpec :=
  if (length args <? 3)%nat || (4 <? length args)%nat then []
  else [mkDeviceSpec (nth 0 args "") (nth 1 args "") (nth 2 args "") (nth 3 args "")].

(** What [reportInvalid] does: it throws [std::logic_error] or writes lines
    to [std::cerr]. *)
Inductive report :=
| LogicError (what : string)
| Reported (cerr : list string).

(** [NutConfOptions::reportInvalid] *)
Definition reportInvalid (o : NutConfOptions) : report :=
  if valid o then LogicError "No invalid options to report"
  else
    Reported
      (map (String.append "Unknown option: ") (m_unknown o) ++
       map (String.append "Option error: ") (m_errors o) ++
       map (String.append "Unexpected argument: ") (get_args (base o))).


End NutConf.

(** ** Formatted input of unsigned numbers *)

Module Stream.

(** [std::stringstream ss(text); ss >> value] for an unsigned integer type of
    [bits] bits, with the stream's default flags (skip white space, decimal)
    and the classic locale: white space is skipped, an optional sign is
    read, then decimal digits as far as they go.  The extraction fails
    ([None], the stream's [fail()]) when no digit is found or the digits
    denote a number that the type cannot hold; a number read after a minus
    sign is negated in the unsigned type.  Characters after the digits stay
    in the stream. *)

Definition isspace (c : ascii) : bool :=
  let n := nat_of_ascii c in (n =? 32)%nat || ((9 <=? n)%nat && (n <=? 13)%nat).

Fixpoint skipws (s : string) : string :=
  match s with
  | String c s' => if isspace c then skipws s' else s
  | EmptyString => s
  end.

Definition digit (c : ascii) : option Z :=
  let n := Z.of_nat (nat_of_ascii c) in
  if (48 <=? n)%Z && (n <=? 57)%Z then Some (n - 48)%Z else None.

(** The digits at the front of [s]; [acc] is the number read so far, [None]
    as long as no digit was seen. *)
Fixpoint digits (s : string) (acc : option Z) : option Z :=
  match s with
  | String c s' =>
      match digit c with
      | Some d => digits s' (Some (10 * default 0 acc + d))%Z
      | None => acc
      end
  | EmptyString => acc
  end.

Definition sign (s : string) : bool * string :=
  match s with
  | String c s' =>
      if Ascii.eqb c "-"%char then (true, s')
      else if Ascii.eqb c "+"%char then (false, s')
      else (false, s)
  | EmptyString => (false, s)
  end.

Definition extract_unsigned (bits : Z) (text : string) : option Z :=
  let '(negative, s) := sign (skipws text) in
  match digits s None with
  | None => None
  | Some v =>
      if (2 ^ bits <=? v)%Z then None
      else Some (if negative then (2 ^ bits - v) mod 2 ^ bits else v)%Z
  end.

(** [unsigned short] and [unsigned int] *)
Definition extract_ushort : string -> option Z := extract_unsigned 16.
Definition extract_uint : string -> option Z := extract_unsigned 32.

End Stream.

(** ** Records for the configuration files *)

Module Merge.
Import MultiMap Opts NutConf Stream.

(** [nut::UpsmonConfiguration::Monitor]; the struct is declared in
    nutconf.h, these are the members that [monitor] assigns. *)
Record Monitor := mkMonitor {
  upsname : string;
  hostname : string;
  mon_port : Z;
  powerValue : Z;
  username : string;
  password : string;
  isMaster : bool
}.

(** How a function of this part ends: it returns, an exception leaves it,
    it prints a line to [std::cerr] and calls [::exit], or it does
    something the language leaves undefined. *)
Inductive outcome (A : Type) :=
| Returns (a : A)
| Throws (what : string)
| Exits (cerr : string) (status : Z)
| Undefined.
Arguments Returns {A} a.
Arguments Throws {A} what.
Arguments Exits {A} cerr status.
Arguments Undefined {A}.

(** [host_port.rfind(':')]; [None] is [std::string::npos]. *)
Fixpoint rfind (c : ascii) (s : string) : option nat :=
  match s with
  | EmptyString => None
  | String a s' =>
      match rfind c s' with
      | Some i => Some (S i)
      | None => if Ascii.eqb a c then Some 0 else None
      end
  end.

(** Whether a colon occurs in [s]. *)
Fixpoint has_colon (s : string) : bool :=
  match s with
  | EmptyString => false
  | String a s' => Ascii.eqb a ":"%char || has_colon s'
  end.

(** [host_port.substr(0, colon_idx)] *)
Definition substr_to (colon_idx : option nat) (s : string) : string :=
  match colon_idx with
  | Some n => String.substring 0 n s
  | None => s
  end.

(** The two fatal errors of [monitor]: the line printed and [::exit(1)]. *)
Definition HostPortParseError {A} (host_port : string) : outcome A :=
  Exits ("Error: failed to parse host specification " ++ dquote ++ host_port ++ dquote) 1.
Definition PowerValueParseError {A} (pwr_val : string) : outcome A :=
  Exits ("Error: failed to parse power value " ++ dquote ++ pwr_val ++ dquote) 1.

(** Parse host[:port]: the value of [port] after the first block of
    [monitor], or the extraction failure. *)
Definition parse_port (host_port : string) : option Z :=
  match rfind ":"%char host_port with
  | Some colon_idx => extract_ushort (substr_from (colon_idx + 1) host_port)
  | None => Some 0%Z
  end.

(** [monitor(i, options)] *)
Definition monitor (i : nat) (options : NutConfOptions) : outcome Monitor :=
  match getMonitor options i with
  | RangeError what => Throws what
  | OutOfBounds => Undefined
  | Fields ups host_port pwr_val user passwd mode =>
      match parse_port host_port with
      | None => HostPortParseError host_port
      | Some port =>
          match extract_uint pwr_val with
          | None => PowerValueParseError pwr_val
          | Some power_value =>
              Returns (mkMonitor ups (substr_to (rfind ":"%char host_port) host_port)
                                 port power_value user passwd
                                 (String.eqb "master" mode))
          end
      end
  end.

(** Modelled from the spec: [nut::UpsConfiguration] (nutconf.h and
    nutconf.cpp are not among the sources).  A configuration maps a section
    name to a section; the section with the empty name is the reserved
    global one, every other one is a device.  [setDriver], [setPort] and
    [setDescription] set one field of the section keyed by the device id,
    creating the section if absent and overwriting the field if present. *)
Record Section := mkSection {
  sec_driver : option string;
  sec_port : option string;
  sec_desc : option string;
  sec_other : list (string * string)
}.

Definition new_section : Section := mkSection None None None [].

Definition upsert (f : Section -> Section) (ups : string)
    (sections : gmap string Section) : gmap string Section :=
  <[ups := f (default new_section (sections !! ups))]> sections.

Definition setDriver (ups value : string) : gmap string Section -> gmap string Section :=
  upsert (fun s => mkSection (Some value) (sec_port s) (sec_desc s) (sec_other s)) ups.
Definition setPort (ups value : string) : gmap string Section -> gmap string Section :=
  upsert (fun s => mkSection (sec_driver s) (Some value) (sec_desc s) (sec_other s)) ups.
Definition setDescription (ups value : string) : gmap string Section -> gmap string Section :=
  upsert (fun s => mkSection (sec_driver s) (sec_port s) (Some value) (sec_other s)) ups.

(** The section names as an iterator of [std::map] visits them, [begin()]
    first: in the order of the keys. *)
Definition key_le (a b : string) : Prop := String.leb a b = true.

#[local] Instance key_le_dec : RelDecision key_le :=
  fun a b => decide (String.leb a b = true).

Definition section_names (sections : gmap string Section) : list string :=
  merge_sort key_le (elements (dom sections)).

(** The removal loop of [setDevices], with [ups] at the head of [names]:
<<
    for (; ups != ups_conf.sections.end(); ++ups) {
        if (ups->first.empty()) continue;
        ups_conf.sections.erase(ups);
    }
>>
    The global section is stepped over.  At any other section
    [erase(ups)] removes the element and with that invalidates [ups], the
    only iterator the loop has; the [++ups] that follows steps an invalid
    iterator, which has no defined behaviour. *)
Fixpoint remove_existing (names : list string)
    (sections : gmap string Section) : outcome (gmap string Section) :=
  match names with
  | [] => Returns sections
  | ups :: names' =>
      if String.eqb ups "" then remove_existing names' sections
      else Undefined
  end.

(** The loop that adds the devices to the current ones. *)
Definition add_device (sections : gmap string Section) (dev : DeviceSpec)
    : gmap string Section :=
  let sections := setDriver (id dev) (driver dev) sections in
  let sections := setPort (id dev) (port dev) sections in
  if negb (String.eqb (desc dev) "") then setDescription (id dev) (desc dev) sections
  else sections.

(** [setDevices(devices, etc, keep_ex)], from the configuration that
    [source] has read (empty when there is no file) to the one handed to
    [store]. *)
Definition setDevices (devices : list DeviceSpec) (keep_ex : bool)
    (ups_conf : gmap string Section) : outcome (gmap string Section) :=
  let cleared :=
    if negb keep_ex then remove_existing (section_names ups_conf) ups_conf
    else Returns ups_conf in
  match cleared with
  | Returns sections => Returns (fold_left add_device devices sections)
  | Throws what => Throws what
  | Exits cerr status => Exits cerr status
  | Undefined => Undefined
  end.

(** The fields one device record writes into its section. *)
Definition written (dev : DeviceSpec) (s : Section) : Section :=
  mkSection (Some (driver dev)) (Some (port dev))
            (if String.eqb (desc dev) "" then sec_desc s else Some (desc dev))
            (sec_other s).

(** What the comments of the removal loop ask for: every section but the
    global one is gone. *)
Definition only_global (sections : gmap string Section) : gmap string Section :=
  filter (fun kv => fst kv = "") sections.

End Merge.

(** ** The program: [Usage], the list merges, [mainx] and [main] *)

Module Main.
Import MultiMap Opts NutConf Stream Merge.

(** [nut::UpsdConfiguration::Listen]; the struct is declared in nutconf.h,
    these are the members that [listenAddr] assigns.  [listen_port] is
    [None] where [listenAddr] leaves the member as the struct's
    constructor made it. *)
Record Listen := mkListen {
  address : string;
  listen_port : option Z
}.

(** The fatal error of [listenAddr]. *)
Definition PortParseError {A} (port : string) : outcome A :=
  Exits ("Error: failed to parse port specification " ++ dquote ++ port ++ dquote) 1.

(** [listenAddr(i, options)]; [options.listen_addrs[i]] is the unchecked
    [operator[]] of the vector. *)
Definition listenAddr (i : nat) (options : NutConfOptions) : outcome Listen :=
  match listen_addrs options !! i with
  | None => Undefined
  | Some addr_spec =>
      if negb (String.eqb (snd addr_spec) "") then
        match extract_ushort (snd addr_spec) with
        | None => PortParseError (snd addr_spec)
        | Some port => Returns (mkListen (fst addr_spec) (Some port))
        end
      else Returns (mkListen (fst addr_spec) None)
  end.

(** The two loops of [mainx] that fill a list,
<<
    for (size_t i = 0; i < n; ++i) list.push_back(f(i, options));
>>
    with [todo] the number of rounds still to go and [pushed] the list so
    far.  A call that does not return ends the loop. *)
Fixpoint collect {A} (f : nat -> outcome A) (i todo : nat) (pushed : list A)
    : outcome (list A) :=
  match todo with
  | 0 => Returns pushed
  | S todo' =>
      match f i with
      | Returns a => collect f (S i) todo' (pushed ++ [a])
      | Throws what => Throws what
      | Exits cerr status => Exits cerr status
      | Undefined => Undefined
      end
  end.

(** [setMonitors(monitors, etc, keep_ex)], from the monitors of the
    configuration that [source] has read (none when there is no file) to
    the ones handed to [store]. *)
Definition setMonitors (monitors : list Monitor) (keep_ex : bool)
    (upsmon_conf : list Monitor) : list Monitor :=
  let existing := if negb keep_ex then [] else upsmon_conf in
  fold_left (fun conf monitor => conf ++ [monitor]) monitors existing.

(** [setListenAddrs(listen_addrs, etc, keep_ex)], in the same way. *)
Definition setListenAddrs (listen_addrs : list Listen) (keep_ex : bool)
    (upsd_conf : list Listen) : list Listen :=
  let existing := if negb keep_ex then [] else upsd_conf in
  fold_left (fun conf listen => conf ++ [listen]) listen_addrs existing.

(** What [nut::NutFile] and the configuration classes answer ([exists],
    [parseFrom], [writeTo]; they are declared in nutstream.hpp and
    nutconf.h).  Of a configuration the model keeps the member that the
    function at hand changes: the monitors of upsmon.conf, the listen
    addresses of upsd.conf, the sections of ups.conf.  [parseFrom] gives
    the configuration after the call and [parsed_ok], [writeTo] gives
    [written_ok].  The calls are taken to return; what the classes do when
    a file cannot be opened or closed is theirs and not part of the
    model. *)
Record Files := mkFiles {
  file_exists : string -> bool;
  parse_upsmon : string -> list Monitor -> list Monitor * bool;
  write_upsmon : string -> list Monitor -> bool;
  parse_upsd : string -> list Listen -> list Listen * bool;
  write_upsd : string -> list Listen -> bool;
  parse_ups : string -> gmap string Section -> gmap string Section * bool;
  write_ups : string -> gmap string Section -> bool
}.

(** A directory without configuration files, in which every file can be
    written. *)
Definition empty_directory : Files :=
  mkFiles (fun _ => false)
          (fun _ config => (config, true)) (fun _ _ => true)
          (fun _ config => (config, true)) (fun _ _ => true)
          (fun _ config => (config, true)) (fun _ _ => true).

(** One call after the other, as long as they return. *)
Definition bind {A B} (o : outcome A) (f : A -> outcome B) : outcome B :=
  match o with
  | Returns a => f a
  | Throws what => Throws what
  | Exits cerr status => Exits cerr status
  | Undefined => Undefined
  end.

Section SourceStore.
Context {C : Type}.
Variable NutFile_exists : string -> bool.
Variable parseFrom : string -> C -> C * bool.
Variable writeTo : string -> C -> bool.

(** [source(config, file_name)]: the configuration afterwards and the
    value returned. *)
Definition source (config : C) (file_name : string) : outcome (C * bool) :=
  if negb (NutFile_exists file_name) then Returns (config, false)
  else
    let '(config, parsed_ok) := parseFrom file_name config in
    if parsed_ok then Returns (config, true)
    else Exits ("Error: Failed to parse " ++ file_name) 1.

(** [store(config, file_name)] *)
Definition store (config : C) (file_name : string) : outcome unit :=
  let written_ok := writeTo file_name config in
  if written_ok then Returns tt
  else Exits ("Error: Failed to write " ++ file_name) 1.

End SourceStore.

(** [setMonitors(monitors, etc, keep_ex)] from its first line to its last:
    the previous configuration is sourced, the monitors are merged as
    [setMonitors] above says, the configuration is stored. *)
Definition call_setMonitors (files : Files) (monitors : list Monitor) (etc : string)
    (keep_ex : bool) : outcome unit :=
  let upsmon_conf_file := (etc ++ "/upsmon.conf")%string in
  bind (source (file_exists files) (parse_upsmon files) [] upsmon_conf_file)
       (fun sourced =>
          store (write_upsmon files) (setMonitors monitors keep_ex (fst sourced))
                upsmon_conf_file).

(** [setListenAddrs(listen_addrs, etc, keep_ex)] from its first line to its
    last. *)
Definition call_setListenAddrs (files : Files) (listen_addrs : list Listen) (etc : string)
    (keep_ex : bool) : outcome unit :=
  let upsd_conf_file := (etc ++ "/upsd.conf")%string in
  bind (source (file_exists files) (parse_upsd files) [] upsd_conf_file)
       (fun sourced =>
          store (write_upsd files) (setListenAddrs listen_addrs keep_ex (fst sourced))
                upsd_conf_file).

(** [setDevices(devices, etc, keep_ex)] from its first line to its last;
    the part between [source] and [store] is [Merge.setDevices]. *)
Definition call_setDevices (files : Files) (devices : list DeviceSpec) (etc : string)
    (keep_ex : bool) : outcome unit :=
  let ups_conf_file := (etc ++ "/ups.conf")%string in
  bind (source (file_exists files) (parse_ups files) ∅ ups_conf_file)
       (fun sourced =>
          bind (setDevices devices keep_ex (fst sourced))
               (fun ups_conf => store (write_ups files) ups_conf ups_conf_file)).

(** What a run of the program shows: the lines it writes and the calls of
    [setMonitors], [setListenAddrs] and [setDevices] with their arguments,
    in the order in which they happen. *)
Inductive event :=
| Cerr (line : string)
| Cout (line : string)
| SetMonitors (monitors : list Monitor) (etc : string) (keep_ex : bool)
| SetListenAddrs (listen_addrs : list Listen) (etc : string) (keep_ex : bool)
| SetDevices (devices : list DeviceSpec) (etc : string) (keep_ex : bool).

(** How a run ends: [return], [::exit], an exception that leaves the
    function, or behaviour that the language leaves undefined. *)
Inductive finish :=
| Return (status : Z)
| Exit (status : Z)
| Throw (what : string)
| UndefinedBehaviour.

Definition is_call (e : event) : bool :=
  match e with
  | SetMonitors _ _ _ | SetListenAddrs _ _ _ | SetDevices _ _ _ => true
  | Cerr _ | Cout _ => false
  end.

Section Program.

(** The macro [CONFPATH] of config.h. *)
Variable CONFPATH : string.

(** The answers of the file system: [nut::NutFile(etc).exists()] and the
    result of [isConfigured(etc)], which reads nut.conf through
    [nut::NutFile] and [nut::NutConfiguration] and changes nothing. *)
Variable etc_dir_exists : string -> bool.
Variable isConfigured : string -> bool.

(** The configuration files that the three calls read and write. *)
Variable files : Files.

(** [Usage::s_text] *)
Definition s_text : list string := [
"    --help                        Display this help and exit";
"    --autoconfigure               Perform autoconfiguration";
"    --is-configured               Checks whether NUT is configured";
"    --local <directory>           Sets configuration directory";
"    --system                      Sets configuration directory to " ++ CONFPATH ++ " (default)";
"    --mode <NUT mode>             Sets NUT mode (see below)";
"    --set-monitor <spec>          Configures one monitor (see below)";
"                                  All existing entries are removed; however, it may be";
"                                  specified multiple times to set multiple entries";
"    --add-monitor <spec>          Same as --set-monitor, but keeps existing entries";
"                                  The two options are mutually exclusive";
"    --set-listen <addr> [<port>]  Configures one listen address for the NUT daemon";
"                                  All existing entries are removed; however, it may be";
"                                  specified multiple times to set multiple entries";
"    --add-listen <addr> [<port>]  Same as --set-listen, but keeps existing entries";
"                                  The two options are mutually exclusive";
"    --set-device <spec>           Configures one UPS device (see below)";
"                                  All existing devices are removed; however, it may be";
"                                  specified multiple times to set multiple devices";
"    --add-device <spec>           Same as --set-device, but keeps existing devices";
"                                  The two options are mutually exclusive";
"";
"NUT modes: standalone, netserver, netclient, controlled, manual, none";
"Monitor is specified by the following sequence:";
"    <ups_ID> <host>[:<port>] <power_value> <user> <passwd> (" ++ dquote ++ "master"
  ++ dquote ++ "|" ++ dquote ++ "slave" ++ dquote ++ ")";
"UPS device is specified by the following sequence:";
"    <ups_ID> <driver> <port> [<description>]";
""
]%string.

(** [Usage::print(bin)]: the lines written to [std::cerr]. *)
Definition print (bin : string) : list event :=
  map Cerr (("Usage: " ++ bin ++ " [OPTIONS]")%string :: "" :: "OPTIONS:" :: s_text).

(** [Usage::print(argv[0]); ::exit(status);].  With no element in [argv]
    the pointer [argv[0]] is null, and a [std::string] made from a null
    pointer has no defined behaviour. *)
Definition print_and_exit (argv : list string) (status : Z) : list event * finish :=
  match argv with
  | bin :: _ => (print bin, Exit status)
  | [] => ([], UndefinedBehaviour)
  end.

(** One block of [mainx] after another: the first gives its events and,
    when the run ends in it, how; otherwise the rest follows. *)
Definition and_then (block : list event * option finish) (rest : list event * finish)
    : list event * finish :=
  match block with
  | (events, Some f) => (events, f)
  | (events, None) => (events ++ fst rest, snd rest)
  end.

(** A call is an event of the run.  The run goes on when the call returns;
    a call that exits has written its line to [std::cerr] before, and a
    call that does not return ends the run as it ends itself. *)
Definition called (call : event) (ends : outcome unit) : list event * option finish :=
  match ends with
  | Returns _ => ([call], None)
  | Throws what => ([call], Some (Throw what))
  | Exits cerr status => ([call; Cerr cerr], Some (Exit status))
  | Undefined => ([call], Some UndefinedBehaviour)
  end.

(** A loop that filled the list [l] is followed by the call [call l],
    which ends as [ends l] says; a loop that ended the run has written its
    line to [std::cerr]. *)
Definition filled {A} (loop : outcome (list A)) (call : list A -> event)
    (ends : list A -> outcome unit) : list event * option finish :=
  match loop with
  | Returns l => called (call l) (ends l)
  | Throws what => ([], Some (Throw what))
  | Exits cerr status => ([Cerr cerr], Some (Exit status))
  | Undefined => ([], Some UndefinedBehaviour)
  end.

(** Monitors were set *)
Definition monitors_block (options : NutConfOptions) (etc : string)
    : list event * option finish :=
  if negb (is_empty (monitors options)) then
    let keep_ex := (0 <? add_monitor_cnt options)%nat in
    filled (collect (fun i => monitor i options) 0 (length (monitors options) / 6) [])
           (fun monitors => SetMonitors monitors etc keep_ex)
           (fun monitors => call_setMonitors files monitors etc keep_ex)
  else ([], None).

(** Listen addresses were set *)
Definition listen_block (options : NutConfOptions) (etc : string)
    : list event * option finish :=
  if negb (is_empty (listen_addrs options)) then
    let keep_ex := (0 <? add_listen_cnt options)%nat in
    filled (collect (fun i => listenAddr i options) 0 (length (listen_addrs options)) [])
           (fun listen_addrs => SetListenAddrs listen_addrs etc keep_ex)
           (fun listen_addrs => call_setListenAddrs files listen_addrs etc keep_ex)
  else ([], None).

(** Devices were set *)
Definition devices_block (options : NutConfOptions) (etc : string)
    : list event * option finish :=
  if negb (is_empty (devices options)) then
    let keep_ex := (0 <? add_device_cnt options)%nat in
    called (SetDevices (devices options) etc keep_ex)
           (call_setDevices files (devices options) etc keep_ex)
  else ([], None).

(** The configuration directory that [mainx] works on. *)
Definition directory (options : NutConfOptions) : string :=
  if negb (String.eqb (local options) "") then local options else CONFPATH.

(** [mainx(argc, argv)] *)
Definition mainx (argv : list string) : list event * finish :=
  let options := NutConfOptions_ctor argv in
  if exists_ (base options) "help" then print_and_exit argv 0
  else if negb (valid options) then
    match reportInvalid options with
    | LogicError what => ([], Throw what)
    | Reported cerr =>
        and_then (map Cerr cerr, None) (print_and_exit argv 1)
    end
  else
    let etc := directory options in
    if negb (etc_dir_exists etc) then
      ([Cerr ("Error: Configuration directory " ++ etc ++ " isn't available")], Exit 1)
    else if is_configured options then
      let is_configured := isConfigured etc in
      ([Cout (if is_configured then "true" else "false")],
       Exit (if is_configured then 0 else 1))
    else
      and_then (monitors_block options etc)
        (and_then (listen_block options etc)
           (and_then (devices_block options etc) ([], Return 0))).

(** [main(argc, argv)]: an exception that leaves [mainx] is reported and
    the program exits with status 128. *)
Definition main (argv : list string) : list event * finish :=
  match mainx argv with
  | (events, Throw what) => (events ++ [Cerr ("Error: " ++ what)], Exit 128)
  | run => run
  end.

End Program.

(** The calls of a run. *)
Definition calls (run : list event * finish) : list event :=
  List.filter is_call (fst run).

End Main.


(** * Facts *)

(** ** Order on keys *)

Module StrOrd.

(** [String.ltb] is a strict total order. *)

Lemma ascii_compare_refl (a : ascii) : Ascii.compare a a = Eq.
Proof. unfold Ascii.compare. apply N.compare_refl. Qed.

Lemma ascii_compare_lt_trans (a b c : ascii) :
  Ascii.compare a b = Lt -> Ascii.compare b c = Lt -> Ascii.compare a c = Lt.
Proof.
  unfold Ascii.compare. rewrite !N.compare_lt_iff. lia.
Qed.

Lemma compare_refl (s : string) : String.compare s s = Eq.
Proof.
  induction s as [|a s IH]; simpl; [reflexivity|].
  now rewrite ascii_compare_refl.
Qed.

Lemma compare_lt_trans (s1 : string) :
  forall s2 s3, String.compare s1 s2 = Lt -> String.compare s2 s3 = Lt ->
                String.compare s1 s3 = Lt.
Proof.
  induction s1 as [|a s1 IH]; intros [|b s2] [|c s3]; simpl; try congruence.
  destruct (Ascii.compare a b) eqn:Hab; try discriminate;
    destruct (Ascii.compare b c) eqn:Hbc; try discriminate; intros H1 H2.
  - apply Ascii.compare_eq_iff in Hab, Hbc. subst.
    rewrite ascii_compare_refl. eauto.
  - apply Ascii.compare_eq_iff in Hab. subst. now rewrite Hbc.
  - apply Ascii.compare_eq_iff in Hbc. subst. now rewrite Hab.
  - now rewrite (ascii_compare_lt_trans a b c).
Qed.

Lemma ltb_irrefl (s : string) : String.ltb s s = false.
Proof. unfold String.ltb. now rewrite compare_refl. Qed.

Lemma ltb_trans (s1 s2 s3 : string) :
  String.ltb s1 s2 = true -> String.ltb s2 s3 = true -> String.ltb s1 s3 = true.
Proof.
  unfold String.ltb. intros H1 H2.
  destruct (String.compare s1 s2) eqn:E1; try discriminate.
  destruct (String.compare s2 s3) eqn:E2; try discriminate.
  now rewrite (compare_lt_trans _ _ _ E1 E2).
Qed.

Lemma ltb_asym (s1 s2 : string) :
  String.ltb s1 s2 = true -> String.ltb s2 s1 = false.
Proof.
  unfold String.ltb. rewrite (String.compare_antisym s2 s1).
  destruct (String.compare s1 s2); simpl; congruence.
Qed.

(** Two keys neither of which is below the other are the same string. *)
Lemma ltb_connex (s1 s2 : string) :
  String.ltb s1 s2 = false -> String.ltb s2 s1 = false -> s1 = s2.
Proof.
  unfold String.ltb. rewrite (String.compare_antisym s2 s1).
  destruct (String.compare s1 s2) eqn:E; simpl; try congruence.
  intros _ _. now apply String.compare_eq_iff.
Qed.

(** [¬ (c < a)], [¬ (b < c)] style chaining used for sorted lists. *)
Lemma ltb_false_trans (s1 s2 s3 : string) :
  String.ltb s2 s1 = false -> String.ltb s3 s2 = false -> String.ltb s3 s1 = false.
Proof.
  intros H1 H2. destruct (String.ltb s3 s1) eqn:E; [|reflexivity].
  destruct (String.ltb s1 s2) eqn:E12.
  - rewrite (ltb_trans _ _ _ E E12) in H2. discriminate.
  - pose proof (ltb_connex _ _ E12 H1). subst. congruence.
Qed.

End StrOrd.

(** ** The multimap *)

Module MultiMapFacts.
Import MultiMap.

Lemma insert_nil (k : string) : insert k [] = ([(k, [])], 0).
Proof. reflexivity. Qed.

Lemma insert_cons (k : string) (e : string * Arguments) (m : Map) :
  insert k (e :: m) =
    if String.ltb k (fst e) then ((k, []) :: e :: m, 0)
    else (e :: fst (insert k m), S (snd (insert k m))).
Proof. unfold insert. simpl. now destruct (String.ltb k (fst e)). Qed.

Lemma insert_position (k : string) (m : Map) :
  fst (insert k m) !! snd (insert k m) = Some (k, []).
Proof.
  induction m as [|e m IH]; [reflexivity|].
  rewrite insert_cons. now destruct (String.ltb k (fst e)).
Qed.

Lemma insert_length (k : string) (m : Map) :
  length (fst (insert k m)) = S (length m).
Proof.
  induction m as [|e m IH]; [reflexivity|].
  rewrite insert_cons.
  destruct (String.ltb k (fst e)); cbn [fst length]; [reflexivity|now rewrite IH].
Qed.

Lemma insert_Forall (P : string * Arguments -> Prop) (k : string) (m : Map) :
  P (k, []) -> Forall P m -> Forall P (fst (insert k m)).
Proof.
  intros Hk. induction 1 as [|e m He Hm IH]; [now repeat constructor|].
  rewrite insert_cons. destruct (String.ltb k (fst e)); simpl; auto.
Qed.

(** Above a key that is above [opt], nothing is stored under [opt]. *)
Lemma above_no_key (k opt : string) (m : Map) :
  String.ltb opt k = true ->
  Forall (fun e => String.ltb (fst e) k = false) m ->
  List.filter (fun e => String.eqb (fst e) opt) m = [].
Proof.
  intros Hlt. induction 1 as [|e m He Hm IH]; [reflexivity|].
  simpl in *. destruct (String.eqb_spec (fst e) opt) as [Heq|_]; [|assumption].
  rewrite Heq in He. congruence.
Qed.

Lemma not_below_above (k opt : string) :
  String.ltb k opt = false -> k <> opt -> String.ltb opt k = true.
Proof.
  intros H Hne. destruct (String.ltb opt k) eqn:E; [reflexivity|].
  exfalso. apply Hne. now apply StrOrd.ltb_connex.
Qed.

Lemma sorted_inv (e : string * Arguments) (m : Map) :
  sorted (e :: m) ->
  Forall (fun e' => String.ltb (fst e') (fst e) = false) m /\ sorted m.
Proof. now inversion 1. Qed.

(** After an entry with another key that does not lie below [opt], the
    sorted container has no entry for [opt]. *)
Lemma sorted_past_key (opt : string) (e : string * Arguments) (m : Map) :
  sorted (e :: m) -> String.ltb (fst e) opt = false -> fst e <> opt ->
  List.filter (fun e => String.eqb (fst e) opt) m = [].
Proof.
  intros [Hge _]%sorted_inv Hnb Hne.
  eapply above_no_key; [|exact Hge]. now apply not_below_above.
Qed.

Lemma sorted_insert (k : string) (m : Map) :
  sorted m -> sorted (fst (insert k m)).
Proof.
  induction 1 as [|e m Hge Hm IH]; [repeat constructor|].
  rewrite insert_cons. destruct (String.ltb k (fst e)) eqn:Hlt; simpl.
  - constructor; [|now constructor].
    constructor; [now apply StrOrd.ltb_asym|].
    eapply Forall_impl; [exact Hge|]. intros e' He'. simpl in *.
    destruct (String.ltb (fst e') k) eqn:E; [|reflexivity].
    now rewrite (StrOrd.ltb_trans _ _ _ E Hlt) in He'.
  - constructor; [|assumption]. now apply insert_Forall.
Qed.

Lemma sorted_alter (f : string * Arguments -> string * Arguments) (i : nat) (m : Map) :
  (forall e, fst (f e) = fst e) -> sorted m -> sorted (alter f i m).
Proof.
  intros Hf Hm. revert i.
  induction Hm as [|e m Hge Hm IH]; intros [|i]; simpl; try constructor; auto.
  - now rewrite Hf.
  - apply Forall_alter; [assumption|]. intros e' _ He'. now rewrite Hf.
  - apply IH.
Qed.

(** ** What [count] and [get] find in a sorted container *)

Lemma entries_of_cons (opt : string) (e : string * Arguments) (m : Map) :
  entries_of opt (e :: m) =
    if String.eqb (fst e) opt then snd e :: entries_of opt m else entries_of opt m.
Proof. unfold entries_of. simpl. now destruct (String.eqb (fst e) opt). Qed.

Lemma entries_of_app (opt : string) (m1 m2 : Map) :
  entries_of opt (m1 ++ m2) = entries_of opt m1 ++ entries_of opt m2.
Proof. unfold entries_of. now rewrite List.filter_app, map_app. Qed.

Lemma count_from_sorted (opt : string) (m : Map) :
  sorted m -> Forall (fun e => String.ltb (fst e) opt = false) m ->
  count_from m opt = length (entries_of opt m).
Proof.
  induction 1 as [|e m Hge Hm IH]; intros Hall; [reflexivity|].
  apply Forall_cons in Hall as [He Hall].
  rewrite entries_of_cons. simpl.
  destruct (String.eqb_spec (fst e) opt) as [Heq|Hne]; simpl.
  - now rewrite IH.
  - unfold entries_of.
    rewrite (sorted_past_key opt e m); auto. now constructor.
Qed.

Lemma count_sorted (opt : string) (m : Map) :
  sorted m -> count m opt = length (entries_of opt m).
Proof.
  unfold count. induction 1 as [|e m Hge Hm IH]; [reflexivity|].
  rewrite entries_of_cons. simpl.
  destruct (String.eqb (fst e) opt) eqn:Heq; [|assumption].
  simpl. rewrite Heq. f_equal.
  apply String.eqb_eq in Heq. apply count_from_sorted; [assumption|].
  now rewrite <- Heq.
Qed.

Lemma get_from_sorted (opt : string) (order : nat) :
  forall (e : string * Arguments) (m : Map),
    sorted (e :: m) -> fst e = opt ->
    get_from (e :: m) opt order = entries_of opt (e :: m) !! order.
Proof.
  induction order as [|order IH]; intros e m Hs He; rewrite entries_of_cons;
    rewrite <- He, String.eqb_refl; [reflexivity|].
  rewrite He. destruct m as [|e' m]; [reflexivity|]. cbn [get_from lookup list_lookup].
  destruct (sorted_inv _ _ Hs) as [Hge Hm].
  destruct (String.eqb (fst e') opt) eqn:Heq.
  - apply String.eqb_eq in Heq. now apply IH.
  - apply String.eqb_neq in Heq. rewrite entries_of_cons.
    apply Forall_cons in Hge as [Hge _]. rewrite He in Hge.
    apply String.eqb_neq in Heq as Heq'. rewrite Heq'. unfold entries_of.
    now rewrite (sorted_past_key opt e' m).
Qed.

Lemma get_sorted (opt : string) (order : nat) (m : Map) :
  sorted m -> get m opt order = entries_of opt m !! order.
Proof.
  unfold get. induction 1 as [|e m Hge Hm IH]; [reflexivity|].
  cbn [find]. destruct (String.eqb (fst e) opt) eqn:Heq.
  - apply String.eqb_eq in Heq. apply get_from_sorted; [now constructor|assumption].
  - now rewrite entries_of_cons, Heq.
Qed.

Lemma get_Some_key (opt : string) (order : nat) (args : Arguments) (m : Map) :
  get m opt order = Some args -> In opt (strings m).
Proof.
  unfold get. induction m as [|e m IH]; [discriminate|]. cbn [find strings map].
  destruct (String.eqb_spec (fst e) opt) as [Heq|_]; [now left|].
  intros H. right. now apply IH.
Qed.

(** With [count] and [get] read this way, the orders [0 .. count - 1]
    address the stored entries one by one. *)
Lemma omap_lookup_seq {A} (l : list A) :
  omap (fun i => l !! i) (seq 0 (length l)) = l.
Proof.
  induction l as [|x l IH] using rev_ind; [reflexivity|].
  rewrite length_app, Nat.add_comm. cbn [length Nat.add].
  rewrite seq_S, omap_app. cbn [omap list_omap Nat.add].
  rewrite lookup_app_r, Nat.sub_diag by lia. cbn.
  rewrite <- IH at 2. f_equal.
  apply list_omap_ext. apply Forall2_same_length_lookup_2; [reflexivity|].
  intros i a b Ha Hb. assert (a = b) as <- by congruence.
  apply lookup_seq in Ha as [-> Hlt]. now rewrite lookup_app_l.
Qed.

(** The number of entries under a key only depends on the keys. *)
Lemma entries_of_length (opt : string) (m : Map) :
  length (entries_of opt m) =
    length (List.filter (fun k => String.eqb k opt) (strings m)).
Proof.
  unfold entries_of, strings. rewrite length_map.
  induction m as [|e m IH]; [reflexivity|]. simpl.
  destruct (String.eqb (fst e) opt); simpl; congruence.
Qed.

Lemma strings_alter (f : string * Arguments -> string * Arguments) (i : nat) (m : Map) :
  (forall e, fst (f e) = fst e) -> strings (alter f i m) = strings m.
Proof.
  intros Hf. unfold strings. revert i.
  induction m as [|e m IH]; intros [|i]; simpl; try reflexivity.
  - now rewrite Hf.
  - f_equal. apply IH.
Qed.

Lemma entries_of_length_insert (opt k : string) (m : Map) :
  length (entries_of opt (fst (insert k m))) =
    (if String.eqb k opt then 1 else 0) + length (entries_of opt m).
Proof.
  induction m as [|e m IH].
  - rewrite insert_nil. cbn [fst]. rewrite entries_of_cons. simpl.
    now destruct (String.eqb k opt).
  - rewrite insert_cons. destruct (String.ltb k (fst e)); cbn [fst].
    + rewrite (entries_of_cons opt (k, [])). simpl.
      now destruct (String.eqb k opt).
    + rewrite !entries_of_cons.
      destruct (String.eqb (fst e) opt); cbn [length]; rewrite IH; lia.
Qed.

(** Behind the upper bound of a key nothing is stored under it. *)
Lemma entries_of_upper (opt : string) (m : Map) :
  sorted m -> entries_of opt (drop (upper_bound opt m) m) = [].
Proof.
  induction 1 as [|e m Hge Hm IH]; [reflexivity|]. cbn [upper_bound].
  destruct (String.ltb opt (fst e)) eqn:Hlt; [|exact IH].
  cbn [drop]. rewrite entries_of_cons.
  destruct (String.eqb_spec (fst e) opt) as [Heq|_].
  - rewrite Heq, StrOrd.ltb_irrefl in Hlt. discriminate.
  - unfold entries_of. now rewrite (above_no_key (fst e) opt m).
Qed.

(** The entries under [opt] when the entry that [insert] has just made for
    [k] has been given the arguments [args]. *)
Lemma entries_of_inserted (opt k : string) (args : Arguments) (m : Map) :
  sorted m ->
  entries_of opt (alter (fun e => (fst e, snd e ++ args)) (snd (insert k m))
                        (fst (insert k m))) =
    entries_of opt m ++ (if String.eqb k opt then [args] else []).
Proof.
  intros Hm. induction Hm as [|e m Hge Hm IH].
  - rewrite insert_nil. cbn [fst snd alter list_alter]. rewrite entries_of_cons. cbn.
    now destruct (String.eqb k opt).
  - rewrite insert_cons. destruct (String.ltb k (fst e)) eqn:Hlt; cbn [fst snd].
    + cbn [alter list_alter]. rewrite (entries_of_cons opt (_, _)). cbn [fst snd app].
      destruct (String.eqb_spec k opt) as [<-|_]; [|now rewrite app_nil_r].
      assert (entries_of k (e :: m) = []) as ->; [|reflexivity].
      pose proof (entries_of_upper k (e :: m) (sorted_cons _ _ Hge Hm)) as H.
      cbn [upper_bound] in H. now rewrite Hlt in H.
    + cbn [alter list_alter]. rewrite !entries_of_cons.
      change (list_alter ?f ?i ?l) with (alter f i l). rewrite IH.
      now destruct (String.eqb (fst e) opt).
Qed.

Lemma alter_same {A} (f : A -> A) (i : nat) (l : list A) :
  (forall x, f x = x) -> alter f i l = l.
Proof.
  intros Hf. revert i. induction l as [|x l IH]; intros [|i]; cbn; auto.
  - now rewrite Hf.
  - f_equal. apply IH.
Qed.

Lemma alter_twice {A} (f g : A -> A) (i : nat) (l : list A) :
  alter f i (alter g i l) = alter (fun x => f (g x)) i l.
Proof.
  revert i. induction l as [|x l IH]; intros [|i]; cbn; auto.
  f_equal. apply IH.
Qed.

Lemma alter_ext {A} (f g : A -> A) (i : nat) (l : list A) :
  (forall x, f x = g x) -> alter f i l = alter g i l.
Proof.
  intros Hfg. revert i. induction l as [|x l IH]; intros [|i]; cbn; auto.
  - now rewrite Hfg.
  - f_equal. apply IH.
Qed.

End MultiMapFacts.

(** ** class [Options] *)

Module OptsFacts.
Import MultiMap Opts MultiMapFacts.

Lemma step_classify (o : Options) (arg : string) :
  step o arg =
    match classify arg with
    | Argument => addArg arg o
    | SingleOption name => add singleDash name o
    | Separator => mkOptions None (m_args o) (m_single o) (m_double o)
    | DoubleOption name => add doubleDash name o
    end.
Proof.
  unfold step, classify.
  destruct (String.eqb arg "" || not_dash_at 0 arg || (String.length arg =? 1)%nat);
    [reflexivity|].
  destruct (not_dash_at 1 arg); [reflexivity|].
  destruct (String.length arg =? 2)%nat; [reflexivity|].
  now destruct (not_dash_at 2 arg).
Qed.

Lemma add_single (opt : string) (o : Options) :
  add singleDash opt o =
    mkOptions (Some (singleDash, snd (insert opt (m_single o)))) (m_args o)
              (fst (insert opt (m_single o))) (m_double o).
Proof. unfold add. now destruct (insert opt (m_single o)). Qed.

Lemma add_double (opt : string) (o : Options) :
  add doubleDash opt o =
    mkOptions (Some (doubleDash, snd (insert opt (m_double o)))) (m_args o)
              (m_single o) (fst (insert opt (m_double o))).
Proof. unfold add. now destruct (insert opt (m_double o)). Qed.

Lemma push_back_key (arg : string) (e : string * Arguments) :
  fst (push_back arg e) = fst e.
Proof. reflexivity. Qed.

(** *** The class invariant *)

Lemma wf_empty : wf empty.
Proof. repeat split; constructor. Qed.

Lemma wf_add (type : type_t) (opt : string) (o : Options) : wf o -> wf (add type opt o).
Proof.
  intros (Hs & Hd & Hl). destruct type; [rewrite add_single|rewrite add_double];
    unfold wf, last_valid; cbn [m_single m_double m_last];
    repeat split; auto using sorted_insert;
    eapply lookup_lt_Some, insert_position.
Qed.

Lemma wf_addArg (arg : string) (o : Options) : wf o -> wf (addArg arg o).
Proof.
  intros (Hs & Hd & Hl). unfold addArg, wf, last_valid in *.
  destruct (m_last o) as [[[|] entry]|]; cbn [m_single m_double m_last];
    repeat split; auto using sorted_alter, push_back_key;
    now rewrite length_alter.
Qed.

Lemma wf_step (o : Options) (arg : string) : wf o -> wf (step o arg).
Proof.
  intros Hwf. rewrite step_classify.
  destruct (classify arg); auto using wf_add, wf_addArg.
  destruct Hwf as (Hs & Hd & _). now repeat split.
Qed.

Lemma wf_run (tokens : list string) : forall o, wf o -> wf (run o tokens).
Proof.
  unfold run. induction tokens as [|arg tokens IH]; intros o Hwf; [assumption|].
  apply IH. now apply wf_step.
Qed.

Lemma wf_Options_ctor (argv : list string) : wf (Options_ctor argv).
Proof. apply wf_run, wf_empty. Qed.

Lemma run_app (o : Options) (tokens1 tokens2 : list string) :
  run o (tokens1 ++ tokens2) = run (run o tokens1) tokens2.
Proof. apply fold_left_app. Qed.

(** *** What [addArg] changes *)

Lemma addArg_last (arg : string) (o : Options) : m_last (addArg arg o) = m_last o.
Proof. unfold addArg. now destruct (m_last o) as [[[|] entry]|]. Qed.

Lemma addArg_strings (arg : string) (o : Options) :
  stringsSingle (addArg arg o) = stringsSingle o /\
  stringsDouble (addArg arg o) = stringsDouble o.
Proof.
  unfold addArg, stringsSingle, stringsDouble.
  destruct (m_last o) as [[[|] entry]|]; cbn [m_single m_double]; split;
    auto using strings_alter, push_back_key.
Qed.

Lemma addArg_current (arg : string) (o : Options) :
  wf o ->
  exists args, current o = Some args /\ current (addArg arg o) = Some (args ++ [arg]).
Proof.
  intros (_ & _ & Hl). unfold current, addArg, last_valid in *.
  destruct (m_last o) as [[[|] entry]|]; cbn [m_single m_double m_last m_args].
  - apply lookup_lt_is_Some in Hl as [e He]. exists (snd e).
    now rewrite list_lookup_alter, He, decide_True.
  - apply lookup_lt_is_Some in Hl as [e He]. exists (snd e).
    now rewrite list_lookup_alter, He, decide_True.
  - eauto.
Qed.

(** Without a current occurrence the token goes to the binary's arguments
    and nothing else changes. *)
Lemma addArg_top_level (arg : string) (o : Options) :
  m_last o = None ->
  addArg arg o = mkOptions None (m_args o ++ [arg]) (m_single o) (m_double o).
Proof. unfold addArg. now intros ->. Qed.

(** With a current occurrence the binary's arguments and every other
    occurrence stay as they are. *)
Lemma addArg_elsewhere (arg : string) (o : Options) (type : type_t) (entry : nat) :
  m_last o = Some (type, entry) ->
  m_args (addArg arg o) = m_args o /\
  (forall i, type <> singleDash \/ i <> entry ->
             m_single (addArg arg o) !! i = m_single o !! i) /\
  (forall i, type <> doubleDash \/ i <> entry ->
             m_double (addArg arg o) !! i = m_double o !! i).
Proof.
  unfold addArg. intros ->.
  destruct type; cbn [m_single m_double m_last m_args]; repeat split; auto.
  - intros i [?|?]; [congruence|]. now apply list_lookup_alter_ne.
  - intros i [?|?]; [congruence|]. now apply list_lookup_alter_ne.
Qed.

(** *** Tokens that are never option names *)

Lemma classify_empty : classify "" = Argument.
Proof. reflexivity. Qed.

Lemma classify_dash : classify "-" = Argument.
Proof. reflexivity. Qed.

Lemma classify_three_dashes (arg : string) :
  String.prefix "---" arg = true -> classify arg = Argument.
Proof.
  destruct arg as [|a arg]; cbn [String.prefix]; [intros [=]|].
  destruct (ascii_dec "-" a) as [<-|]; [|intros [=]].
  destruct arg as [|b arg]; cbn [String.prefix]; [intros [=]|].
  destruct (ascii_dec "-" b) as [<-|]; [|intros [=]].
  destruct arg as [|c arg]; cbn [String.prefix]; [intros [=]|].
  destruct (ascii_dec "-" c) as [<-|]; [|intros [=]].
  reflexivity.
Qed.

Lemma literal_classify (arg : string) : literal arg -> classify arg = Argument.
Proof.
  intros [->| [->|H]]; auto using classify_empty, classify_dash, classify_three_dashes.
Qed.

(** *** Lookups in a well-formed store *)

Lemma countSingle_wf (o : Options) (opt : string) :
  wf o -> countSingle o opt = length (entries_of opt (m_single o)).
Proof. intros (Hs & _). now apply count_sorted. Qed.

Lemma countDouble_wf (o : Options) (opt : string) :
  wf o -> countDouble o opt = length (entries_of opt (m_double o)).
Proof. intros (_ & Hd & _). now apply count_sorted. Qed.

Lemma getDouble_wf (o : Options) (opt : string) (order : nat) :
  wf o -> getDouble o opt order = entries_of opt (m_double o) !! order.
Proof. intros (_ & Hd & _). now apply get_sorted. Qed.

Lemma occurrences_wf (o : Options) (opt : string) :
  wf o -> occurrences o opt = entries_of opt (m_double o).
Proof.
  intros Hwf. unfold occurrences. rewrite countDouble_wf by assumption.
  rewrite <- (omap_lookup_seq (entries_of opt (m_double o))) at 2.
  apply list_omap_ext, Forall2_same_length_lookup_2; [reflexivity|].
  intros i a b Ha Hb. assert (a = b) as <- by congruence.
  now apply getDouble_wf.
Qed.

(** *** Counting occurrences *)

Lemma entries_step (opt : string) (o : Options) (arg : string) :
  length (entries_of opt (m_single (step o arg))) +
  length (entries_of opt (m_double (step o arg))) =
    (if starts opt arg then 1 else 0) +
    (length (entries_of opt (m_single o)) + length (entries_of opt (m_double o))).
Proof.
  rewrite step_classify. unfold starts. destruct (classify arg) as [|name| |name].
  - rewrite !entries_of_length.
    destruct (addArg_strings arg o) as [Hs Hd].
    unfold stringsSingle, stringsDouble in *. now rewrite Hs, Hd.
  - rewrite add_single. cbn [m_single m_double].
    rewrite entries_of_length_insert. lia.
  - reflexivity.
  - rewrite add_double. cbn [m_single m_double].
    rewrite entries_of_length_insert. lia.
Qed.

Lemma entries_run (opt : string) (tokens : list string) :
  forall o,
    length (entries_of opt (m_single (run o tokens))) +
    length (entries_of opt (m_double (run o tokens))) =
      started opt tokens +
      (length (entries_of opt (m_single o)) + length (entries_of opt (m_double o))).
Proof.
  unfold run, started.
  induction tokens as [|arg tokens IH]; intros o; [reflexivity|].
  cbn [fold_left List.filter]. rewrite IH, entries_step.
  destruct (starts opt arg); cbn [length]; lia.
Qed.

(** The two per-map counts add up to the number of occurrences started. *)
Lemma counts_started (opt : string) (argv : list string) :
  countSingle (Options_ctor argv) opt + countDouble (Options_ctor argv) opt =
    started opt (tail argv).
Proof.
  rewrite countSingle_wf, countDouble_wf by apply wf_Options_ctor.
  unfold Options_ctor. rewrite entries_run. cbn. lia.
Qed.

(** *** The store and the command line as written *)

Lemma entries_with_nil (opt : string) (o : Options) :
  entries_with opt [] o = entries_of opt (m_double o).
Proof.
  unfold entries_with. destruct (m_last o) as [[[|] entry]|]; try reflexivity.
  rewrite alter_same; [reflexivity|]. intros [k args]. cbn. now rewrite app_nil_r.
Qed.

Lemma entries_with_addArg (opt arg : string) (args : Arguments) (o : Options) :
  entries_with opt args (addArg arg o) = entries_with opt (arg :: args) o.
Proof.
  unfold entries_with, addArg.
  destruct (m_last o) as [[[|] entry]|]; cbn [m_last m_double]; try reflexivity.
  rewrite alter_twice. f_equal. apply alter_ext.
  intros [k args']. unfold push_back. cbn. now rewrite <- app_assoc.
Qed.

Lemma entries_run_written (opt : string) (tokens : list string) :
  forall o, wf o ->
    entries_of opt (m_double (run o tokens)) =
      entries_with opt (leading_args tokens) o ++ written_double opt tokens.
Proof.
  unfold run. induction tokens as [|arg tokens IH]; intros o Hwf.
  - cbn. now rewrite entries_with_nil, app_nil_r.
  - cbn [fold_left]. rewrite IH by now apply wf_step.
    cbn [leading_args written_double]. unfold is_argument.
    rewrite step_classify. destruct (classify arg) as [|name| |name].
    + now rewrite entries_with_addArg.
    + rewrite entries_with_nil, add_single. reflexivity.
    + rewrite entries_with_nil. reflexivity.
    + rewrite entries_with_nil, add_double.
      unfold entries_with. cbn [m_last m_double].
      rewrite entries_of_inserted by apply Hwf.
      destruct (String.eqb name opt); [|now rewrite app_nil_r].
      now rewrite <- app_assoc.
Qed.

(** The occurrences that [getDouble] addresses by their order are the ones
    written on the command line, in the order they are written. *)
Lemma occurrences_written (opt : string) (argv : list string) :
  occurrences (Options_ctor argv) opt = written_double opt (tail argv).
Proof.
  rewrite occurrences_wf by apply wf_Options_ctor.
  unfold Options_ctor. now rewrite entries_run_written by apply wf_empty.
Qed.

(** *** After the separator *)

Lemma run_top_level (args : list string) :
  forall o,
    m_last o = None ->
    Forall (fun arg => is_option arg = false) args ->
    run o args =
      mkOptions None (m_args o ++ List.filter is_argument args)
                (m_single o) (m_double o).
Proof.
  unfold run. induction args as [|arg args IH]; intros o Hlast Hall.
  - cbn. rewrite app_nil_r. destruct o. cbn in Hlast. now subst.
  - apply Forall_cons in Hall as [Harg Hall]. cbn [fold_left List.filter].
    rewrite step_classify. unfold is_option, is_argument in *.
    destruct (classify arg); try discriminate.
    + rewrite addArg_top_level by assumption.
      rewrite IH by (assumption || reflexivity). cbn. now rewrite <- app_assoc.
    + now rewrite IH by (assumption || reflexivity).
Qed.

Lemma filter_all {A} (f : A -> bool) (l : list A) :
  Forall (fun x => f x = true) l -> List.filter f l = l.
Proof.
  induction 1 as [|x l Hx Hl IH]; [reflexivity|]. cbn. now rewrite Hx, IH.
Qed.

End OptsFacts.

(** ** class [NutConfOptions] *)

Module NutConfFacts.
Import MultiMap Opts NutConf MultiMapFacts OptsFacts.

(** The dispatch of the loop body, as a case analysis. *)
Lemma specify_cases (P : NutConfOptions -> Prop) (o : NutConfOptions) (opt : string) :
  (opt = "autoconfigure" -> P (do_autoconfigure o)) ->
  (opt = "is-configured" -> P (do_is_configured o)) ->
  (opt = "local" -> P (do_local o)) ->
  (opt = "system" -> P (do_system o)) ->
  (opt = "mode" -> P (do_mode o)) ->
  (opt = "set-monitor" \/ opt = "add-monitor" -> P (do_monitor opt o)) ->
  (opt = "set-listen" \/ opt = "add-listen" -> P (do_listen opt o)) ->
  (opt = "set-device" \/ opt = "add-device" -> P (do_device opt o)) ->
  (is_known opt = false -> P (push_unknown ("--" ++ opt) o)) ->
  P (specify o opt).
Proof.
  intros H1 H2 H3 H4 H5 H6 H7 H8 H9. unfold specify.
  unfold is_known, known_options, existsb in H9.
  repeat match goal with
  | |- context [String.eqb ?name opt] =>
      destruct (String.eqb_spec name opt); cbn [orb] in *; auto
  end.
Qed.

Lemma unknown_names (opt : string) :
  is_known opt = false ->
  Forall (fun name => String.eqb name opt = false) known_options.
Proof.
  unfold is_known. induction known_options as [|name names IH]; [constructor|].
  cbn [existsb]. intros [H1 H2]%orb_false_elim. constructor; auto.
Qed.

(** Proof steps shared by the facts about one pass of the loop: split on
    the option, decide the comparisons between names, then split on the
    tests of the branch. *)
Ltac names_differ :=
  try match goal with H : is_known _ = false |- _ =>
        apply unknown_names in H; unfold known_options in H;
        repeat (apply Forall_cons in H as [? H]); clear H
      end;
  repeat match goal with H : String.eqb _ _ = false |- _ => rewrite ?H; clear H end.

Ltac branches :=
  repeat match goal with
  | |- context [match ?p with pair _ _ => _ end] => destruct p
  | |- context [if ?c then _ else _] => destruct c
  end.

Ltac unfold_branch :=
  unfold do_autoconfigure, do_is_configured, do_local, do_system, do_mode,
    do_monitor, do_listen, do_device, push_error, push_unknown,
    incr_monitor_cnt, incr_listen_cnt, incr_device_cnt.

Ltac by_cases :=
  apply specify_cases; intros;
  repeat match goal with H : _ \/ _ |- _ => destruct H end;
  subst; names_differ; unfold_branch;
  cbn [String.eqb Ascii.eqb Bool.eqb andb starts_with_s String.get];
  branches.

(** The loop body leaves the [Options] base alone. *)
Lemma specify_base (o : NutConfOptions) (opt : string) :
  base (specify o opt) = base o.
Proof. by_cases; reflexivity. Qed.

(** Each pass of the loop counts the option it looks at, whatever it finds
    wrong with it. *)
Lemma specify_counts (o : NutConfOptions) (opt : string) :
  set_monitor_cnt (specify o opt) = bump "set-monitor" opt + set_monitor_cnt o /\
  add_monitor_cnt (specify o opt) = bump "add-monitor" opt + add_monitor_cnt o /\
  set_listen_cnt (specify o opt) = bump "set-listen" opt + set_listen_cnt o /\
  add_listen_cnt (specify o opt) = bump "add-listen" opt + add_listen_cnt o /\
  set_device_cnt (specify o opt) = bump "set-device" opt + set_device_cnt o /\
  add_device_cnt (specify o opt) = bump "add-device" opt + add_device_cnt o.
Proof. unfold bump. by_cases; cbn; repeat split; reflexivity. Qed.

(** Errors are only ever appended. *)
Lemma specify_errors (o : NutConfOptions) (opt : string) :
  exists new, m_errors (specify o opt) = m_errors o ++ new.
Proof.
  by_cases; cbn; rewrite <- ?app_assoc; eauto using app_nil_r.
Qed.

(** The monitor values grow by six at a time, if at all. *)
Lemma specify_monitors (o : NutConfOptions) (opt : string) :
  exists args, monitors (specify o opt) = monitors o ++ args /\
               (args = [] \/ length args = 6).
Proof.
  apply specify_cases; intros;
    try (exists []; rewrite app_nil_r; split; [|now left];
         unfold_branch; branches; reflexivity).
  unfold do_monitor, incr_monitor_cnt, push_error.
  destruct (optMode (base o) opt (monitor_cnt opt o)) as [m args].
  destruct (negb (mode_t_eqb SETTER m));
    [exists []; rewrite app_nil_r; split; [|now left]; branches; reflexivity|].
  destruct (length args =? 6)%nat eqn:Hsix; cbn [negb].
  - apply Nat.eqb_eq in Hsix. exists args. split; [|now right].
    branches; reflexivity.
  - exists []. rewrite app_nil_r. split; [|now left]. branches; reflexivity.
Qed.

(** *** The two loops as a whole *)

Lemma loop_base (names : list string) :
  forall o, base (fold_left specify names o) = base o.
Proof.
  induction names as [|opt names IH]; intros o; [reflexivity|].
  cbn [fold_left]. now rewrite IH, specify_base.
Qed.

(** A counter that each pass bumps for [name] ends up having counted the
    entries under [name]. *)
Lemma loop_count (cnt : NutConfOptions -> nat) (name : string) :
  (forall o opt, cnt (specify o opt) = bump name opt + cnt o) ->
  forall names o,
    cnt (fold_left specify names o) =
      length (List.filter (fun k => String.eqb k name) names) + cnt o.
Proof.
  intros Hcnt. induction names as [|opt names IH]; intros o; [reflexivity|].
  cbn [fold_left List.filter]. rewrite IH, Hcnt. unfold bump.
  rewrite (String.eqb_sym opt name). destruct (String.eqb name opt); cbn; lia.
Qed.

Lemma loop_errors (names : list string) :
  forall o, exists new, m_errors (fold_left specify names o) = m_errors o ++ new.
Proof.
  induction names as [|opt names IH]; intros o; [exists []; now rewrite app_nil_r|].
  cbn [fold_left]. destruct (IH (specify o opt)) as [new2 ->].
  destruct (specify_errors o opt) as [new1 ->].
  exists (new1 ++ new2). now rewrite app_assoc.
Qed.

Lemma loop_monitors_length (names : list string) :
  forall o, (length (monitors o) mod 6 = 0)%nat ->
            (length (monitors (fold_left specify names o)) mod 6 = 0)%nat.
Proof.
  induction names as [|opt names IH]; intros o Ho; [assumption|].
  cbn [fold_left]. apply IH.
  destruct (specify_monitors o opt) as (args & -> & [->|Hlen]).
  - now rewrite app_nil_r.
  - rewrite length_app, Hlen.
    rewrite <- Nat.Div0.add_mod_idemp_l, Ho. reflexivity.
Qed.

(** The first loop only fills the list of unknown options. *)
Lemma reject_single_fields (o : NutConfOptions) :
  let o' := reject_single o in
  base o' = base o /\ m_errors o' = m_errors o /\ monitors o' = monitors o /\
  set_monitor_cnt o' = set_monitor_cnt o /\ add_monitor_cnt o' = add_monitor_cnt o /\
  set_listen_cnt o' = set_listen_cnt o /\ add_listen_cnt o' = add_listen_cnt o /\
  set_device_cnt o' = set_device_cnt o /\ add_device_cnt o' = add_device_cnt o /\
  mode o' = mode o.
Proof.
  unfold reject_single. generalize (stringsSingle (base o)) as names.
  intros names. revert o. induction names as [|opt names IH]; intros o.
  - now repeat split.
  - cbn [fold_left]. specialize (IH (push_unknown ("-" ++ opt) o)).
    cbn in IH. exact IH.
Qed.

Lemma specified_base (argv : list string) :
  base (specified argv) = Options_ctor argv.
Proof.
  unfold specified, specify_double. rewrite loop_base.
  now destruct (reject_single_fields (init (Options_ctor argv))) as (-> & _).
Qed.

(** The six counters hold what [countDouble] answers. *)
Lemma specified_count (cnt : NutConfOptions -> nat) (name : string) (argv : list string) :
  (forall o opt, cnt (specify o opt) = bump name opt + cnt o) ->
  cnt (reject_single (init (Options_ctor argv))) = 0 ->
  cnt (specified argv) = countDouble (Options_ctor argv) name.
Proof.
  intros Hcnt Hzero. unfold specified, specify_double.
  rewrite (loop_count cnt name Hcnt), Hzero, Nat.add_0_r.
  destruct (reject_single_fields (init (Options_ctor argv))) as (-> & _).
  cbn [base init]. rewrite countDouble_wf by apply wf_Options_ctor.
  now rewrite entries_of_length.
Qed.

Lemma specified_counts (argv : list string) :
  let o := Options_ctor argv in
  let s := specified argv in
  set_monitor_cnt s = countDouble o "set-monitor" /\
  add_monitor_cnt s = countDouble o "add-monitor" /\
  set_listen_cnt s = countDouble o "set-listen" /\
  add_listen_cnt s = countDouble o "add-listen" /\
  set_device_cnt s = countDouble o "set-device" /\
  add_device_cnt s = countDouble o "add-device".
Proof.
  cbn zeta.
  pose proof (reject_single_fields (init (Options_ctor argv))) as
    (_ & _ & _ & H1 & H2 & H3 & H4 & H5 & H6 & _).
  repeat split; apply specified_count; try assumption;
    intros o opt; apply (specify_counts o opt).
Qed.

(** *** The end of the constructor *)

Lemma is_empty_nil {A} (l : list A) : is_empty l = true <-> l = [].
Proof. destruct l; cbn; split; congruence. Qed.

Lemma both_spec (set_cnt add_cnt : nat) :
  both set_cnt add_cnt = true <-> 0 < set_cnt /\ 0 < add_cnt.
Proof. unfold both. now rewrite andb_true_iff, !Nat.ltb_lt. Qed.

(** [valid] and the error list when the constructor is done. *)
Lemma check_result (s : NutConfOptions) :
  let r := check_exclusive (check_known s) in
  let mon := both (set_monitor_cnt s) (add_monitor_cnt s) in
  let lis := both (set_listen_cnt s) (add_listen_cnt s) in
  let dev := both (set_device_cnt s) (add_device_cnt s) in
  valid r =
    is_empty (m_unknown s) && is_empty (m_errors s) && is_empty (get_args (base s))
    && negb mon && negb lis && negb dev /\
  m_errors r =
    m_errors s ++ (if mon then [monitor_exclusion_msg] else [])
               ++ (if lis then [listen_exclusion_msg] else [])
               ++ (if dev then [device_exclusion_msg] else []).
Proof.
  unfold check_exclusive, exclusive, check_known, push_error. cbn.
  destruct (both (set_monitor_cnt s) (add_monitor_cnt s)); cbn;
    destruct (both (set_listen_cnt s) (add_listen_cnt s)); cbn;
    destruct (both (set_device_cnt s) (add_device_cnt s)); cbn;
    rewrite <- ?app_assoc, ?app_nil_r, ?andb_true_r, ?andb_false_r; now split.
Qed.

Lemma check_fields (s : NutConfOptions) :
  let r := check_exclusive (check_known s) in
  base r = base s /\ m_unknown r = m_unknown s /\ monitors r = monitors s /\
  mode r = mode s /\
  set_monitor_cnt r = set_monitor_cnt s /\ add_monitor_cnt r = add_monitor_cnt s /\
  set_listen_cnt r = set_listen_cnt s /\ add_listen_cnt r = add_listen_cnt s /\
  set_device_cnt r = set_device_cnt s /\ add_device_cnt r = add_device_cnt s /\
  exists new, m_errors r = m_errors s ++ new.
Proof.
  unfold check_exclusive, exclusive, check_known, push_error. cbn.
  branches; cbn; repeat split; rewrite <- ?app_assoc; eauto using app_nil_r.
Qed.

Lemma ctor_base (argv : list string) :
  base (NutConfOptions_ctor argv) = Options_ctor argv.
Proof.
  unfold NutConfOptions_ctor.
  destruct (check_fields (specified argv)) as (-> & _). apply specified_base.
Qed.

Lemma ctor_counts (argv : list string) :
  let o := Options_ctor argv in
  let r := NutConfOptions_ctor argv in
  set_monitor_cnt r = countDouble o "set-monitor" /\
  add_monitor_cnt r = countDouble o "add-monitor" /\
  set_listen_cnt r = countDouble o "set-listen" /\
  add_listen_cnt r = countDouble o "add-listen" /\
  set_device_cnt r = countDouble o "set-device" /\
  add_device_cnt r = countDouble o "add-device".
Proof.
  cbn zeta. unfold NutConfOptions_ctor.
  destruct (check_fields (specified argv))
    as (_ & _ & _ & _ & -> & -> & -> & -> & -> & -> & _).
  apply specified_counts.
Qed.

(** *** The monitor options, occurrence by occurrence *)

(** What the monitor branch does once [optMode] has found the occurrence. *)
Lemma do_monitor_found (opt : string) (o : NutConfOptions) (args : Arguments) :
  getDouble (base o) opt (monitor_cnt opt o) = Some args ->
  do_monitor opt o =
    incr_monitor_cnt opt
      (if six args then upd_monitors (fun monitors => monitors ++ args) o
       else push_error (monitor_error opt args) o).
Proof.
  intros Hget. unfold do_monitor, optMode, six. rewrite Hget.
  destruct args as [|arg args]; [reflexivity|]. cbn [mode_t_eqb negb monitor_error].
  now destruct (length (arg :: args) =? 6)%nat.
Qed.

(** When the loop reaches an entry, the counter of its option is the
    entry's order among the entries of that option, so [optMode] returns
    this very entry. *)
Lemma entry_found (b : Options) (pre post : Map) (e : string * Arguments) :
  wf b -> m_double b = pre ++ e :: post ->
  getDouble b (fst e) (length (entries_of (fst e) pre)) = Some (snd e).
Proof.
  intros Hwf Hm. rewrite getDouble_wf, Hm by assumption.
  rewrite entries_of_app, entries_of_cons, String.eqb_refl.
  now rewrite lookup_app_r, Nat.sub_diag by lia.
Qed.

Lemma incr_monitor_cnt_fields (opt : string) (o : NutConfOptions) :
  monitors (incr_monitor_cnt opt o) = monitors o /\
  m_errors (incr_monitor_cnt opt o) = m_errors o.
Proof. unfold incr_monitor_cnt. now destruct (starts_with_s opt). Qed.

Lemma specify_entry (b : Options) (pre post : Map) (e : string * Arguments)
    (o : NutConfOptions) :
  wf b -> m_double b = pre ++ e :: post -> base o = b ->
  set_monitor_cnt o = length (entries_of "set-monitor" pre) ->
  add_monitor_cnt o = length (entries_of "add-monitor" pre) ->
  monitors (specify o (fst e)) =
    monitors o ++ (if is_monitor_opt (fst e) && six (snd e) then snd e else []) /\
  (is_monitor_opt (fst e) = true -> six (snd e) = false ->
   In (monitor_error (fst e) (snd e)) (m_errors (specify o (fst e)))).
Proof.
  intros Hwf Hm Hb Hset Hadd.
  pose proof (entry_found b pre post e Hwf Hm) as Hget.
  unfold is_monitor_opt. remember (fst e) as opt eqn:Hopt.
  apply specify_cases; intros H.
  6: {
    assert (monitor_cnt opt o = length (entries_of opt pre)) as Hcnt
      by (destruct H; subst opt; rewrite H; assumption).
    rewrite <- Hcnt, <- Hb in Hget. rewrite (do_monitor_found _ _ _ Hget).
    destruct (incr_monitor_cnt_fields opt
                (if six (snd e) then upd_monitors (fun ms => ms ++ snd e) o
                 else push_error (monitor_error opt (snd e)) o)) as [-> ->].
    assert (String.eqb "set-monitor" opt || String.eqb "add-monitor" opt = true) as ->
      by (destruct H as [-> | ->]; reflexivity).
    cbn [andb]. destruct (six (snd e)); cbn.
    - split; [reflexivity|]. intros _ [=].
    - rewrite app_nil_r. split; [reflexivity|]. intros _ _.
      apply in_or_app. right. now left.
  }
  all: repeat match goal with H : _ \/ _ |- _ => destruct H end.
  all: names_differ; try rewrite H.
  all: cbn [String.eqb Ascii.eqb Bool.eqb andb orb]; rewrite app_nil_r.
  all: split; [|intros [=]].
  all: unfold_branch; branches; reflexivity.
Qed.

Lemma loop_entries (b : Options) (post : Map) :
  forall (pre : Map) (o : NutConfOptions),
    wf b -> m_double b = pre ++ post -> base o = b ->
    set_monitor_cnt o = length (entries_of "set-monitor" pre) ->
    add_monitor_cnt o = length (entries_of "add-monitor" pre) ->
    let o' := fold_left specify (strings post) o in
    monitors o' =
      monitors o ++
      concat (List.filter six
                (map snd (List.filter (fun e => is_monitor_opt (fst e)) post))) /\
    (forall e, In e post -> is_monitor_opt (fst e) = true -> six (snd e) = false ->
               In (monitor_error (fst e) (snd e)) (m_errors o')).
Proof.
  induction post as [|e post IH]; intros pre o Hwf Hm Hb Hset Hadd; cbn zeta.
  - cbn. rewrite app_nil_r. split; [reflexivity|intros e []].
  - cbn [strings map fold_left]. fold (strings post).
    destruct (specify_entry b pre post e o Hwf Hm Hb Hset Hadd) as [Hmon Herr].
    destruct (specify_counts o (fst e)) as (Hs & Ha & _).
    destruct (IH (pre ++ [e]) (specify o (fst e))) as [IHmon IHerr]; auto.
    + now rewrite <- app_assoc.
    + now rewrite specify_base.
    + rewrite Hs, Hset, entries_of_app, length_app, entries_of_cons. unfold bump.
      rewrite (String.eqb_sym (fst e)).
      destruct (String.eqb "set-monitor" (fst e)); cbn; lia.
    + rewrite Ha, Hadd, entries_of_app, length_app, entries_of_cons. unfold bump.
      rewrite (String.eqb_sym (fst e)).
      destruct (String.eqb "add-monitor" (fst e)); cbn; lia.
    + split.
      * rewrite IHmon, Hmon, <- app_assoc. f_equal. cbn [List.filter].
        destruct (is_monitor_opt (fst e)); cbn [andb map List.filter]; [|reflexivity].
        destruct (six (snd e)); reflexivity.
      * intros e' [<-|Hin] Hopt Hsix; [|now apply IHerr].
        destruct (loop_errors (strings post) (specify o (fst e))) as [new ->].
        apply in_or_app. left. now apply Herr.
Qed.

(** In a sorted container the entries of a smaller key come before those
    of a larger one. *)
Lemma filter_two_keys (k1 k2 : string) (m : Map) :
  sorted m -> String.ltb k1 k2 = true ->
  List.filter (fun e => String.eqb k2 (fst e) || String.eqb k1 (fst e)) m =
    List.filter (fun e => String.eqb (fst e) k1) m ++
    List.filter (fun e => String.eqb (fst e) k2) m.
Proof.
  intros Hm Hlt. induction Hm as [|e m Hge Hm IH]; [reflexivity|].
  cbn [List.filter]. rewrite (String.eqb_sym k2), (String.eqb_sym k1).
  destruct (String.eqb_spec (fst e) k1) as [H1|H1].
  - rewrite orb_true_r, IH.
    destruct (String.eqb_spec (fst e) k2) as [H2|H2]; [|reflexivity].
    rewrite <- H1, <- H2, StrOrd.ltb_irrefl in Hlt. discriminate.
  - rewrite orb_false_r.
    destruct (String.eqb_spec (fst e) k2) as [H2|H2]; [|assumption].
    rewrite IH. rewrite (above_no_key (fst e) k1 m); [reflexivity| |assumption].
    now rewrite H2.
Qed.

(** The monitor values and errors of the finished object, in terms of the
    stored entries. *)
Lemma ctor_monitors (argv : list string) :
  let m := m_double (Options_ctor argv) in
  let r := NutConfOptions_ctor argv in
  monitors r =
    concat (List.filter six (entries_of "add-monitor" m)) ++
    concat (List.filter six (entries_of "set-monitor" m)) /\
  (forall e, In e m -> is_monitor_opt (fst e) = true -> six (snd e) = false ->
             In (monitor_error (fst e) (snd e)) (m_errors r)).
Proof.
  cbn zeta. unfold NutConfOptions_ctor.
  destruct (check_fields (specified argv)) as (_ & _ & -> & _ & _ & _ & _ & _ & _ & _ & new & ->).
  unfold specified, specify_double.
  pose proof (wf_Options_ctor argv) as Hwf.
  destruct (reject_single_fields (init (Options_ctor argv)))
    as (Hb & _ & Hmon & Hset & Hadd & _).
  rewrite Hb. cbn [base init] in *. unfold stringsDouble.
  destruct (loop_entries (Options_ctor argv) (m_double (Options_ctor argv)) []
              (reject_single (init (Options_ctor argv))) Hwf eq_refl Hb Hset Hadd)
    as [-> Herr].
  split.
  - rewrite Hmon. cbn [monitors init app]. unfold is_monitor_opt, entries_of.
    rewrite filter_two_keys by (reflexivity || apply Hwf).
    now rewrite map_app, List.filter_app, concat_app.
  - intros e Hin Hopt Hsix. apply in_or_app. left. now apply Herr.
Qed.

Lemma concat_six (l : list Arguments) :
  length (concat (List.filter six l)) = 6 * length (List.filter six l).
Proof.
  induction l as [|args l IH]; [reflexivity|]. cbn [List.filter].
  destruct (six args) eqn:Hsix; [|assumption].
  apply Nat.eqb_eq in Hsix. cbn [concat length]. rewrite length_app, IH, Hsix. lia.
Qed.

Lemma monitor_occurrences_flattened_length (argv : list string) :
  let o := Options_ctor argv in
  let r := NutConfOptions_ctor argv in
  length (monitors r) =
    6 * (length (List.filter six (occurrences o "add-monitor")) +
         length (List.filter six (occurrences o "set-monitor"))) /\
  (length (monitors r) mod 6 = 0)%nat.
Proof.
  cbn zeta. destruct (ctor_monitors argv) as [Hmon _]. cbn zeta in Hmon.
  rewrite !occurrences_wf by apply wf_Options_ctor.
  rewrite Hmon, length_app, !concat_six. split; [lia|].
  rewrite <- Nat.mul_add_distr_l, Nat.mul_comm. apply Nat.Div0.mod_mul.
Qed.

(** *** [getMonitor] *)

Lemma getMonitor_range (o : NutConfOptions) (which : nat) :
  length (monitors o) / 6 <= which ->
  getMonitor o which = RangeError "INTERNAL ERROR: monitors index overflow".
Proof.
  intros H. unfold getMonitor. apply Nat.leb_le in H. now rewrite H.
Qed.

Lemma getMonitor_fields (o : NutConfOptions) (which : nat) :
  which < length (monitors o) / 6 ->
  exists ups host_port pwr_val user passwd mode,
    getMonitor o which = Fields ups host_port pwr_val user passwd mode /\
    monitors o !! (6 * which) = Some ups /\
    monitors o !! (6 * which + 1) = Some host_port /\
    monitors o !! (6 * which + 2) = Some pwr_val /\
    monitors o !! (6 * which + 3) = Some user /\
    monitors o !! (6 * which + 4) = Some passwd /\
    monitors o !! (6 * which + 5) = Some mode.
Proof.
  intros H. unfold getMonitor.
  assert (6 * which + 5 < length (monitors o)) as Hlen.
  { pose proof (Nat.Div0.mul_div_le (length (monitors o)) 6). lia. }
  destruct (Nat.leb_spec (length (monitors o) / 6) which) as [Hle|_]; [lia|].
  destruct (lookup_lt_is_Some_2 (monitors o) (6 * which)) as [x0 H0]; [lia|].
  destruct (lookup_lt_is_Some_2 (monitors o) (6 * which + 1)) as [x1 H1]; [lia|].
  destruct (lookup_lt_is_Some_2 (monitors o) (6 * which + 2)) as [x2 H2]; [lia|].
  destruct (lookup_lt_is_Some_2 (monitors o) (6 * which + 3)) as [x3 H3]; [lia|].
  destruct (lookup_lt_is_Some_2 (monitors o) (6 * which + 4)) as [x4 H4]; [lia|].
  destruct (lookup_lt_is_Some_2 (monitors o) (6 * which + 5)) as [x5 H5]; [lia|].
  rewrite H0, H1, H2, H3, H4, H5. exists x0, x1, x2, x3, x4, x5. now repeat split.
Qed.

(** *** A lone --mode option *)

Lemma mode_store (bin x : string) :
  classify x = Argument ->
  Options_ctor [bin; "--mode"; x] =
    mkOptions (Some (doubleDash, 0)) [] [] [("mode", [x])].
Proof.
  intros Hx. unfold Options_ctor, run. cbn [tail fold_left].
  rewrite (step_classify _ x), Hx. reflexivity.
Qed.

Lemma mode_specified (bin x : string) :
  classify x = Argument ->
  let o := init (mkOptions (Some (doubleDash, 0)) [] [] [("mode", [x])]) in
  specified [bin; "--mode"; x] =
    if checkMode x then upd_mode (fun _ => x) o
    else push_error (unknown_mode x) o.
Proof.
  intros Hx. cbn zeta. unfold specified. rewrite (mode_store bin x Hx).
  set (o := init (mkOptions (Some (doubleDash, 0)) [] [] [("mode", [x])])).
  change (specify_double (reject_single o)) with (do_mode o).
  unfold do_mode.
  change (optMode (base o) "mode" 0) with (SETTER, [x]).
  change (mode o) with "". cbn [String.eqb negb mode_t_eqb length Nat.ltb Nat.leb
                                 Nat.eqb andb front hd].
  now destruct (checkMode x).
Qed.

(** *** The --mode option among other options *)

Lemma specify_mode_other (o : NutConfOptions) (opt : string) :
  opt <> "mode" -> mode (specify o opt) = mode o.
Proof. intros Hne. by_cases; try reflexivity; congruence. Qed.

(** Every pass for --mode looks at the first occurrence. *)
Lemma do_mode_first (o : NutConfOptions) (x : string) :
  getDouble (base o) "mode" 0 = Some [x] ->
  specify o "mode" =
    if negb (String.eqb (mode o) "") then
      push_error "--mode option specified more than once" o
    else if checkMode x then upd_mode (fun _ => x) o
    else push_error (unknown_mode x) o.
Proof.
  intros Hget. change (specify o "mode") with (do_mode o).
  unfold do_mode, optMode. rewrite Hget.
  cbn [mode_t_eqb negb length Nat.ltb Nat.leb Nat.eqb andb front hd].
  destruct (negb (String.eqb (mode o) "")); [reflexivity|].
  now destruct (checkMode x).
Qed.

Lemma checkMode_nonempty (x : string) : checkMode x = true -> x <> "".
Proof. now intros H ->. Qed.

Lemma loop_mode (b : Options) (x : string) (names : list string) :
  getDouble b "mode" 0 = Some [x] ->
  forall o, base o = b ->
    let o' := fold_left specify names o in
    (mode o = "" -> checkMode x = false ->
     mode o' = "" /\ (In "mode" names -> In (unknown_mode x) (m_errors o'))) /\
    (mode o = "" -> checkMode x = true -> In "mode" names -> mode o' = x) /\
    (mode o = x -> checkMode x = true -> mode o' = x).
Proof.
  intros Hget. induction names as [|opt names IH]; intros o Hb; cbn zeta.
  - cbn. repeat split; auto; intros; contradiction.
  - cbn [fold_left].
    destruct (IH (specify o opt)) as (IH1 & IH2 & IH3); [now rewrite specify_base|].
    cbn zeta in IH1, IH2, IH3.
    destruct (String.eqb_spec opt "mode") as [->|Hne].
    + rewrite <- Hb in Hget. rewrite (do_mode_first o x Hget) in *.
      split; [|split].
      * intros Hm Hc. rewrite Hm, Hc in IH1. cbn [String.eqb negb] in IH1.
        destruct (IH1 Hm eq_refl) as [Hmode _]. rewrite Hm, Hc.
        cbn [String.eqb negb]. split; [exact Hmode|]. intros _.
        destruct (loop_errors names (push_error (unknown_mode x) o)) as [new ->].
        unfold push_error. cbn [m_errors upd_m_errors].
        rewrite !in_app_iff. cbn. auto.
      * intros Hm Hc _. rewrite Hm, Hc in *. cbn [String.eqb negb] in *.
        now apply IH3.
      * intros Hm Hc. pose proof (checkMode_nonempty x Hc) as Hx.
        apply String.eqb_neq in Hx. rewrite Hm, Hx in *. cbn [negb] in *.
        apply IH3; [exact Hm|exact Hc].
    + rewrite <- (specify_mode_other o opt Hne). split; [|split].
      * intros Hm Hc. destruct (IH1 Hm Hc) as [Hmode Herr].
        split; [exact Hmode|]. intros [Heq|Hin]; [congruence|auto].
      * intros Hm Hc [Heq|Hin]; [congruence|]. now apply IH2.
      * intros Hm Hc. now apply IH3.
Qed.

Lemma ctor_mode (argv : list string) (x : string) :
  getDouble (Options_ctor argv) "mode" 0 = Some [x] ->
  let r := NutConfOptions_ctor argv in
  (checkMode x = false ->
   valid r = false /\ mode r = "" /\ In (unknown_mode x) (m_errors r)) /\
  (checkMode x = true -> mode r = x).
Proof.
  intros Hget. cbn zeta. unfold NutConfOptions_ctor.
  destruct (check_fields (specified argv))
    as (_ & _ & _ & -> & _ & _ & _ & _ & _ & _ & new & Hnew).
  destruct (check_result (specified argv)) as [-> _].
  unfold specified, specify_double in *.
  destruct (reject_single_fields (init (Options_ctor argv)))
    as (Hb & _ & _ & _ & _ & _ & _ & _ & _ & Hm).
  cbn zeta in Hb, Hm. cbn [base mode init] in Hb, Hm. rewrite Hb in *.
  destruct (loop_mode (Options_ctor argv) x (stringsDouble (Options_ctor argv)) Hget
              (reject_single (init (Options_ctor argv))) Hb) as (H1 & H2 & _).
  cbn zeta in H1, H2.
  assert (In "mode" (stringsDouble (Options_ctor argv))) as Hin
    by (eapply get_Some_key; exact Hget).
  split.
  - intros Hc. destruct (H1 Hm Hc) as [Hmode Herr]. specialize (Herr Hin).
    split; [|split; [assumption|]].
    + remember (fold_left specify _ _) as s eqn:Hs. clear Hs.
      destruct (m_errors s); [destruct Herr|].
      cbn [is_empty]. now rewrite andb_false_r.
    + rewrite Hnew. apply in_or_app. now left.
  - intros Hc. now apply H2.
Qed.

Lemma checkMode_In (mode : string) :
  checkMode mode = true <->
  In mode ["standalone"; "netserver"; "netclient"; "controlled"; "manual"; "none"].
Proof.
  unfold checkMode. cbn [In].
  repeat match goal with
  | |- context [String.eqb ?name mode] => destruct (String.eqb_spec name mode)
  end; intuition (discriminate || auto).
Qed.

End NutConfFacts.

(** ** Records for the configuration files *)

Module MergeFacts.
Import MultiMap Opts NutConf Stream Merge.

(** *** Upsert by device id *)

Lemma upsert_lookup (f : Section -> Section) (ups : string) (sections : gmap string Section) :
  upsert f ups sections !! ups = Some (f (default new_section (sections !! ups))).
Proof. unfold upsert. apply lookup_insert_eq. Qed.

Lemma upsert_lookup_ne (f : Section -> Section) (ups other : string)
    (sections : gmap string Section) :
  ups <> other -> upsert f ups sections !! other = sections !! other.
Proof. intros Hne. unfold upsert. now apply lookup_insert_ne. Qed.

Lemma upsert_upsert (f g : Section -> Section) (ups : string) (sections : gmap string Section) :
  upsert f ups (upsert g ups sections) =
    upsert (fun s => f (g s)) ups sections.
Proof.
  unfold upsert at 1. rewrite upsert_lookup. unfold upsert.
  now rewrite insert_insert_eq.
Qed.

Lemma add_device_upsert (sections : gmap string Section) (dev : DeviceSpec) :
  add_device sections dev = upsert (written dev) (id dev) sections.
Proof.
  unfold add_device, setDescription, setPort, setDriver, written.
  destruct (String.eqb (desc dev) ""); cbn [negb]; now rewrite !upsert_upsert.
Qed.

Lemma written_twice (dev : DeviceSpec) (s : Section) :
  written dev (written dev s) = written dev s.
Proof. unfold written. cbn. now destruct (String.eqb (desc dev) ""). Qed.

Lemma add_device_twice (sections : gmap string Section) (dev : DeviceSpec) :
  add_device (add_device sections dev) dev = add_device sections dev.
Proof.
  rewrite !add_device_upsert, upsert_upsert. unfold upsert.
  now rewrite written_twice.
Qed.

Lemma setDevices_keep (devices : list DeviceSpec) (ups_conf : gmap string Section) :
  setDevices devices true ups_conf = Returns (fold_left add_device devices ups_conf).
Proof. reflexivity. Qed.

(** What keeping the existing entries and merging one record comes to:
    the record's section has the fields written, every other section is
    as it was. *)
Lemma setDevices_keep_one (dev : DeviceSpec) (ups_conf : gmap string Section) :
  exists merged,
    setDevices [dev] true ups_conf = Returns merged /\
    merged !! id dev =
      Some (written dev (default new_section (ups_conf !! id dev))) /\
    (forall ups, ups <> id dev -> merged !! ups = ups_conf !! ups).
Proof.
  exists (add_device ups_conf dev). split; [reflexivity|].
  rewrite add_device_upsert. split; [apply upsert_lookup|].
  intros ups Hne. now apply upsert_lookup_ne.
Qed.

(** *** The removal loop *)

Lemma remove_existing_named (names : list string) (sections : gmap string Section) :
  (exists ups, In ups names /\ ups <> "") ->
  remove_existing names sections = Undefined.
Proof.
  intros (ups & Hin & Hne). induction names as [|name names IH]; [destruct Hin|].
  cbn. destruct (String.eqb_spec name "") as [->|_]; [|reflexivity].
  destruct Hin as [<-|Hin]; [congruence|auto].
Qed.

Lemma remove_existing_global (names : list string) (sections : gmap string Section) :
  Forall (fun ups => ups = "") names ->
  remove_existing names sections = Returns sections.
Proof. induction 1 as [|ups names -> _ IH]; [reflexivity|exact IH]. Qed.

Lemma section_names_dom (sections : gmap string Section) (ups : string) :
  In ups (section_names sections) <-> is_Some (sections !! ups).
Proof.
  unfold section_names. rewrite <- list_elem_of_In.
  rewrite (merge_sort_Permutation key_le (elements (dom sections))).
  now rewrite elem_of_elements, elem_of_dom.
Qed.

(** As soon as the file has one device section, discarding the existing
    entries runs into the undefined step. *)
Lemma setDevices_discard_named (devices : list DeviceSpec) (ups_conf : gmap string Section)
    (ups : string) :
  ups <> "" -> is_Some (ups_conf !! ups) ->
  setDevices devices false ups_conf = Undefined.
Proof.
  intros Hne Hsome. unfold setDevices. cbn [negb].
  rewrite remove_existing_named; [reflexivity|].
  exists ups. split; [|assumption]. now apply section_names_dom.
Qed.

(** *** [monitor] *)

Lemma rfind_no_colon (s : string) :
  has_colon s = false -> rfind ":"%char s = None.
Proof.
  induction s as [|a s IH]; [reflexivity|]. cbn.
  intros [Ha Hs]%orb_false_elim. now rewrite IH, Ha.
Qed.

Lemma append_nil (s : string) : ("" ++ s)%string = s.
Proof. reflexivity. Qed.

Lemma append_cons (a : ascii) (s t : string) :
  (String a s ++ t)%string = String a (s ++ t)%string.
Proof. reflexivity. Qed.

(** The last colon is the one that nothing but colon-free text follows. *)
Lemma rfind_last_colon (host rest : string) :
  has_colon rest = false ->
  rfind ":"%char (host ++ ":" ++ rest)%string = Some (String.length host).
Proof.
  intros Hrest. induction host as [|a host IH].
  - rewrite append_nil, append_cons, append_nil. cbn.
    now rewrite rfind_no_colon.
  - rewrite append_cons. cbn. now rewrite IH.
Qed.

Lemma substring_all (s : string) : String.substring 0 (String.length s) s = s.
Proof. induction s as [|a s IH]; cbn; congruence. Qed.

Lemma substr_from_after (host rest : string) :
  substr_from (String.length host + 1) (host ++ ":" ++ rest)%string = rest.
Proof.
  unfold substr_from. induction host as [|a host IH].
  - rewrite append_nil, append_cons, append_nil. cbn.
    rewrite Nat.sub_0_r. apply substring_all.
  - rewrite append_cons. cbn. exact IH.
Qed.

Lemma substr_to_before (host rest : string) :
  String.substring 0 (String.length host) (host ++ ":" ++ rest)%string = host.
Proof.
  induction host as [|a host IH]; [|rewrite append_cons; cbn; now rewrite IH].
  rewrite append_nil, append_cons. reflexivity.
Qed.

End MergeFacts.

(** * The properties of the specification *)

Import MultiMap Opts NutConf Stream Merge.
Import MultiMapFacts OptsFacts NutConfFacts MergeFacts.

(** C1.  After validation, [valid] holds exactly when there is no unknown
    option, no error, no argument of the binary itself and, for each of the
    monitor, listen and device families, not both the set- and the add-
    option.  This is so with the errors of the per-option pass as well as
    with the final error list.  When a family has both options, its
    mutual-exclusion error is in the final error list and [valid] is false.
    The six counters are the occurrence counts of their options. *)
Theorem valid_iff_nothing_wrong (argv : list string) :
  let s := specified argv in
  let r := NutConfOptions_ctor argv in
  let exclusive_ok :=
    ~ (0 < set_monitor_cnt r /\ 0 < add_monitor_cnt r) /\
    ~ (0 < set_listen_cnt r /\ 0 < add_listen_cnt r) /\
    ~ (0 < set_device_cnt r /\ 0 < add_device_cnt r) in
  (valid r = true <->
     m_unknown r = [] /\ m_errors s = [] /\ get_args (base r) = [] /\ exclusive_ok) /\
  (valid r = true <->
     m_unknown r = [] /\ m_errors r = [] /\ get_args (base r) = [] /\ exclusive_ok) /\
  (0 < set_monitor_cnt r /\ 0 < add_monitor_cnt r ->
     In monitor_exclusion_msg (m_errors r) /\ valid r = false) /\
  (0 < set_listen_cnt r /\ 0 < add_listen_cnt r ->
     In listen_exclusion_msg (m_errors r) /\ valid r = false) /\
  (0 < set_device_cnt r /\ 0 < add_device_cnt r ->
     In device_exclusion_msg (m_errors r) /\ valid r = false) /\
  set_monitor_cnt r = countDouble (base r) "set-monitor" /\
  add_monitor_cnt r = countDouble (base r) "add-monitor" /\
  set_listen_cnt r = countDouble (base r) "set-listen" /\
  add_listen_cnt r = countDouble (base r) "add-listen" /\
  set_device_cnt r = countDouble (base r) "set-device" /\
  add_device_cnt r = countDouble (base r) "add-device".
Proof.
  cbn zeta.
  pose proof (specified_counts argv) as Hcounts. cbn zeta in Hcounts.
  rewrite <- (specified_base argv) in Hcounts.
  unfold NutConfOptions_ctor. revert Hcounts.
  generalize (specified argv) as s. intros s Hcounts.
  destruct (check_fields s) as (Hb & Hu & _ & _ & H1 & H2 & H3 & H4 & H5 & H6 & _).
  destruct (check_result s) as [Hvalid Herrors].
  cbn zeta in *. rewrite Hb, Hu, H1, H2, H3, H4, H5, H6, Hvalid, Herrors.
  rewrite <- !both_spec.
  refine (conj _ (conj _ (conj _ (conj _ (conj _ Hcounts))))); clear;
    destruct (both (set_monitor_cnt s) (add_monitor_cnt s)),
      (both (set_listen_cnt s) (add_listen_cnt s)),
      (both (set_device_cnt s) (add_device_cnt s));
    rewrite ?andb_true_r, ?andb_false_r, ?app_nil_r, ?in_app_iff,
      ?andb_true_iff, ?is_empty_nil; cbn;
    intuition (discriminate || auto);
    try (destruct (m_errors s); discriminate).
Qed.

Lemma valid_iff_nothing_wrong_witness :
  let r := NutConfOptions_ctor
             ["nutconf"; "--set-monitor"; "a"; "b"; "c";
              "--add-monitor"; "x"; "y"; "z"; "p"; "q"; "r"] in
  (0 < set_monitor_cnt r /\ 0 < add_monitor_cnt r) /\
  In monitor_exclusion_msg (m_errors r) /\ valid r = false.
Proof.
  pose proof (valid_iff_nothing_wrong
                ["nutconf"; "--set-monitor"; "a"; "b"; "c";
                 "--add-monitor"; "x"; "y"; "z"; "p"; "q"; "r"]) as H.
  cbv zeta in H. destruct H as (_ & _ & H & _).
  assert (let r := NutConfOptions_ctor
                     ["nutconf"; "--set-monitor"; "a"; "b"; "c";
                      "--add-monitor"; "x"; "y"; "z"; "p"; "q"; "r"] in
          0 < set_monitor_cnt r /\ 0 < add_monitor_cnt r) as Hboth
    by (vm_compute; lia).
  exact (conj Hboth (H Hboth)).
Defined.

(** C2.  The two per-map counts add up to the number of occurrences of the
    option that were started, however the options are interleaved; the
    combined [count], whose return type is [bool], gives 1 for any number of
    occurrences above zero.  With the option given twice the occurrences
    are 2 and [count] answers 1. *)
Theorem count_saturates_at_one (argv : list string) (opt : string) :
  let o := Options_ctor argv in
  countSingle o opt + countDouble o opt = started opt (tail argv) /\
  bool_to_size (count o opt) = Nat.min 1 (started opt (tail argv)) /\
  started "a" ["--a"; "--a"] = 2 /\
  bool_to_size (count (Options_ctor ["nutconf"; "--a"; "--a"]) "a") = 1.
Proof.
  cbn zeta. pose proof (counts_started opt argv) as H.
  repeat split; try assumption; try reflexivity.
  unfold count. rewrite H. now destruct (started opt (tail argv)).
Qed.

(** C3.  Existing sections: the global one, A and B; one new record for A.
    Keeping the existing entries, A gets the new driver and port, B and the
    global section stay as they are and no section is added.  Discarding
    them, the removal loop erases the element its iterator stands on and
    then steps that iterator: the run is undefined from the first device
    section on, where the comments of the loop ask for the global section
    and the updated A. *)
Theorem device_merge_keep_and_discard :
  let g := mkSection None None None [("maxretry", "3")] in
  let a := mkSection (Some "d1") (Some "p1") (Some "first") [] in
  let b := mkSection (Some "d3") (Some "p3") None [] in
  let existing : gmap string Section := <["" := g]> (<["A" := a]> (<["B" := b]> ∅)) in
  let dev := mkDeviceSpec "A" "d2" "p2" "" in
  let a' := mkSection (Some "d2") (Some "p2") (Some "first") [] in
  setDevices [dev] true existing =
    Returns (<["" := g]> (<["A" := a']> (<["B" := b]> ∅))) /\
  setDevices [dev] false existing = Undefined /\
  Returns (add_device (only_global existing) dev) =
    Returns (<["" := g]> (<["A" := mkSection (Some "d2") (Some "p2") None []]> ∅)) /\
  setDevices [dev] false existing <> Returns (add_device (only_global existing) dev).
Proof.
  cbn zeta. repeat split; try (vm_compute; reflexivity).
  vm_compute. discriminate.
Qed.

(** C9.  Merging one device record twice while keeping the existing entries
    gives the configuration that merging it once gives. *)
Theorem device_upsert_idempotent (dev : DeviceSpec) (ups_conf : gmap string Section) :
  exists once,
    setDevices [dev] true ups_conf = Returns once /\
    setDevices [dev] true once = Returns once /\
    setDevices [dev; dev] true ups_conf = Returns once.
Proof.
  exists (add_device ups_conf dev). rewrite !setDevices_keep. cbn [fold_left].
  now rewrite add_device_twice.
Qed.

(** C7.  A token that is empty, a lone dash or starts with three dashes is
    never taken for an option name, wherever it stands: no occurrence is
    started and the current occurrence stays the same; the token is
    appended to the argument list of the current occurrence, or to the
    binary's own arguments when there is none, and nothing else changes. *)
Theorem literal_token_extends_current (bin : string) (tokens : list string) (arg : string) :
  literal arg ->
  let o := Options_ctor (bin :: tokens) in
  let o' := Options_ctor (bin :: tokens ++ [arg]) in
  is_option arg = false /\
  o' = addArg arg o /\
  stringsSingle o' = stringsSingle o /\ stringsDouble o' = stringsDouble o /\
  m_last o' = m_last o /\
  (exists args, current o = Some args /\ current o' = Some (args ++ [arg])) /\
  (m_last o = None ->
   m_args o' = m_args o ++ [arg] /\ m_single o' = m_single o /\ m_double o' = m_double o) /\
  (forall type entry, m_last o = Some (type, entry) ->
   m_args o' = m_args o /\
   (forall i, type <> singleDash \/ i <> entry -> m_single o' !! i = m_single o !! i) /\
   (forall i, type <> doubleDash \/ i <> entry -> m_double o' !! i = m_double o !! i)).
Proof.
  intros Hlit%literal_classify. cbn zeta.
  assert (Options_ctor (bin :: tokens ++ [arg]) = addArg arg (Options_ctor (bin :: tokens)))
    as -> by (unfold Options_ctor; cbn [tail]; rewrite run_app; cbn;
              now rewrite step_classify, Hlit).
  pose proof (wf_Options_ctor (bin :: tokens)) as Hwf.
  split; [unfold is_option; now rewrite Hlit|].
  split; [reflexivity|].
  destruct (addArg_strings arg (Options_ctor (bin :: tokens))) as [-> ->].
  rewrite addArg_last. repeat split; auto using addArg_current.
  - rewrite addArg_top_level by assumption. reflexivity.
  - rewrite addArg_top_level by assumption. reflexivity.
  - rewrite addArg_top_level by assumption. reflexivity.
  - eapply addArg_elsewhere; eassumption.
  - eapply addArg_elsewhere; eassumption.
  - eapply addArg_elsewhere; eassumption.
Qed.

Lemma literal_token_extends_current_witness :
  literal "---x" /\
  current (Options_ctor ["nutconf"; "--set-monitor"; "a"; "---x"]) = Some ["a"; "---x"].
Proof.
  assert (literal "---x") as Hlit by (right; right; reflexivity).
  split; [exact Hlit|].
  destruct (literal_token_extends_current "nutconf" ["--set-monitor"; "a"] "---x" Hlit)
    as (_ & _ & _ & _ & _ & (args & Hcur & Hcur') & _).
  vm_compute in Hcur. injection Hcur as <-. exact Hcur'.
Defined.

(** C8.  A bare double dash drops the current occurrence: of the tokens
    that follow it up to the next option, every argument goes to the
    binary's own arguments, in order (further double dashes are markers
    and go nowhere), and the occurrences stored so far, the one in front
    of the double dash among them, stay as they were. *)
Theorem separator_resets_current (bin : string) (tokens args : list string) :
  Forall (fun arg => is_option arg = false) args ->
  let o := Options_ctor (bin :: tokens) in
  let o' := Options_ctor (bin :: tokens ++ "--" :: args) in
  m_args o' = m_args o ++ List.filter is_argument args /\
  m_single o' = m_single o /\ m_double o' = m_double o /\ m_last o' = None /\
  (Forall (fun arg => is_argument arg = true) args -> m_args o' = m_args o ++ args).
Proof.
  intros Hargs. cbn zeta. unfold Options_ctor. cbn [tail].
  rewrite run_app. set (o := run Opts.empty tokens).
  change (run o ("--" :: args))
    with (run (mkOptions None (m_args o) (m_single o) (m_double o)) args).
  rewrite run_top_level by (reflexivity || assumption).
  cbn [m_args m_single m_double m_last]. repeat split.
  intros Hall. now rewrite filter_all.
Qed.

Lemma separator_resets_current_witness :
  Forall (fun arg => is_option arg = false) ["x"; "-"; "y"] /\
  let o' := Options_ctor ["nutconf"; "--local"; "dir"; "--"; "x"; "-"; "y"] in
  m_args o' = ["x"; "-"; "y"] /\ m_double o' = [("local", ["dir"])].
Proof.
  assert (Forall (fun arg => is_option arg = false) ["x"; "-"; "y"]) as Hargs
    by (repeat constructor).
  split; [exact Hargs|].
  destruct (separator_resets_current "nutconf" ["--local"; "dir"] ["x"; "-"; "y"] Hargs)
    as (Ha & _ & Hd & _).
  split; [exact Ha|exact Hd].
Defined.

(** C4.  The monitor values are the arguments of the occurrences of
    add-monitor and then of set-monitor that have exactly six arguments,
    each group in the order of the occurrences and each occurrence with
    its arguments in order; [getDouble] addresses these occurrences by
    their order within the option, which is the order in which they are
    written on the command line.  An occurrence without arguments or
    with another number of them leaves its error in the error list, and
    the occurrences after it are still processed; the two counters count
    all occurrences.  With set-monitor given twice with six arguments
    each, the two records come out in the order of the command line. *)
Theorem monitor_occurrences_flattened (argv : list string) :
  let o := Options_ctor argv in
  let r := NutConfOptions_ctor argv in
  monitors r =
    concat (List.filter six (occurrences o "add-monitor")) ++
    concat (List.filter six (occurrences o "set-monitor")) /\
  (forall opt order, getDouble o opt order = occurrences o opt !! order) /\
  (forall opt, occurrences o opt = written_double opt (tail argv)) /\
  (forall opt order args,
     is_monitor_opt opt = true -> getDouble o opt order = Some args ->
     six args = false -> In (monitor_error opt args) (m_errors r)) /\
  set_monitor_cnt r = length (occurrences o "set-monitor") /\
  add_monitor_cnt r = length (occurrences o "add-monitor") /\
  let r2 := NutConfOptions_ctor
              ["nutconf"; "--set-monitor"; "a"; "b"; "c"; "d"; "e"; "f";
               "--set-monitor"; "g"; "h"; "i"; "j"; "k"; "l"] in
  monitors r2 = ["a"; "b"; "c"; "d"; "e"; "f"; "g"; "h"; "i"; "j"; "k"; "l"] /\
  getMonitor r2 0 = Fields "a" "b" "c" "d" "e" "f" /\
  getMonitor r2 1 = Fields "g" "h" "i" "j" "k" "l" /\
  getMonitor r2 2 = RangeError "INTERNAL ERROR: monitors index overflow" /\
  valid r2 = true.
Proof.
  cbn zeta. pose proof (wf_Options_ctor argv) as Hwf.
  destruct (ctor_monitors argv) as [Hmon Herr]. cbn zeta in Hmon, Herr.
  rewrite !occurrences_wf by assumption.
  split; [exact Hmon|]. split; [|split; [|split]].
  - intros opt order. now rewrite occurrences_wf, getDouble_wf.
  - intros opt. apply occurrences_written.
  - intros opt order args Hopt Hget Hsix.
    rewrite getDouble_wf in Hget by assumption. unfold entries_of in Hget.
    apply list_lookup_fmap_Some in Hget as (e & -> & Hin%list_elem_of_lookup_2).
    apply list_elem_of_In, List.filter_In in Hin as [Hin Hkey].
    apply String.eqb_eq in Hkey. subst opt. now apply Herr.
  - destruct (ctor_counts argv) as (Hs & Ha & _). cbn zeta in Hs, Ha.
    rewrite !countDouble_wf in * by assumption.
    split; [exact Hs|]. split; [exact Ha|].
    repeat split; vm_compute; reflexivity.
Qed.

Lemma monitor_occurrences_flattened_witness :
  let argv := ["nutconf"; "--set-monitor"; "a"; "b"; "c";
               "--set-monitor"; "g"; "h"; "i"; "j"; "k"; "l"] in
  (is_monitor_opt "set-monitor" = true /\
   getDouble (Options_ctor argv) "set-monitor" 0 = Some ["a"; "b"; "c"] /\
   six ["a"; "b"; "c"] = false) /\
  In "--set-monitor option requires exactly 6 arguments"
     (m_errors (NutConfOptions_ctor argv)).
Proof.
  cbv zeta.
  assert (is_monitor_opt "set-monitor" = true) as Hopt by reflexivity.
  assert (getDouble (Options_ctor ["nutconf"; "--set-monitor"; "a"; "b"; "c";
                                   "--set-monitor"; "g"; "h"; "i"; "j"; "k"; "l"])
            "set-monitor" 0 = Some ["a"; "b"; "c"]) as Hget by (vm_compute; reflexivity).
  assert (six ["a"; "b"; "c"] = false) as Hsix by reflexivity.
  split; [now repeat split|].
  destruct (monitor_occurrences_flattened
              ["nutconf"; "--set-monitor"; "a"; "b"; "c";
               "--set-monitor"; "g"; "h"; "i"; "j"; "k"; "l"])
    as (_ & _ & _ & Herr & _).
  exact (Herr "set-monitor" 0 ["a"; "b"; "c"] Hopt Hget Hsix).
Defined.

(** C10.  After validation the monitor values come in sixes: six for each
    occurrence with exactly six arguments and none for any other.
    [getMonitor] throws the range error exactly when [which] is at least a
    sixth of their number; below that it returns the six values at
    [6 * which] to [6 * which + 5] and never reads outside the vector. *)
Theorem monitors_in_sixes (argv : list string) (which : nat) :
  let o := Options_ctor argv in
  let r := NutConfOptions_ctor argv in
  length (monitors r) =
    6 * (length (List.filter six (occurrences o "add-monitor")) +
         length (List.filter six (occurrences o "set-monitor"))) /\
  (length (monitors r) mod 6 = 0)%nat /\
  (getMonitor r which = RangeError "INTERNAL ERROR: monitors index overflow" <->
   length (monitors r) / 6 <= which) /\
  (which < length (monitors r) / 6 ->
   exists ups host_port pwr_val user passwd mode,
     getMonitor r which = Fields ups host_port pwr_val user passwd mode /\
     monitors r !! (6 * which) = Some ups /\
     monitors r !! (6 * which + 1) = Some host_port /\
     monitors r !! (6 * which + 2) = Some pwr_val /\
     monitors r !! (6 * which + 3) = Some user /\
     monitors r !! (6 * which + 4) = Some passwd /\
     monitors r !! (6 * which + 5) = Some mode) /\
  getMonitor r which <> OutOfBounds.
Proof.
  cbn zeta.
  destruct (monitor_occurrences_flattened_length argv) as [Hlen Hmod].
  split; [exact Hlen|]. split; [exact Hmod|].
  destruct (Nat.le_gt_cases (length (monitors (NutConfOptions_ctor argv)) / 6) which)
    as [Hle|Hlt].
  - rewrite (getMonitor_range _ _ Hle). repeat split; auto; try discriminate. lia.
  - destruct (getMonitor_fields _ _ Hlt) as (x0 & x1 & x2 & x3 & x4 & x5 & Hget & Hrest).
    rewrite Hget. repeat split; try discriminate; try lia.
    intros _. exists x0, x1, x2, x3, x4, x5. now split.
Qed.

(** C5.  The host specification is split at its last colon: the text in
    front of it is the host name and the text after it is read as the
    port, so that host:9999 gives host and 9999; when reading the port
    fails, [monitor] ends with the host specification error and exit
    status 1, whatever the other fields are.  Without a colon the whole
    text is the host name and the port is 0.  With the power value 1,
    host:9999 and host are read in full and [monitor] returns; host:http
    ends with the error line that quotes it. *)
Theorem monitor_host_port (options : NutConfOptions) (i : nat)
    (ups host_port pwr_val user passwd mode : string) :
  getMonitor options i = Fields ups host_port pwr_val user passwd mode ->
  (forall host rest,
     host_port = (host ++ ":" ++ rest)%string -> has_colon rest = false ->
     (extract_ushort rest = None ->
      monitor i options = HostPortParseError host_port) /\
     (forall port power_value,
        extract_ushort rest = Some port -> extract_uint pwr_val = Some power_value ->
        monitor i options =
          Returns (mkMonitor ups host port power_value user passwd
                             (String.eqb "master" mode)))) /\
  (host_port = "host:9999" ->
   forall power_value, extract_uint pwr_val = Some power_value ->
     monitor i options =
       Returns (mkMonitor ups "host" 9999 power_value user passwd
                          (String.eqb "master" mode))) /\
  (has_colon host_port = false ->
   forall power_value, extract_uint pwr_val = Some power_value ->
     monitor i options =
       Returns (mkMonitor ups host_port 0 power_value user passwd
                          (String.eqb "master" mode))) /\
  (host_port = "host:9999" -> pwr_val = "1" ->
   monitor i options =
     Returns (mkMonitor ups "host" 9999 1 user passwd (String.eqb "master" mode))) /\
  (host_port = "host" -> pwr_val = "1" ->
   monitor i options =
     Returns (mkMonitor ups "host" 0 1 user passwd (String.eqb "master" mode))) /\
  (host_port = "host:http" ->
   monitor i options =
     Exits ("Error: failed to parse host specification " ++
            String "034"%char ("host:http" ++ String "034"%char "")) 1).
Proof.
  intros Hget.
  assert (forall host rest,
     host_port = (host ++ ":" ++ rest)%string -> has_colon rest = false ->
     (extract_ushort rest = None ->
      monitor i options = HostPortParseError host_port) /\
     (forall port power_value,
        extract_ushort rest = Some port -> extract_uint pwr_val = Some power_value ->
        monitor i options =
          Returns (mkMonitor ups host port power_value user passwd
                             (String.eqb "master" mode)))) as Hsplit.
  { intros host rest -> Hrest. unfold monitor, parse_port. rewrite Hget.
    rewrite rfind_last_colon, substr_from_after by assumption.
    split.
    - now intros ->.
    - intros port power_value -> ->. unfold substr_to.
      now rewrite substr_to_before. }
  assert (has_colon host_port = false ->
          forall power_value, extract_uint pwr_val = Some power_value ->
            monitor i options =
              Returns (mkMonitor ups host_port 0 power_value user passwd
                                 (String.eqb "master" mode))) as Hplain.
  { intros Hnone power_value Hpwr. unfold monitor, parse_port.
    now rewrite Hget, rfind_no_colon, Hpwr. }
  split; [exact Hsplit|]. split; [|split; [exact Hplain|split; [|split]]].
  - intros -> power_value Hpwr.
    apply (Hsplit "host" "9999"); [reflexivity|reflexivity|reflexivity|assumption].
  - intros -> ->.
    apply (Hsplit "host" "9999"); reflexivity.
  - intros -> ->. apply Hplain; reflexivity.
  - intros ->. apply (Hsplit "host" "http"); reflexivity.
Qed.

Lemma monitor_host_port_witness :
  let failing := NutConfOptions_ctor
                   ["nutconf"; "--set-monitor"; "ups"; "host:http"; "1"; "u"; "p"; "master"] in
  let options := NutConfOptions_ctor
                   ["nutconf"; "--set-monitor"; "ups"; "host:9999"; "1"; "u"; "p"; "master"] in
  (getMonitor failing 0 = Fields "ups" "host:http" "1" "u" "p" "master" /\
   monitor 0 failing = HostPortParseError "host:http") /\
  (getMonitor options 0 = Fields "ups" "host:9999" "1" "u" "p" "master" /\
   monitor 0 options = Returns (mkMonitor "ups" "host" 9999 1 "u" "p" true)).
Proof.
  cbv zeta.
  assert (getMonitor
            (NutConfOptions_ctor
               ["nutconf"; "--set-monitor"; "ups"; "host:http"; "1"; "u"; "p"; "master"]) 0 =
          Fields "ups" "host:http" "1" "u" "p" "master") as Hfail
    by (vm_compute; reflexivity).
  assert (getMonitor
            (NutConfOptions_ctor
               ["nutconf"; "--set-monitor"; "ups"; "host:9999"; "1"; "u"; "p"; "master"]) 0 =
          Fields "ups" "host:9999" "1" "u" "p" "master") as Hget
    by (vm_compute; reflexivity).
  split; (split; [assumption|]).
  - destruct (monitor_host_port _ 0 _ _ _ _ _ _ Hfail) as (Hsplit & _).
    destruct (Hsplit "host" "http" eq_refl eq_refl) as [H _].
    apply H. reflexivity.
  - destruct (monitor_host_port _ 0 _ _ _ _ _ _ Hget) as (_ & _ & _ & H & _).
    exact (H eq_refl eq_refl).
Defined.

(** C6.  When the first --mode on the command line has the single
    argument [x]: if [x] is none of the six modes, [valid] is false, the
    mode stays unset and the error list has the error that says Unknown
    NUT mode and quotes [x], character 34 being the double quote; if
    it is one of them, it becomes the mode.  When --mode with its argument
    is all there is on the command line, that error is the only one in the
    first case, and in the second there is no error and [valid] is true. *)
Theorem mode_option_checked (x : string) :
  let modes := ["standalone"; "netserver"; "netclient"; "controlled"; "manual"; "none"] in
  (forall argv,
     getDouble (Options_ctor argv) "mode" 0 = Some [x] ->
     let r := NutConfOptions_ctor argv in
     (~ In x modes ->
      valid r = false /\ mode r = "" /\
      In ("Unknown NUT mode: " ++ String "034"%char (x ++ String "034"%char ""))%string
         (m_errors r)) /\
     (In x modes -> mode r = x)) /\
  (forall bin,
     classify x = Argument ->
     let r := NutConfOptions_ctor [bin; "--mode"; x] in
     (~ In x modes ->
      valid r = false /\ mode r = "" /\
      m_errors r =
        [("Unknown NUT mode: " ++ String "034"%char (x ++ String "034"%char ""))%string]) /\
     (In x modes -> mode r = x /\ m_errors r = [] /\ valid r = true)).
Proof.
  change ("Unknown NUT mode: " ++ String "034"%char (x ++ String "034"%char ""))%string
    with (unknown_mode x).
  cbn zeta. split.
  - intros argv Hget. rewrite <- checkMode_In.
    destruct (ctor_mode argv x Hget) as [Hbad Hgood].
    split; [|exact Hgood]. intros Hc. apply Hbad. now destruct (checkMode x).
  - intros bin Hx. rewrite <- checkMode_In.
    unfold NutConfOptions_ctor. rewrite (mode_specified bin x Hx). cbn zeta.
    destruct (checkMode x); split; intros H; try congruence; now repeat split.
Qed.

Lemma mode_option_checked_witness :
  let argv := ["nutconf"; "--system"; "--mode"; "bogus"; "--mode"; "manual"] in
  let accepted := NutConfOptions_ctor ["nutconf"; "--mode"; "standalone"] in
  ((getDouble (Options_ctor argv) "mode" 0 = Some ["bogus"] /\
    ~ In "bogus" ["standalone"; "netserver"; "netclient"; "controlled"; "manual"; "none"]) /\
   valid (NutConfOptions_ctor argv) = false /\
   mode (NutConfOptions_ctor argv) = "" /\
   In ("Unknown NUT mode: " ++ String "034"%char ("bogus" ++ String "034"%char ""))%string
      (m_errors (NutConfOptions_ctor argv))) /\
  ((classify "standalone" = Argument /\
    In "standalone" ["standalone"; "netserver"; "netclient"; "controlled"; "manual"; "none"]) /\
   mode accepted = "standalone" /\ m_errors accepted = [] /\ valid accepted = true).
Proof.
  cbv zeta.
  assert (getDouble (Options_ctor ["nutconf"; "--system"; "--mode"; "bogus"; "--mode"; "manual"])
            "mode" 0 = Some ["bogus"]) as Hget by (vm_compute; reflexivity).
  assert (~ In "bogus" ["standalone"; "netserver"; "netclient"; "controlled"; "manual"; "none"])
    as Hout by (cbn; intuition discriminate).
  assert (classify "standalone" = Argument) as Harg by reflexivity.
  assert (In "standalone"
            ["standalone"; "netserver"; "netclient"; "controlled"; "manual"; "none"])
    as Hin by (cbn; tauto).
  split; (split; [now split|]).
  - destruct (mode_option_checked "bogus") as [Hany _].
    destruct (Hany _ Hget) as [Hbad _]. exact (Hbad Hout).
  - destruct (mode_option_checked "standalone") as [_ Halone].
    destruct (Halone "nutconf" Harg) as [_ Hgood]. exact (Hgood Hin).
Defined.

Lemma monitors_in_sixes_witness :
  let r := NutConfOptions_ctor
             ["nutconf"; "--add-monitor"; "a"; "b"; "c"; "d"; "e"; "f"; "--set-monitor"; "x"] in
  0 < length (monitors r) / 6 /\
  getMonitor r 0 = Fields "a" "b" "c" "d" "e" "f".
Proof.
  cbv zeta.
  assert (0 < length (monitors (NutConfOptions_ctor
             ["nutconf"; "--add-monitor"; "a"; "b"; "c"; "d"; "e"; "f";
              "--set-monitor"; "x"])) / 6) as Hlt by (vm_compute; lia).
  split; [exact Hlt|].
  destruct (monitors_in_sixes
              ["nutconf"; "--add-monitor"; "a"; "b"; "c"; "d"; "e"; "f";
               "--set-monitor"; "x"] 0) as (_ & _ & _ & Hfields & _).
  destruct (Hfields Hlt) as (x0 & x1 & x2 & x3 & x4 & x5 & -> & H0 & H1 & H2 & H3 & H4 & H5).
  vm_compute in H0, H1, H2, H3, H4, H5. congruence.
Defined.

(** * Further facts about the option store *)

Module StoreFacts.
Import MultiMap Opts MultiMapFacts OptsFacts.

(** ** Option tokens and option names *)

Lemma substr_from_1 (a : ascii) (s : string) : substr_from 1 (String a s) = s.
Proof.
  unfold substr_from. cbn. rewrite Nat.sub_0_r. apply MergeFacts.substring_all.
Qed.

Lemma substr_from_2 (a b : ascii) (s : string) :
  substr_from 2 (String a (String b s)) = s.
Proof.
  unfold substr_from. cbn. rewrite Nat.sub_0_r. apply MergeFacts.substring_all.
Qed.

Lemma classify_double (arg name : string) :
  classify arg = DoubleOption name <->
  arg = String "-" (String "-" name) /\ proper_name name = true.
Proof.
  unfold classify, not_dash_at.
  destruct arg as [|a [|b [|c rest]]]; cbn;
    rewrite ?orb_true_r, ?orb_false_r, ?MergeFacts.substring_all.
  - split; [discriminate|intros [[=] _]].
  - split; [discriminate|intros [[=] _]].
  - destruct (Ascii.eqb_spec a "-"), (Ascii.eqb_spec b "-"); cbn;
      (split; [discriminate|]); intros [[=] Hp]; subst; try contradiction; discriminate Hp.
  - destruct (Ascii.eqb_spec a "-"), (Ascii.eqb_spec b "-"), (Ascii.eqb_spec c "-"); cbn;
      (split; [try discriminate|]).
    all: try (intros [[=] Hp]; subst; try contradiction; cbn in Hp;
              try discriminate Hp; try reflexivity).
    all: try (rewrite Ascii.eqb_refl in Hp; discriminate Hp).
    intros [= <-]. subst. split; [reflexivity|]. cbn.
    now apply negb_true_iff, Ascii.eqb_neq.
Qed.

Lemma classify_single (arg name : string) :
  classify arg = SingleOption name <->
  arg = String "-" name /\ proper_name name = true.
Proof.
  unfold classify, not_dash_at.
  destruct arg as [|a [|b rest]]; cbn;
    rewrite ?orb_true_r, ?orb_false_r, ?MergeFacts.substring_all.
  - split; [discriminate|intros [[=] _]].
  - split; [discriminate|]. intros [[=] Hp]. subst. discriminate Hp.
  - destruct (Ascii.eqb_spec a "-"), (Ascii.eqb_spec b "-"); cbn.
    all: try (split; [discriminate|]; intros [[=] Hp]; subst; contradiction).
    + destruct rest as [|c rest]; cbn.
      * split; [discriminate|]. intros [[=] Hp]. subst. discriminate Hp.
      * destruct (Ascii.eqb c "-"); cbn; (split; [discriminate|]);
          intros [[=] Hp]; subst; discriminate Hp.
    + split.
      * intros [= <-]. subst. split; [reflexivity|]. cbn.
        now apply negb_true_iff, Ascii.eqb_neq.
      * intros [[=] Hp]. now subst.
Qed.
(** ** The binary's own arguments *)

Lemma run_args (tokens : list string) :
  forall o, m_args (run o tokens) = m_args o ++ written_top (no_current o) tokens.
Proof.
  unfold run, no_current. induction tokens as [|arg tokens IH]; intros o.
  - cbn. now rewrite app_nil_r.
  - cbn [fold_left written_top]. rewrite IH, step_classify.
    destruct (classify arg) as [|name| |name].
    + rewrite addArg_last. unfold addArg.
      destruct (m_last o) as [[[|] entry]|]; cbn [m_args]; try reflexivity.
      now rewrite <- app_assoc.
    + rewrite add_single. reflexivity.
    + reflexivity.
    + rewrite add_double. reflexivity.
Qed.

(** ** Every argument is stored once *)

Lemma concat_args_insert (k : string) (m : Map) :
  concat (map snd (fst (insert k m))) = concat (map snd m).
Proof.
  induction m as [|e m IH]; [reflexivity|]. rewrite insert_cons.
  destruct (String.ltb k (fst e)); cbn [fst map concat]; [reflexivity|].
  now rewrite IH.
Qed.

Lemma concat_args_alter (arg : string) (entry : nat) (m : Map) :
  entry < length m ->
  Permutation (concat (map snd (alter (push_back arg) entry m)))
              (arg :: concat (map snd m)).
Proof.
  revert entry. induction m as [|e m IH]; intros [|entry] Hlt; cbn in Hlt; try lia.
  - cbn. rewrite <- app_assoc. cbn.
    now rewrite <- Permutation_middle.
  - cbn [alter list_alter map concat]. change (list_alter ?f ?i ?l) with (alter f i l).
    rewrite IH by lia. now rewrite Permutation_middle.
Qed.

Lemma all_args_step (o : Options) (arg : string) :
  wf o ->
  Permutation (all_args (step o arg))
              ((if is_argument arg then [arg] else []) ++ all_args o).
Proof.
  intros (_ & _ & Hl). rewrite step_classify. unfold is_argument, all_args.
  destruct (classify arg) as [|name| |name].
  - unfold addArg, last_valid in *.
    destruct (m_last o) as [[[|] entry]|]; cbn [m_args m_single m_double app].
    + rewrite concat_args_alter by assumption.
      now rewrite <- app_comm_cons, <- Permutation_middle.
    + rewrite concat_args_alter by assumption.
      now rewrite !Permutation_middle.
    + rewrite <- app_assoc. cbn. now rewrite <- Permutation_middle.
  - rewrite add_single. cbn [m_args m_single m_double app].
    now rewrite concat_args_insert.
  - reflexivity.
  - rewrite add_double. cbn [m_args m_single m_double app].
    now rewrite concat_args_insert.
Qed.

Lemma all_args_run (tokens : list string) :
  forall o, wf o ->
    Permutation (all_args (run o tokens))
                (all_args o ++ List.filter is_argument tokens).
Proof.
  unfold run. induction tokens as [|arg tokens IH]; intros o Hwf.
  - cbn. now rewrite app_nil_r.
  - cbn [fold_left List.filter]. rewrite IH by now apply wf_step.
    rewrite all_args_step by assumption.
    destruct (is_argument arg); cbn [app]; [|reflexivity].
    now rewrite Permutation_middle.
Qed.

(** ** The option names *)

Lemma strings_insert (k : string) (m : Map) :
  Permutation (strings (fst (insert k m))) (k :: strings m).
Proof.
  unfold strings. induction m as [|e m IH]; [reflexivity|]. rewrite insert_cons.
  destruct (String.ltb k (fst e)); cbn [fst map]; [reflexivity|].
  rewrite IH. apply perm_swap.
Qed.

Lemma names_run (tokens : list string) :
  forall o,
    Permutation (stringsSingle (run o tokens))
                (stringsSingle o ++ omap single_name tokens) /\
    Permutation (stringsDouble (run o tokens))
                (stringsDouble o ++ omap double_name tokens).
Proof.
  unfold run. induction tokens as [|arg tokens IH]; intros o.
  - cbn. now rewrite !app_nil_r.
  - cbn [fold_left omap list_omap]. destruct (IH (step o arg)) as [IHs IHd].
    rewrite IHs, IHd. rewrite step_classify. unfold single_name, double_name.
    destruct (addArg_strings arg o) as [Hs Hd].
    destruct (classify arg) as [|name| |name]; cbn [m_single m_double].
    + now rewrite Hs, Hd.
    + rewrite add_single. unfold stringsSingle, stringsDouble. cbn [m_single m_double].
      split; [|reflexivity]. rewrite strings_insert. apply Permutation_middle.
    + split; reflexivity.
    + rewrite add_double. unfold stringsSingle, stringsDouble. cbn [m_single m_double].
      split; [reflexivity|]. rewrite strings_insert. apply Permutation_middle.
Qed.

(** ** The single-dashed occurrences *)

Lemma getSingle_wf (o : Options) (opt : string) (order : nat) :
  wf o -> getSingle o opt order = entries_of opt (m_single o) !! order.
Proof. intros (Hs & _). now apply get_sorted. Qed.

Lemma single_entries_with_nil (opt : string) (o : Options) :
  single_entries_with opt [] o = entries_of opt (m_single o).
Proof.
  unfold single_entries_with. destruct (m_last o) as [[[|] entry]|]; try reflexivity.
  rewrite alter_same; [reflexivity|]. intros [k args]. cbn. now rewrite app_nil_r.
Qed.

Lemma single_entries_with_addArg (opt arg : string) (args : Arguments) (o : Options) :
  single_entries_with opt args (addArg arg o) = single_entries_with opt (arg :: args) o.
Proof.
  unfold single_entries_with, addArg.
  destruct (m_last o) as [[[|] entry]|]; cbn [m_last m_single]; try reflexivity.
  rewrite alter_twice. f_equal. apply alter_ext.
  intros [k args']. unfold push_back. cbn. now rewrite <- app_assoc.
Qed.

Lemma single_run_written (opt : string) (tokens : list string) :
  forall o, wf o ->
    entries_of opt (m_single (run o tokens)) =
      single_entries_with opt (leading_args tokens) o ++ written_single opt tokens.
Proof.
  unfold run. induction tokens as [|arg tokens IH]; intros o Hwf.
  - cbn. now rewrite single_entries_with_nil, app_nil_r.
  - cbn [fold_left]. rewrite IH by now apply wf_step.
    cbn [leading_args written_single]. unfold is_argument.
    rewrite step_classify. destruct (classify arg) as [|name| |name].
    + now rewrite single_entries_with_addArg.
    + rewrite single_entries_with_nil, add_single.
      unfold single_entries_with. cbn [m_last m_single].
      rewrite entries_of_inserted by apply Hwf.
      destruct (String.eqb name opt); [|now rewrite app_nil_r].
      now rewrite <- app_assoc.
    + rewrite single_entries_with_nil. reflexivity.
    + rewrite single_entries_with_nil, add_double. reflexivity.
Qed.

(** ** Which tokens start an occurrence *)

Lemma starts_proper (opt arg : string) :
  proper_name opt = true ->
  starts opt arg = true <->
  arg = String "-" opt \/ arg = String "-" (String "-" opt).
Proof.
  intros Hopt. unfold starts. split.
  - destruct (classify arg) as [|name| |name] eqn:Hc; try discriminate.
    + intros ->%String.eqb_eq. left. now apply classify_single in Hc.
    + intros ->%String.eqb_eq. right. now apply classify_double in Hc.
  - intros [->| ->].
    + rewrite (proj2 (classify_single _ opt)) by now split. apply String.eqb_refl.
    + rewrite (proj2 (classify_double _ opt)) by now split. apply String.eqb_refl.
Qed.

Lemma started_positive (opt : string) (tokens : list string) :
  0 < started opt tokens <-> exists arg, In arg tokens /\ starts opt arg = true.
Proof.
  unfold started. induction tokens as [|arg tokens IH]; cbn.
  - split; [lia|intros (arg & [] & _)].
  - destruct (starts opt arg) eqn:Hs; cbn.
    + split; [|lia]. intros _. exists arg. auto.
    + rewrite IH. split.
      * intros (arg' & Hin & H). exists arg'. auto.
      * intros (arg' & [<-|Hin] & H); [congruence|]. exists arg'. auto.
Qed.

Lemma exists_started (argv : list string) (opt : string) :
  exists_ (Options_ctor argv) opt = true <-> 0 < started opt (tail argv).
Proof.
  unfold exists_, existsSingle, existsDouble.
  rewrite <- counts_started, orb_true_iff, !Nat.ltb_lt. lia.
Qed.

(** ** Without a separator *)

Lemma classify_separator (arg : string) : classify arg = Separator <-> arg = "--".
Proof.
  unfold classify, not_dash_at.
  destruct arg as [|a [|b [|c rest]]]; cbn;
    rewrite ?orb_true_r, ?orb_false_r.
  - split; discriminate.
  - split; discriminate.
  - destruct (Ascii.eqb_spec a "-"), (Ascii.eqb_spec b "-"); cbn; subst;
      split; try discriminate; try reflexivity; intros [=]; contradiction.
  - destruct (Ascii.eqb a "-"), (Ascii.eqb b "-"), (Ascii.eqb c "-"); cbn;
      split; discriminate.
Qed.

Lemma written_top_attached (tokens : list string) :
  ~ In "--" tokens -> written_top false tokens = [].
Proof.
  induction tokens as [|arg tokens IH]; [reflexivity|]. intros Hno. cbn.
  destruct (classify arg) eqn:Hc; try (apply IH; intros H; apply Hno; now right).
  apply classify_separator in Hc. subst. exfalso. apply Hno. now left.
Qed.

Lemma sorted_strings (m : Map) :
  sorted m -> StronglySorted (fun a b => String.ltb b a = false) (strings m).
Proof.
  unfold strings. induction 1 as [|e m Hge Hm IH]; cbn; constructor; auto.
  now apply Forall_map.
Qed.

Lemma names_written (argv : list string) :
  let o := Options_ctor argv in
  Permutation (stringsSingle o) (omap single_name (tail argv)) /\
  Permutation (stringsDouble o) (omap double_name (tail argv)).
Proof. apply (names_run (tail argv) Opts.empty). Qed.

Lemma stored_single_name (argv : list string) (name : string) :
  In name (stringsSingle (Options_ctor argv)) <->
  proper_name name = true /\ In (String "-" name) (tail argv).
Proof.
  destruct (names_written argv) as [Hs _]. cbn zeta in Hs.
  rewrite <- !list_elem_of_In, Hs, list_elem_of_omap. unfold single_name. split.
  - intros (arg & Hin & Hc). destruct (classify arg) eqn:Hcl; try discriminate.
    injection Hc as ->. apply classify_single in Hcl as [-> Hp]. now split.
  - intros [Hp Hin]. exists (String "-" name). split; [assumption|].
    now rewrite (proj2 (classify_single _ name)).
Qed.

Lemma stored_double_name (argv : list string) (name : string) :
  In name (stringsDouble (Options_ctor argv)) <->
  proper_name name = true /\ In (String "-" (String "-" name)) (tail argv).
Proof.
  destruct (names_written argv) as [_ Hd]. cbn zeta in Hd.
  rewrite <- !list_elem_of_In, Hd, list_elem_of_omap. unfold double_name. split.
  - intros (arg & Hin & Hc). destruct (classify arg) eqn:Hcl; try discriminate.
    injection Hc as ->. apply classify_double in Hcl as [-> Hp]. now split.
  - intros [Hp Hin]. exists (String "-" (String "-" name)). split; [assumption|].
    now rewrite (proj2 (classify_double _ name)).
Qed.

Lemma option_count (tokens : list string) :
  length (omap single_name tokens) + length (omap double_name tokens) =
  length (List.filter is_option tokens).
Proof.
  induction tokens as [|arg tokens IH]; [reflexivity|].
  cbn [omap list_omap List.filter].
  unfold single_name at 1, double_name at 1, is_option at 1.
  destruct (classify arg); cbn [length]; change (list_omap ?f ?l) with (omap f l);
    rewrite <- ?IH; lia.
Qed.

End StoreFacts.

(** * Further facts about the validation *)

Module ValidationFacts.
Import MultiMap Opts NutConf MultiMapFacts OptsFacts NutConfFacts StoreFacts.

(** ** The first loop and the final tests *)

Lemma reject_names (names : list string) :
  forall o,
    fold_left (fun o opt => push_unknown ("-" ++ opt) o) names o =
      upd_m_unknown (fun unknown => unknown ++ map (String.append "-") names) o.
Proof.
  induction names as [|opt names IH]; intros o; cbn [fold_left map].
  - destruct o. unfold upd_m_unknown. cbn. now rewrite app_nil_r.
  - rewrite IH. unfold push_unknown, upd_m_unknown. cbn. now rewrite <- app_assoc.
Qed.

Lemma reject_single_closed (o : NutConfOptions) :
  reject_single o =
    upd_m_unknown
      (fun unknown => unknown ++ map (String.append "-") (stringsSingle (base o))) o.
Proof. apply reject_names. Qed.

(** The final tests only write [valid] and the error list. *)
Lemma check_other_fields (s : NutConfOptions) :
  let r := check_exclusive (check_known s) in
  autoconfigure r = autoconfigure s /\ is_configured r = is_configured s /\
  local r = local s /\ system r = system s /\
  listen_addrs r = listen_addrs s /\ devices r = devices s.
Proof.
  unfold check_exclusive, exclusive, check_known, push_error. cbn.
  branches; cbn; now repeat split.
Qed.

(** ** Unknown options *)

Lemma specify_unknown (o : NutConfOptions) (opt : string) :
  m_unknown (specify o opt) =
    m_unknown o ++ (if is_known opt then [] else [("--" ++ opt)%string]).
Proof.
  apply specify_cases; intros H;
    repeat match goal with H : _ \/ _ |- _ => destruct H end;
    try (subst opt; change (is_known _) with true; rewrite app_nil_r;
         unfold_branch; branches; reflexivity).
  now rewrite H.
Qed.

Lemma loop_unknown (names : list string) :
  forall o,
    m_unknown (fold_left specify names o) =
      m_unknown o ++
      map (String.append "--") (List.filter (fun opt => negb (is_known opt)) names).
Proof.
  induction names as [|opt names IH]; intros o; cbn [fold_left List.filter].
  - now rewrite app_nil_r.
  - rewrite IH, specify_unknown, <- app_assoc.
    now destruct (is_known opt).
Qed.

Lemma ctor_unknown (argv : list string) :
  let o := Options_ctor argv in
  m_unknown (NutConfOptions_ctor argv) =
    map (String.append "-") (stringsSingle o) ++
    map (String.append "--") (List.filter (fun opt => negb (is_known opt)) (stringsDouble o)).
Proof.
  cbn zeta. unfold NutConfOptions_ctor.
  destruct (check_fields (specified argv)) as (_ & -> & _).
  unfold specified, specify_double.
  rewrite loop_unknown, reject_single_closed. reflexivity.
Qed.

(** ** A family of options with a set- and an add- form *)

Section Family.
Context {A : Type}.
Variables (items : NutConfOptions -> list A)
          (set_name add_name : string)
          (set_cnt add_cnt : NutConfOptions -> nat)
          (produce : Arguments -> list A).

Hypothesis Hset : forall o opt,
  set_cnt (specify o opt) = bump set_name opt + set_cnt o.
Hypothesis Hadd : forall o opt,
  add_cnt (specify o opt) = bump add_name opt + add_cnt o.
Hypothesis Hne : String.eqb set_name add_name = false.
Hypothesis Hfound : forall o opt args,
  String.eqb set_name opt || String.eqb add_name opt = true ->
  getDouble (base o) opt (if String.eqb set_name opt then set_cnt o else add_cnt o)
    = Some args ->
  items (specify o opt) = items o ++ produce args /\
  (produce args = [] -> length (m_errors o) < length (m_errors (specify o opt))).
Hypothesis Hother : forall o opt,
  String.eqb set_name opt || String.eqb add_name opt = false ->
  items (specify o opt) = items o.

Lemma family_entry (b : Options) (pre post : Map) (e : string * Arguments)
    (o : NutConfOptions) :
  wf b -> m_double b = pre ++ e :: post -> base o = b ->
  set_cnt o = length (entries_of set_name pre) ->
  add_cnt o = length (entries_of add_name pre) ->
  items (specify o (fst e)) =
    items o ++ (if String.eqb set_name (fst e) || String.eqb add_name (fst e)
                then produce (snd e) else []) /\
  (String.eqb set_name (fst e) || String.eqb add_name (fst e) = true ->
   produce (snd e) = [] ->
   length (m_errors o) < length (m_errors (specify o (fst e)))).
Proof.
  intros Hwf Hm Hb Hs Ha.
  pose proof (entry_found b pre post e Hwf Hm) as Hget.
  destruct (String.eqb set_name (fst e) || String.eqb add_name (fst e)) eqn:Hfam.
  - assert ((if String.eqb set_name (fst e) then set_cnt o else add_cnt o) =
            length (entries_of (fst e) pre)) as Hcnt.
    { destruct (String.eqb_spec set_name (fst e)) as [<-|Hn]; [assumption|].
      cbn in Hfam. apply String.eqb_eq in Hfam. now rewrite <- Hfam. }
    rewrite <- Hcnt, <- Hb in Hget.
    destruct (Hfound o (fst e) (snd e) Hfam Hget) as [Hi He]. auto.
  - rewrite app_nil_r. split; [now apply Hother|discriminate].
Qed.

Lemma family_loop (b : Options) (post : Map) :
  forall (pre : Map) (o : NutConfOptions),
    wf b -> m_double b = pre ++ post -> base o = b ->
    set_cnt o = length (entries_of set_name pre) ->
    add_cnt o = length (entries_of add_name pre) ->
    let o' := fold_left specify (strings post) o in
    let family :=
      List.filter (fun e => String.eqb set_name (fst e) || String.eqb add_name (fst e))
                  post in
    items o' = items o ++ concat (map produce (map snd family)) /\
    (Exists (fun e => produce (snd e) = []) family ->
     length (m_errors o) < length (m_errors o')).
Proof.
  induction post as [|e post IH]; intros pre o Hwf Hm Hb Hs Ha; cbn zeta.
  - cbn. rewrite app_nil_r. split; [reflexivity|]. intros H. inversion H.
  - cbn [strings map fold_left]. fold (strings post).
    destruct (family_entry b pre post e o Hwf Hm Hb Hs Ha) as [Hi He].
    destruct (IH (pre ++ [e]) (specify o (fst e))) as [IHi IHe]; auto.
    + now rewrite <- app_assoc.
    + now rewrite specify_base.
    + rewrite Hset, Hs, entries_of_app, length_app, entries_of_cons. unfold bump.
      rewrite (String.eqb_sym (fst e)).
      destruct (String.eqb set_name (fst e)); cbn; lia.
    + rewrite Hadd, Ha, entries_of_app, length_app, entries_of_cons. unfold bump.
      rewrite (String.eqb_sym (fst e)).
      destruct (String.eqb add_name (fst e)); cbn; lia.
    + cbn zeta in IHi, IHe. cbn [List.filter].
      destruct (loop_errors (strings post) (specify o (fst e))) as [new Hnew].
      destruct (specify_errors o (fst e)) as [new1 Hnew1].
      split.
      * rewrite IHi, Hi, <- app_assoc. f_equal.
        now destruct (String.eqb set_name (fst e) || String.eqb add_name (fst e)).
      * destruct (String.eqb set_name (fst e) || String.eqb add_name (fst e)).
        -- intros [Hbad|Hbad]%Exists_cons.
           ++ specialize (He eq_refl Hbad). rewrite Hnew, length_app. lia.
           ++ specialize (IHe Hbad). rewrite Hnew1, length_app in IHe. lia.
        -- intros Hbad. specialize (IHe Hbad).
           rewrite Hnew1, length_app in IHe. lia.
Qed.

Hypothesis Hlt : String.ltb add_name set_name = true.
Hypothesis Hinit : forall b f,
  let o := upd_m_unknown f (init b) in
  items o = [] /\ set_cnt o = 0 /\ add_cnt o = 0.
Hypothesis Hcheck : forall s, items (check_exclusive (check_known s)) = items s.

Lemma family_ctor (argv : list string) :
  let m := m_double (Options_ctor argv) in
  let r := NutConfOptions_ctor argv in
  items r =
    concat (map produce (entries_of add_name m)) ++
    concat (map produce (entries_of set_name m)) /\
  (Exists (fun args => produce args = [])
          (entries_of add_name m ++ entries_of set_name m) ->
   m_errors r <> []).
Proof.
  cbn zeta. unfold NutConfOptions_ctor. rewrite Hcheck.
  destruct (check_fields (specified argv))
    as (_ & _ & _ & _ & _ & _ & _ & _ & _ & _ & new & ->).
  unfold specified, specify_double. rewrite reject_single_closed.
  set (b := Options_ctor argv).
  set (o := upd_m_unknown _ (init b)).
  change (base o) with b. unfold stringsDouble.
  destruct (Hinit b (fun unknown => unknown ++ map (String.append "-") (stringsSingle (base (init b)))))
    as (Hi & Hs & Ha). cbn zeta in Hi, Hs, Ha. fold o in Hi, Hs, Ha.
  pose proof (wf_Options_ctor argv) as Hwf. fold b in Hwf.
  destruct (family_loop b (m_double b) [] o Hwf eq_refl eq_refl Hs Ha) as [Hitems Herr].
  cbn zeta in Hitems, Herr.
  assert (map snd (List.filter
            (fun e => String.eqb set_name (fst e) || String.eqb add_name (fst e))
            (m_double b)) =
          entries_of add_name (m_double b) ++ entries_of set_name (m_double b)) as Hfam.
  { rewrite filter_two_keys by (assumption || apply Hwf).
    unfold entries_of. now rewrite map_app. }
  split.
  - now rewrite Hitems, Hi, Hfam, map_app, concat_app.
  - intros Hbad. rewrite <- Hfam in Hbad. apply Exists_fmap in Hbad.
    specialize (Herr Hbad). intros Hnil. apply app_eq_nil in Hnil as [Hnil _].
    rewrite Hnil in Herr. cbn in Herr. lia.
Qed.

End Family.


(** ** The listen and the device options *)

Lemma family_opt (set_name add_name opt : string) :
  String.eqb set_name opt || String.eqb add_name opt = true ->
  opt = set_name \/ opt = add_name.
Proof.
  intros [H|H]%orb_true_iff; apply String.eqb_eq in H; auto.
Qed.

Lemma other_opt (set_name add_name opt : string) :
  String.eqb set_name opt || String.eqb add_name opt = false ->
  opt <> set_name /\ opt <> add_name.
Proof.
  intros [H1 H2]%orb_false_elim. apply String.eqb_neq in H1, H2. split; congruence.
Qed.

Lemma listen_found (o : NutConfOptions) (opt : string) (args : Arguments) :
  String.eqb "set-listen" opt || String.eqb "add-listen" opt = true ->
  getDouble (base o) opt
    (if String.eqb "set-listen" opt then set_listen_cnt o else add_listen_cnt o) = Some args ->
  listen_addrs (specify o opt) = listen_addrs o ++ listen_records args /\
  (listen_records args = [] -> length (m_errors o) < length (m_errors (specify o opt))).
Proof.
  intros [-> | ->]%family_opt Hget; cbn [String.eqb Ascii.eqb Bool.eqb andb] in Hget.
  - change (specify o "set-listen") with (do_listen "set-listen" o).
    unfold do_listen, optMode, listen_cnt. cbn [starts_with_s String.get Ascii.eqb Bool.eqb andb].
    rewrite Hget. unfold listen_records, incr_listen_cnt, push_error.
    destruct args as [|a [|b [|c args]]]; cbn; rewrite ?app_nil_r, ?length_app; cbn;
      split; auto; try discriminate; lia.
  - change (specify o "add-listen") with (do_listen "add-listen" o).
    unfold do_listen, optMode, listen_cnt. cbn [starts_with_s String.get Ascii.eqb Bool.eqb andb].
    rewrite Hget. unfold listen_records, incr_listen_cnt, push_error.
    destruct args as [|a [|b [|c args]]]; cbn; rewrite ?app_nil_r, ?length_app; cbn;
      split; auto; try discriminate; lia.
Qed.

Lemma listen_other (o : NutConfOptions) (opt : string) :
  String.eqb "set-listen" opt || String.eqb "add-listen" opt = false ->
  listen_addrs (specify o opt) = listen_addrs o.
Proof.
  intros [H1 H2]%other_opt. apply specify_cases; intros H;
    repeat match goal with H : _ \/ _ |- _ => destruct H end;
    try congruence; unfold_branch; branches; reflexivity.
Qed.

Lemma device_found (o : NutConfOptions) (opt : string) (args : Arguments) :
  String.eqb "set-device" opt || String.eqb "add-device" opt = true ->
  getDouble (base o) opt
    (if String.eqb "set-device" opt then set_device_cnt o else add_device_cnt o) = Some args ->
  devices (specify o opt) = devices o ++ device_records args /\
  (device_records args = [] -> length (m_errors o) < length (m_errors (specify o opt))).
Proof.
  intros [-> | ->]%family_opt Hget; cbn [String.eqb Ascii.eqb Bool.eqb andb] in Hget.
  - change (specify o "set-device") with (do_device "set-device" o).
    unfold do_device, optMode, device_cnt. cbn [starts_with_s String.get Ascii.eqb Bool.eqb andb].
    rewrite Hget. unfold device_records, incr_device_cnt, push_error.
    destruct args as [|a [|b [|c [|d [|e args]]]]]; cbn; rewrite ?app_nil_r, ?length_app; cbn;
      split; auto; try discriminate; lia.
  - change (specify o "add-device") with (do_device "add-device" o).
    unfold do_device, optMode, device_cnt. cbn [starts_with_s String.get Ascii.eqb Bool.eqb andb].
    rewrite Hget. unfold device_records, incr_device_cnt, push_error.
    destruct args as [|a [|b [|c [|d [|e args]]]]]; cbn; rewrite ?app_nil_r, ?length_app; cbn;
      split; auto; try discriminate; lia.
Qed.

Lemma device_other (o : NutConfOptions) (opt : string) :
  String.eqb "set-device" opt || String.eqb "add-device" opt = false ->
  devices (specify o opt) = devices o.
Proof.
  intros [H1 H2]%other_opt. apply specify_cases; intros H;
    repeat match goal with H : _ \/ _ |- _ => destruct H end;
    try congruence; unfold_branch; branches; reflexivity.
Qed.

Lemma ctor_listen (argv : list string) :
  let m := m_double (Options_ctor argv) in
  let r := NutConfOptions_ctor argv in
  listen_addrs r =
    concat (map listen_records (entries_of "add-listen" m)) ++
    concat (map listen_records (entries_of "set-listen" m)) /\
  (Exists (fun args => listen_records args = [])
          (entries_of "add-listen" m ++ entries_of "set-listen" m) ->
   m_errors r <> []).
Proof.
  apply (family_ctor listen_addrs "set-listen" "add-listen" set_listen_cnt add_listen_cnt
           listen_records).
  - intros o opt. apply (specify_counts o opt).
  - intros o opt. apply (specify_counts o opt).
  - exact listen_found.
  - exact listen_other.
  - reflexivity.
  - intros b f. now repeat split.
  - intros s. apply (check_other_fields s).
Qed.

Lemma ctor_devices (argv : list string) :
  let m := m_double (Options_ctor argv) in
  let r := NutConfOptions_ctor argv in
  devices r =
    concat (map device_records (entries_of "add-device" m)) ++
    concat (map device_records (entries_of "set-device" m)) /\
  (Exists (fun args => device_records args = [])
          (entries_of "add-device" m ++ entries_of "set-device" m) ->
   m_errors r <> []).
Proof.
  apply (family_ctor devices "set-device" "add-device" set_device_cnt add_device_cnt
           device_records).
  - intros o opt. apply (specify_counts o opt).
  - intros o opt. apply (specify_counts o opt).
  - exact device_found.
  - exact device_other.
  - reflexivity.
  - intros b f. now repeat split.
  - intros s. apply (check_other_fields s).
Qed.


(** ** What a valid result rules out *)

Lemma valid_clean (argv : list string) :
  let r := NutConfOptions_ctor argv in
  valid r = true ->
  m_unknown r = [] /\ m_errors r = [] /\ get_args (Options_ctor argv) = [] /\
  both (set_monitor_cnt r) (add_monitor_cnt r) = false /\
  both (set_listen_cnt r) (add_listen_cnt r) = false /\
  both (set_device_cnt r) (add_device_cnt r) = false.
Proof.
  cbn zeta. rewrite <- (specified_base argv). unfold NutConfOptions_ctor.
  generalize (specified argv) as s. intros s.
  destruct (check_fields s) as (_ & -> & _ & _ & -> & -> & -> & -> & -> & -> & _).
  destruct (check_result s) as [-> ->].
  rewrite !andb_true_iff, !negb_true_iff, !is_empty_nil.
  intros (((((-> & ->) & ->) & ->) & ->) & ->). now repeat split.
Qed.

Lemma invalid_reason (argv : list string) :
  let r := NutConfOptions_ctor argv in
  valid r = false ->
  m_unknown r <> [] \/ m_errors r <> [] \/ get_args (base r) <> [].
Proof.
  cbn zeta. unfold NutConfOptions_ctor.
  generalize (specified argv) as s. intros s.
  destruct (check_fields s) as (-> & -> & _).
  destruct (check_result s) as [-> ->].
  destruct (m_unknown s); [|left; discriminate].
  destruct (m_errors s); [|right; left; discriminate].
  destruct (get_args (base s)); [|right; right; discriminate].
  cbn. right. left.
  destruct (both (set_monitor_cnt s) (add_monitor_cnt s)); [discriminate|].
  destruct (both (set_listen_cnt s) (add_listen_cnt s)); [discriminate|].
  destruct (both (set_device_cnt s) (add_device_cnt s)); [discriminate|].
  discriminate.
Qed.

Lemma both_false (set_cnt add_cnt : nat) :
  both set_cnt add_cnt = false -> set_cnt = 0 \/ add_cnt = 0.
Proof.
  unfold both. destruct set_cnt, add_cnt; cbn; auto. discriminate.
Qed.

(** When every occurrence gives a record, there are as many records as
    occurrences. *)
Lemma all_produce {A} (produce : Arguments -> list A) (l : list Arguments) :
  (forall args, length (produce args) <= 1) ->
  ~ Exists (fun args => produce args = []) l ->
  length (concat (map produce l)) = length l.
Proof.
  intros Hone. induction l as [|args l IH]; [reflexivity|]. intros Hno.
  cbn. rewrite length_app, IH by (intros H; apply Hno; now right).
  specialize (Hone args). destruct (produce args) as [|x [|y rest]] eqn:Hp; cbn in *.
  - exfalso. apply Hno. now left.
  - reflexivity.
  - lia.
Qed.

Lemma listen_records_one (args : Arguments) : length (listen_records args) <= 1.
Proof. unfold listen_records. destruct (_ || _); cbn; lia. Qed.

Lemma device_records_one (args : Arguments) : length (device_records args) <= 1.
Proof. unfold device_records. destruct (_ || _); cbn; lia. Qed.

Lemma all_six (l : list Arguments) :
  Forall (fun args => six args = true) l ->
  length (concat (List.filter six l)) = 6 * length l.
Proof.
  intros Hall. rewrite concat_six. now rewrite filter_all.
Qed.


(** ** The flags *)

Lemma existsb_count (name : string) (names : list string) :
  existsb (String.eqb name) names =
    (0 <? length (List.filter (fun k => String.eqb k name) names))%nat.
Proof.
  induction names as [|k names IH]; [reflexivity|]. cbn.
  rewrite (String.eqb_sym k name). now destruct (String.eqb name k).
Qed.

Lemma errors_preserved (names : list string) (o : NutConfOptions) (msg : string) :
  In msg (m_errors o) -> In msg (m_errors (fold_left specify names o)).
Proof.
  intros Hin. destruct (loop_errors names o) as [new ->]. apply in_or_app. now left.
Qed.

Section Flag.
Variables (flag : NutConfOptions -> bool) (name msg : string).

Hypothesis Hflag : forall o opt,
  flag (specify o opt) = flag o || String.eqb name opt.
Hypothesis Hdup : forall o,
  flag o = true -> In msg (m_errors (specify o name)).

Lemma flag_loop (names : list string) :
  forall o,
    let o' := fold_left specify names o in
    flag o' = flag o || existsb (String.eqb name) names /\
    (flag o = true -> In name names -> In msg (m_errors o')) /\
    (2 <= length (List.filter (fun k => String.eqb k name) names) ->
     In msg (m_errors o')).
Proof.
  induction names as [|opt names IH]; intros o; cbn zeta.
  - cbn. rewrite orb_false_r. repeat split; [intros _ []|lia].
  - cbn [fold_left existsb List.filter].
    destruct (IH (specify o opt)) as (IHf & IH1 & IH2). cbn zeta in IHf, IH1, IH2.
    rewrite Hflag in IHf, IH1. split; [|split].
    + now rewrite IHf, orb_assoc.
    + intros Hf [->|Hin].
      * apply errors_preserved. now apply Hdup.
      * apply IH1; [now rewrite Hf|assumption].
    + rewrite (String.eqb_sym opt name).
      destruct (String.eqb_spec name opt) as [<-|Hne]; cbn [length]; intros Hlen.
      * apply IH1; [apply orb_true_r|].
        destruct (List.filter (fun k => String.eqb k name) names) as [|k l] eqn:Hf;
          [cbn in Hlen; lia|].
        assert (In k (List.filter (fun k => String.eqb k name) names)) as Hin
          by (rewrite Hf; now left).
        apply List.filter_In in Hin as [Hin ->%String.eqb_eq]. exact Hin.
      * now apply IH2.
Qed.

Hypothesis Hinit : forall b f, flag (upd_m_unknown f (init b)) = false.
Hypothesis Hcheck : forall s, flag (check_exclusive (check_known s)) = flag s.

Lemma flag_ctor (argv : list string) :
  let o := Options_ctor argv in
  let r := NutConfOptions_ctor argv in
  flag r = existsDouble o name /\
  (2 <= countDouble o name -> In msg (m_errors r)).
Proof.
  cbn zeta. unfold NutConfOptions_ctor, existsDouble.
  rewrite Hcheck, countDouble_wf, entries_of_length by apply wf_Options_ctor.
  destruct (check_fields (specified argv))
    as (_ & _ & _ & _ & _ & _ & _ & _ & _ & _ & new & ->).
  unfold specified, specify_double. rewrite reject_single_closed.
  set (o := upd_m_unknown _ (init (Options_ctor argv))).
  change (base o) with (Options_ctor argv). unfold stringsDouble.
  destruct (flag_loop (strings (m_double (Options_ctor argv))) o) as (Hf & _ & H2).
  cbn zeta in Hf, H2. split.
  - rewrite Hf. unfold o. now rewrite Hinit, existsb_count.
  - intros Hlen. apply in_or_app. left. now apply H2.
Qed.

End Flag.

Ltac by_cases_eqn :=
  apply specify_cases; intros;
  repeat match goal with H : _ \/ _ |- _ => destruct H end;
  subst; names_differ; unfold_branch;
  cbn [String.eqb Ascii.eqb Bool.eqb andb starts_with_s String.get];
  repeat match goal with
  | |- context [match ?p with pair _ _ => _ end] => destruct p
  | |- context [if ?c then _ else _] => destruct c eqn:?
  end;
  cbn; rewrite ?orb_false_r, ?orb_true_r; try reflexivity; try congruence.

Lemma ctor_autoconfigure (argv : list string) :
  let o := Options_ctor argv in
  let r := NutConfOptions_ctor argv in
  autoconfigure r = existsDouble o "autoconfigure" /\
  (2 <= countDouble o "autoconfigure" ->
   In "--autoconfigure option specified more than once" (m_errors r)).
Proof.
  apply (flag_ctor autoconfigure).
  - intros o opt. by_cases_eqn.
  - intros o Hf. change (specify o "autoconfigure") with (do_autoconfigure o).
    unfold do_autoconfigure. rewrite Hf. cbn. apply in_or_app. right. now left.
  - reflexivity.
  - intros s. apply (check_other_fields s).
Qed.

Lemma ctor_is_configured (argv : list string) :
  let o := Options_ctor argv in
  let r := NutConfOptions_ctor argv in
  is_configured r = existsDouble o "is-configured" /\
  (2 <= countDouble o "is-configured" ->
   In "--is-configured option specified more than once" (m_errors r)).
Proof.
  apply (flag_ctor is_configured).
  - intros o opt. by_cases_eqn.
  - intros o Hf. change (specify o "is-configured") with (do_is_configured o).
    unfold do_is_configured. rewrite Hf. cbn. apply in_or_app. right. now left.
  - reflexivity.
  - intros s. apply (check_other_fields s).
Qed.

Lemma ctor_system (argv : list string) :
  let o := Options_ctor argv in
  let r := NutConfOptions_ctor argv in
  system r = existsDouble o "system" /\
  (2 <= countDouble o "system" ->
   In "--system option specified more than once" (m_errors r)).
Proof.
  apply (flag_ctor system).
  - intros o opt. by_cases_eqn.
  - intros o Hf. change (specify o "system") with (do_system o).
    unfold do_system. rewrite Hf. cbn. apply in_or_app. right. now left.
  - reflexivity.
  - intros s. apply (check_other_fields s).
Qed.

Lemma errors_invalid (argv : list string) (msg : string) :
  In msg (m_errors (NutConfOptions_ctor argv)) -> valid (NutConfOptions_ctor argv) = false.
Proof.
  intros Hin. destruct (valid (NutConfOptions_ctor argv)) eqn:Hv; [|reflexivity].
  apply valid_clean in Hv as (_ & He & _). rewrite He in Hin. destruct Hin.
Qed.

(** The arguments that follow an option directly all go to its entry. *)
Lemma run_arguments (args : list string) :
  forall o entry,
    m_last o = Some (doubleDash, entry) ->
    Forall (fun arg => is_argument arg = true) args ->
    run o args =
      mkOptions (m_last o) (m_args o) (m_single o)
                (alter (fun e => (fst e, snd e ++ args)) entry (m_double o)).
Proof.
  unfold run. induction args as [|arg args IH]; intros o entry Hl Hall.
  - cbn. rewrite alter_same; [destruct o; reflexivity|].
    intros [k a]. cbn. now rewrite app_nil_r.
  - apply Forall_cons in Hall as [Harg Hall]. cbn [fold_left].
    rewrite step_classify. unfold is_argument in Harg.
    destruct (classify arg); try discriminate.
    rewrite (IH (addArg arg o) entry) by (rewrite ?addArg_last; assumption).
    rewrite addArg_last. unfold addArg. rewrite Hl. cbn [m_args m_single m_double].
    rewrite alter_twice. f_equal. apply alter_ext.
    intros [k a]. unfold push_back. cbn. now rewrite <- app_assoc.
Qed.

Lemma flag_store (bin name : string) (args : list string) :
  proper_name name = true ->
  Forall (fun arg => is_argument arg = true) args ->
  Options_ctor (bin :: String "-" (String "-" name) :: args) =
    mkOptions (Some (doubleDash, 0)) [] [] [(name, args)].
Proof.
  intros Hp Hall. unfold Options_ctor. cbn [tail].
  change (run Opts.empty (String "-" (String "-" name) :: args))
    with (run (step Opts.empty (String "-" (String "-" name))) args).
  rewrite step_classify, (proj2 (classify_double _ name)) by now split.
  rewrite add_double. cbn [m_double Opts.empty MultiMap.insert upper_bound take drop app fst snd m_args m_single].
  now rewrite (run_arguments args _ 0) by (reflexivity || assumption).
Qed.


(** ** The options with a value *)

Lemma specify_local_other (o : NutConfOptions) (opt : string) :
  opt <> "local" -> local (specify o opt) = local o.
Proof. intros Hne. by_cases; try reflexivity; congruence. Qed.

Lemma specify_mode_checked (o : NutConfOptions) (opt : string) :
  mode o = "" \/
  (checkMode (mode o) = true /\ getDouble (base o) "mode" 0 = Some [mode o]) ->
  mode (specify o opt) = "" \/
  (checkMode (mode (specify o opt)) = true /\
   getDouble (base (specify o opt)) "mode" 0 = Some [mode (specify o opt)]).
Proof.
  intros Hinv. rewrite specify_base.
  destruct (String.eqb_spec opt "mode") as [->|Hne];
    [|now rewrite specify_mode_other].
  change (specify o "mode") with (do_mode o). unfold do_mode, optMode, push_error.
  destruct (getDouble (base o) "mode" 0) as [[|a [|b args]]|] eqn:Hget;
    destruct (String.eqb_spec (mode o) "") as [Hm|Hm]; cbn; auto;
    try (destruct Hinv as [?|?]; [contradiction|now right]).
  destruct (checkMode a) eqn:Hc; cbn; auto.
Qed.

Lemma specify_local_first (o : NutConfOptions) (opt : string) :
  local o = "" \/ getDouble (base o) "local" 0 = Some [local o] ->
  local (specify o opt) = "" \/
  getDouble (base (specify o opt)) "local" 0 = Some [local (specify o opt)].
Proof.
  intros Hinv. rewrite specify_base.
  destruct (String.eqb_spec opt "local") as [->|Hne];
    [|now rewrite specify_local_other].
  change (specify o "local") with (do_local o). unfold do_local, optMode, push_error.
  destruct (getDouble (base o) "local" 0) as [[|a [|b args]]|] eqn:Hget;
    destruct (String.eqb_spec (local o) "") as [Hm|Hm]; cbn; auto.
Qed.

Lemma loop_invariant (P : NutConfOptions -> Prop) (names : list string) :
  (forall o opt, P o -> P (specify o opt)) ->
  forall o, P o -> P (fold_left specify names o).
Proof.
  intros Hstep. induction names as [|opt names IH]; intros o Ho; [assumption|].
  cbn [fold_left]. apply IH. now apply Hstep.
Qed.

Lemma ctor_scalars (argv : list string) :
  let o := Options_ctor argv in
  let r := NutConfOptions_ctor argv in
  (mode r = "" \/ (checkMode (mode r) = true /\ getDouble o "mode" 0 = Some [mode r])) /\
  (local r = "" \/ getDouble o "local" 0 = Some [local r]).
Proof.
  cbn zeta. rewrite <- (specified_base argv). unfold NutConfOptions_ctor.
  destruct (check_fields (specified argv)) as (_ & _ & _ & -> & _).
  destruct (check_other_fields (specified argv)) as (_ & _ & -> & _).
  unfold specified, specify_double. rewrite reject_single_closed. split.
  - apply (loop_invariant
             (fun o => mode o = "" \/
                       (checkMode (mode o) = true /\
                        getDouble (base o) "mode" 0 = Some [mode o]))).
    + apply specify_mode_checked.
    + now left.
  - apply (loop_invariant
             (fun o => local o = "" \/ getDouble (base o) "local" 0 = Some [local o])).
    + apply specify_local_first.
    + now left.
Qed.

Lemma loop_local (b : Options) (d : string) (names : list string) :
  getDouble b "local" 0 = Some [d] ->
  forall o, base o = b ->
    let o' := fold_left specify names o in
    (local o = d -> local o' = d) /\
    (local o = "" -> In "local" names -> local o' = d).
Proof.
  intros Hget. induction names as [|opt names IH]; intros o Hb; cbn zeta.
  - cbn. split; [auto|intros _ []].
  - cbn [fold_left].
    destruct (IH (specify o opt)) as [IH1 IH2]; [now rewrite specify_base|].
    cbn zeta in IH1, IH2.
    destruct (String.eqb_spec opt "local") as [->|Hne].
    + assert ((local o = d \/ local o = "") -> local (specify o "local") = d) as Hset.
      { change (specify o "local") with (do_local o). unfold do_local, optMode.
        rewrite Hb, Hget.
        destruct (String.eqb_spec (local o) "") as [Hm|Hm]; cbn; [reflexivity|].
        intros [H|H]; [exact H|contradiction]. }
      split; auto.
    + rewrite <- (specify_local_other o opt Hne). split; [auto|].
      intros Hl [Heq|Hin]; [congruence|auto].
Qed.

Lemma ctor_local (argv : list string) (d : string) :
  getDouble (Options_ctor argv) "local" 0 = Some [d] ->
  local (NutConfOptions_ctor argv) = d.
Proof.
  intros Hget. unfold NutConfOptions_ctor.
  destruct (check_other_fields (specified argv)) as (_ & _ & -> & _).
  unfold specified, specify_double. rewrite reject_single_closed.
  set (o := upd_m_unknown _ (init (Options_ctor argv))).
  change (base o) with (Options_ctor argv).
  destruct (loop_local (Options_ctor argv) d (stringsDouble (Options_ctor argv)) Hget o eq_refl)
    as [_ H].
  apply H; [reflexivity|]. eapply get_Some_key. exact Hget.
Qed.


(** ** A mode option with more than one argument *)

Lemma loop_mode_many (b : Options) (x y : string) (rest names : list string) :
  getDouble b "mode" 0 = Some (x :: y :: rest) ->
  forall o, base o = b ->
    In "mode" names -> m_errors (fold_left specify names o) <> [].
Proof.
  intros Hget. induction names as [|opt names IH]; intros o Hb Hin; [destruct Hin|].
  cbn [fold_left]. destruct (String.eqb_spec opt "mode") as [->|Hne].
  - assert (exists msg, In msg (m_errors (specify o "mode"))) as [msg Hmsg].
    { change (specify o "mode") with (do_mode o). unfold do_mode, optMode, push_error.
      rewrite Hb, Hget.
      destruct (String.eqb_spec (mode o) ""); cbn; eexists; apply in_or_app; right;
        left; reflexivity. }
    apply (errors_preserved names) in Hmsg. intros Hnil. rewrite Hnil in Hmsg.
    destruct Hmsg.
  - apply IH; [now rewrite specify_base|]. destruct Hin; congruence.
Qed.

Lemma ctor_mode_many (argv : list string) (x y : string) (rest : list string) :
  getDouble (Options_ctor argv) "mode" 0 = Some (x :: y :: rest) ->
  valid (NutConfOptions_ctor argv) = false.
Proof.
  intros Hget.
  destruct (valid (NutConfOptions_ctor argv)) eqn:Hv; [exfalso|reflexivity].
  apply valid_clean in Hv as (_ & He & _). revert He. unfold NutConfOptions_ctor.
  destruct (check_result (specified argv)) as [_ ->].
  intros [He _]%app_eq_nil. revert He.
  unfold specified, specify_double. rewrite reject_single_closed.
  apply (loop_mode_many (Options_ctor argv) x y rest); [exact Hget|reflexivity|].
  eapply get_Some_key. exact Hget.
Qed.


(** ** The error that an occurrence of a family leaves *)

Section Complaint.
Variables (set_name add_name : string)
          (set_cnt add_cnt : NutConfOptions -> nat)
          (complaint : string -> Arguments -> option string).

Hypothesis Hset : forall o opt,
  set_cnt (specify o opt) = bump set_name opt + set_cnt o.
Hypothesis Hadd : forall o opt,
  add_cnt (specify o opt) = bump add_name opt + add_cnt o.
Hypothesis Hcomplain : forall o opt args msg,
  String.eqb set_name opt || String.eqb add_name opt = true ->
  getDouble (base o) opt (if String.eqb set_name opt then set_cnt o else add_cnt o)
    = Some args ->
  complaint opt args = Some msg ->
  In msg (m_errors (specify o opt)).

Lemma complaint_loop (b : Options) (post : Map) :
  forall (pre : Map) (o : NutConfOptions),
    wf b -> m_double b = pre ++ post -> base o = b ->
    set_cnt o = length (entries_of set_name pre) ->
    add_cnt o = length (entries_of add_name pre) ->
    forall e msg,
      In e post ->
      String.eqb set_name (fst e) || String.eqb add_name (fst e) = true ->
      complaint (fst e) (snd e) = Some msg ->
      In msg (m_errors (fold_left specify (strings post) o)).
Proof.
  induction post as [|e post IH]; intros pre o Hwf Hm Hb Hs Ha e' msg Hin Hfam Hc;
    [destruct Hin|].
  cbn [strings map fold_left]. fold (strings post).
  destruct Hin as [<-|Hin].
  - apply errors_preserved.
    pose proof (entry_found b pre post e Hwf Hm) as Hget.
    assert ((if String.eqb set_name (fst e) then set_cnt o else add_cnt o) =
            length (entries_of (fst e) pre)) as Hcnt.
    { destruct (String.eqb_spec set_name (fst e)) as [<-|Hn]; [assumption|].
      cbn in Hfam. apply String.eqb_eq in Hfam. now rewrite <- Hfam. }
    rewrite <- Hcnt, <- Hb in Hget. now apply (Hcomplain o (fst e) (snd e)).
  - apply (fun H1 H2 H3 H4 =>
             IH (pre ++ [e]) (specify o (fst e)) Hwf H1 H2 H3 H4 e' msg Hin Hfam Hc).
    + now rewrite <- app_assoc.
    + now rewrite specify_base.
    + rewrite Hset, Hs, entries_of_app, length_app, entries_of_cons. unfold bump.
      rewrite (String.eqb_sym (fst e)).
      destruct (String.eqb set_name (fst e)); cbn; lia.
    + rewrite Hadd, Ha, entries_of_app, length_app, entries_of_cons. unfold bump.
      rewrite (String.eqb_sym (fst e)).
      destruct (String.eqb add_name (fst e)); cbn; lia.
Qed.

Hypothesis Hinit : forall b f,
  let o := upd_m_unknown f (init b) in
  set_cnt o = 0 /\ add_cnt o = 0.

Lemma complaint_ctor (argv : list string) (opt : string) (order : nat)
    (args : Arguments) (msg : string) :
  String.eqb set_name opt || String.eqb add_name opt = true ->
  getDouble (Options_ctor argv) opt order = Some args ->
  complaint opt args = Some msg ->
  In msg (m_errors (NutConfOptions_ctor argv)).
Proof.
  intros Hfam Hget Hc. unfold NutConfOptions_ctor.
  destruct (check_fields (specified argv))
    as (_ & _ & _ & _ & _ & _ & _ & _ & _ & _ & new & ->).
  apply in_or_app. left.
  unfold specified, specify_double. rewrite reject_single_closed.
  set (b := Options_ctor argv) in *.
  set (o := upd_m_unknown _ (init b)).
  change (base o) with b. unfold stringsDouble.
  destruct (Hinit b (fun unknown => unknown ++ map (String.append "-") (stringsSingle (base (init b)))))
    as (Hs & Ha). cbn zeta in Hs, Ha. fold o in Hs, Ha.
  pose proof (wf_Options_ctor argv) as Hwf. fold b in Hwf.
  rewrite getDouble_wf in Hget by assumption.
  apply list_elem_of_lookup_2 in Hget. unfold entries_of in Hget.
  apply list_elem_of_In, in_map_iff in Hget as (e & <- & Hin).
  apply List.filter_In in Hin as [Hin Hkey]. apply String.eqb_eq in Hkey. subst opt.
  now apply (complaint_loop b (m_double b) [] o Hwf eq_refl eq_refl Hs Ha e msg).
Qed.

End Complaint.

(** The two errors of the listen branch. *)
Lemma ctor_listen_error (argv : list string) (opt : string) (order : nat)
    (args : Arguments) :
  is_listen_opt opt = true ->
  getDouble (Options_ctor argv) opt order = Some args ->
  length args <> 1 -> length args <> 2 ->
  In ("--" ++ opt ++
      match args with
      | [] => " option requires arguments"
      | _ :: _ => " option requires 1 or 2 arguments"
      end)%string
     (m_errors (NutConfOptions_ctor argv)).
Proof.
  intros Hopt Hget H1 H2.
  apply (complaint_ctor "set-listen" "add-listen" set_listen_cnt add_listen_cnt
           (fun opt args =>
              match args with
              | [] => Some ("--" ++ opt ++ " option requires arguments")%string
              | [_] | [_; _] => None
              | _ => Some ("--" ++ opt ++ " option requires 1 or 2 arguments")%string
              end))
    with (opt := opt) (order := order) (args := args).
  - intros o name. apply (specify_counts o name).
  - intros o name. apply (specify_counts o name).
  - intros o name found msg [-> | ->]%family_opt Hfound Hmsg;
      cbn [String.eqb Ascii.eqb Bool.eqb andb] in Hfound.
    + change (specify o "set-listen") with (do_listen "set-listen" o).
      unfold do_listen, optMode, listen_cnt.
      cbn [starts_with_s String.get Ascii.eqb Bool.eqb andb].
      rewrite Hfound. unfold incr_listen_cnt, push_error.
      destruct found as [|a [|b [|c found]]]; try discriminate Hmsg;
        injection Hmsg as <-; cbn; apply in_or_app; right; now left.
    + change (specify o "add-listen") with (do_listen "add-listen" o).
      unfold do_listen, optMode, listen_cnt.
      cbn [starts_with_s String.get Ascii.eqb Bool.eqb andb].
      rewrite Hfound. unfold incr_listen_cnt, push_error.
      destruct found as [|a [|b [|c found]]]; try discriminate Hmsg;
        injection Hmsg as <-; cbn; apply in_or_app; right; now left.
  - intros b f. now split.
  - exact Hopt.
  - exact Hget.
  - destruct args as [|a [|b [|c args]]]; cbn in H1, H2; try reflexivity; lia.
Qed.


End ValidationFacts.


(** * Further facts about the program *)

Module MainFacts.
Import MultiMap Opts NutConf Stream Merge Main.
Import NutConfFacts StoreFacts ValidationFacts.

(** ** The loops that fill a list *)

(** Either every round returns and the list gains the results in order, or
    the loop ends as the first round that does not return. *)
Lemma collect_spec {A} (f : nat -> outcome A) (todo : nat) : forall i pushed,
  (exists l, collect f i todo pushed = Returns (pushed ++ l) /\ length l = todo /\
             forall k a, l !! k = Some a -> f (i + k) = Returns a) \/
  (exists k, k < todo /\ (forall j, j < k -> exists a, f (i + j) = Returns a) /\
     match f (i + k) with
     | Returns _ => False
     | Throws what => collect f i todo pushed = Throws what
     | Exits cerr status => collect f i todo pushed = Exits cerr status
     | Undefined => collect f i todo pushed = Undefined
     end).
Proof.
  induction todo as [|todo IH]; intros i pushed.
  - left. exists []. rewrite app_nil_r. repeat split. intros k a Hk. discriminate.
  - cbn [collect]. destruct (f i) as [a|what|cerr status|] eqn:Hf.
    + destruct (IH (S i) (pushed ++ [a])) as [(l & Hc & Hlen & Hl)|(k & Hk & Hbefore & Hat)].
      * left. exists (a :: l). rewrite Hc, <- app_assoc. split; [reflexivity|].
        split; [cbn; lia|]. intros [|k] b Hb.
        -- rewrite Nat.add_0_r. cbn in Hb. congruence.
        -- cbn in Hb. replace (i + S k) with (S i + k) by lia. now apply Hl.
      * right. exists (S k). split; [lia|]. split.
        -- intros [|j] Hj; [rewrite Nat.add_0_r; eauto|].
           replace (i + S j) with (S i + j) by lia. apply Hbefore. lia.
        -- replace (i + S k) with (S i + k) by lia. exact Hat.
    + right. exists 0. split; [lia|]. split; [intros j Hj; lia|].
      rewrite Nat.add_0_r, Hf. reflexivity.
    + right. exists 0. split; [lia|]. split; [intros j Hj; lia|].
      rewrite Nat.add_0_r, Hf. reflexivity.
    + right. exists 0. split; [lia|]. split; [intros j Hj; lia|].
      rewrite Nat.add_0_r, Hf. reflexivity.
Qed.

(** A loop whose rounds return or exit with status 1 does the same. *)
Lemma collect_total {A} (f : nat -> outcome A) (n : nat) :
  (forall i, i < n -> (exists a, f i = Returns a) \/ (exists cerr, f i = Exits cerr 1)) ->
  (exists l, collect f 0 n [] = Returns l /\ length l = n /\
             forall k a, l !! k = Some a -> f k = Returns a) \/
  (exists k cerr, k < n /\ collect f 0 n [] = Exits cerr 1 /\ f k = Exits cerr 1 /\
                  forall j, j < k -> exists a, f j = Returns a).
Proof.
  intros Hf. destruct (collect_spec f n 0 []) as [(l & Hc & Hlen & Hl)|(k & Hk & Hbefore & Hat)].
  - left. exists l. now rewrite Hc.
  - right. cbn [Nat.add] in Hat, Hbefore.
    destruct (Hf k Hk) as [[a Ha]|[cerr Hc]].
    + rewrite Ha in Hat. destruct Hat.
    + rewrite Hc in Hat. exists k, cerr. auto.
Qed.

(** ** [monitor] and [listenAddr] inside the bounds of the loops *)

Lemma monitor_in_range (options : NutConfOptions) (i : nat) :
  i < length (monitors options) / 6 ->
  (exists m, monitor i options = Returns m) \/
  (exists cerr, monitor i options = Exits cerr 1).
Proof.
  intros Hi. destruct (getMonitor_fields _ _ Hi) as (x0 & x1 & x2 & x3 & x4 & x5 & Hget & _).
  unfold monitor. rewrite Hget.
  destruct (parse_port x1); [|right; eexists; reflexivity].
  destruct (extract_uint x2); [left|right]; eexists; reflexivity.
Qed.

Lemma listenAddr_in_range (options : NutConfOptions) (i : nat) :
  i < length (listen_addrs options) ->
  (exists l, listenAddr i options = Returns l) \/
  (exists cerr, listenAddr i options = Exits cerr 1).
Proof.
  intros Hi. unfold listenAddr.
  destruct (_ !! i) as [spec|] eqn:Hspec; [|apply lookup_ge_None_1 in Hspec; unfold ListenAddrSpec in *; lia].
  destruct (negb _); [|left; eexists; reflexivity].
  destruct (extract_ushort _); [left|right]; eexists; reflexivity.
Qed.

(** ** The extracted number fits its type *)

Lemma digit_range (c : ascii) (d : Z) : digit c = Some d -> (0 <= d <= 9)%Z.
Proof.
  unfold digit. destruct (_ && _) eqn:H; [|discriminate]. intros [= <-].
  apply andb_true_iff in H as [H1 H2]. lia.
Qed.

Lemma digits_nonneg (s : string) : forall acc v,
  (forall a, acc = Some a -> (0 <= a)%Z) -> digits s acc = Some v -> (0 <= v)%Z.
Proof.
  induction s as [|c s IH]; intros acc v Hacc; cbn [digits].
  - intros ->. now apply Hacc.
  - destruct (digit c) as [d|] eqn:Hd.
    + apply IH. intros a [= <-]. apply digit_range in Hd.
      destruct acc as [a|]; cbn; [specialize (Hacc a eq_refl)|]; lia.
    + intros ->. now apply Hacc.
Qed.

Lemma extract_unsigned_range (bits : Z) (text : string) (v : Z) :
  (0 <= bits)%Z -> extract_unsigned bits text = Some v -> (0 <= v < 2 ^ bits)%Z.
Proof.
  intros Hbits. unfold extract_unsigned. destruct (sign (skipws text)) as [negative s].
  destruct (digits s None) as [n|] eqn:Hn; [|discriminate].
  apply digits_nonneg in Hn; [|discriminate].
  destruct (Z.leb_spec (2 ^ bits) n); [discriminate|]. intros [= <-].
  destruct negative; [|lia]. apply Z.mod_pos_bound. lia.
Qed.

(** ** How the calls end *)

Lemma remove_existing_cases (names : list string) (sections : gmap string Section) :
  remove_existing names sections = Returns sections \/
  (remove_existing names sections = Undefined /\
   exists ups, In ups names /\ ups <> "").
Proof.
  induction names as [|ups names IH]; [now left|]. cbn [remove_existing].
  destruct (String.eqb_spec ups "") as [->|Hne].
  - destruct IH as [IH|(IH & ups' & Hin & Hne)]; [now left|].
    right. split; [exact IH|]. exists ups'. split; [now right|exact Hne].
  - right. split; [reflexivity|]. exists ups. split; [now left|exact Hne].
Qed.

Lemma setDevices_cases (devices : list DeviceSpec) (keep_ex : bool)
    (ups_conf : gmap string Section) :
  setDevices devices keep_ex ups_conf = Returns (fold_left add_device devices ups_conf) \/
  (setDevices devices keep_ex ups_conf = Undefined /\ keep_ex = false /\
   exists ups, ups <> "" /\ is_Some (ups_conf !! ups)).
Proof.
  unfold setDevices. destruct keep_ex; cbn [negb]; [now left|].
  destruct (remove_existing_cases (section_names ups_conf) ups_conf)
    as [->|(-> & ups & Hin & Hne)]; [now left|].
  right. split; [reflexivity|]. split; [reflexivity|].
  exists ups. split; [exact Hne|]. now apply section_names_dom.
Qed.

Section Ends.

Variable files : Files.

Lemma call_setMonitors_ends (monitors : list Monitor) (etc : string) (keep_ex : bool) :
  call_setMonitors files monitors etc keep_ex = Returns tt \/
  exists cerr, call_setMonitors files monitors etc keep_ex = Exits cerr 1.
Proof.
  unfold call_setMonitors, source, store, bind.
  destruct (file_exists files _); cbn [negb].
  - destruct (parse_upsmon files _ _) as [config [|]]; [|right; eauto].
    cbn [fst]. destruct (write_upsmon files _ _); [left|right]; eauto.
  - cbn [fst]. destruct (write_upsmon files _ _); [left|right]; eauto.
Qed.

Lemma call_setListenAddrs_ends (listen_addrs : list Listen) (etc : string)
    (keep_ex : bool) :
  call_setListenAddrs files listen_addrs etc keep_ex = Returns tt \/
  exists cerr, call_setListenAddrs files listen_addrs etc keep_ex = Exits cerr 1.
Proof.
  unfold call_setListenAddrs, source, store, bind.
  destruct (file_exists files _); cbn [negb].
  - destruct (parse_upsd files _ _) as [config [|]]; [|right; eauto].
    cbn [fst]. destruct (write_upsd files _ _); [left|right]; eauto.
  - cbn [fst]. destruct (write_upsd files _ _); [left|right]; eauto.
Qed.

(** [setDevices] returns, exits with status 1 in [source] or [store], or
    runs into the removal loop on a sourced configuration that holds a
    section with a name. *)
Lemma call_setDevices_ends (devices : list DeviceSpec) (etc : string) (keep_ex : bool) :
  call_setDevices files devices etc keep_ex = Returns tt \/
  (exists cerr, call_setDevices files devices etc keep_ex = Exits cerr 1) \/
  (call_setDevices files devices etc keep_ex = Undefined /\ keep_ex = false /\
   exists sourced ups,
     source (file_exists files) (parse_ups files) ∅ (etc ++ "/ups.conf")%string =
       Returns sourced /\
     ups <> "" /\ is_Some (fst sourced !! ups)).
Proof.
  unfold call_setDevices.
  destruct (source (file_exists files) (parse_ups files) ∅ (etc ++ "/ups.conf")%string)
    as [sourced|what|cerr status|] eqn:Hsource.
  - cbn [bind].
    destruct (setDevices_cases devices keep_ex (fst sourced))
      as [->|(-> & Hk & ups & Hne & Hsome)].
    + cbn [bind]. unfold store. destruct (write_ups files _ _); [left|right; left]; eauto.
    + right. right. split; [reflexivity|]. split; [exact Hk|]. exists sourced, ups. auto.
  - exfalso. revert Hsource. unfold source.
    destruct (negb _); [discriminate|].
    destruct (parse_ups files _ _) as [config [|]]; discriminate.
  - right. left. revert Hsource. unfold source.
    destruct (negb _); [discriminate|].
    destruct (parse_ups files _ _) as [config [|]]; [discriminate|].
    intros [= <- <-]. cbn [bind]. eauto.
  - exfalso. revert Hsource. unfold source.
    destruct (negb _); [discriminate|].
    destruct (parse_ups files _ _) as [config [|]]; discriminate.
Qed.

(** ** The blocks of [mainx] *)

Lemma calls_cerr (lines : list string) : List.filter is_call (map Cerr lines) = [].
Proof. induction lines as [|line lines IH]; [reflexivity|exact IH]. Qed.

Lemma is_empty_false {A} (l : list A) : is_empty l = false <-> l <> [].
Proof. destruct l; cbn; split; congruence. Qed.

Lemma and_then_snd (block : list event * option finish) (rest : list event * finish) :
  snd (and_then block rest) =
    match snd block with
    | Some f => f
    | None => snd rest
    end.
Proof. now destruct block as [events [f|]]. Qed.

Lemma and_then_In (block : list event * option finish) (rest : list event * finish)
    (e : event) :
  In e (fst (and_then block rest)) -> In e (fst block) \/ In e (fst rest).
Proof.
  destruct block as [events [f|]]; cbn [and_then fst]; [now left|]. apply in_app_or.
Qed.


(** The block of the monitors does nothing; or it reads all monitors and
    calls [setMonitors], which returns or exits; or it ends the run with
    the error of the first monitor that cannot be read. *)
Lemma monitors_block_shape (options : NutConfOptions) (etc : string) :
  let n := length (monitors options) / 6 in
  let keep_ex := (0 <? add_monitor_cnt options)%nat in
  (monitors options = [] /\ monitors_block files options etc = ([], None)) \/
  (monitors options <> [] /\
   exists ms,
     collect (fun i => monitor i options) 0 n [] = Returns ms /\
     length ms = n /\
     (forall i m, ms !! i = Some m -> monitor i options = Returns m) /\
     ((call_setMonitors files ms etc keep_ex = Returns tt /\
       monitors_block files options etc = ([SetMonitors ms etc keep_ex], None)) \/
      (exists cerr,
         call_setMonitors files ms etc keep_ex = Exits cerr 1 /\
         monitors_block files options etc =
           ([SetMonitors ms etc keep_ex; Cerr cerr], Some (Exit 1))))) \/
  (monitors options <> [] /\
   exists i cerr, i < n /\
                  monitors_block files options etc = ([Cerr cerr], Some (Exit 1)) /\
                  monitor i options = Exits cerr 1 /\
                  forall j, j < i -> exists m, monitor j options = Returns m).
Proof.
  cbn zeta. unfold monitors_block.
  destruct (is_empty (monitors options)) eqn:He; cbn [negb].
  - left. apply is_empty_nil in He. now split.
  - right. apply is_empty_false in He. cbn zeta.
    destruct (collect_total (fun i => monitor i options) (length (monitors options) / 6))
      as [(ms & Hc & Hlen & Hms)|(i & cerr & Hi & Hc & Hat & Hbefore)].
    + intros i Hi. now apply monitor_in_range.
    + left. split; [exact He|]. exists ms. rewrite Hc. cbn [filled].
      split; [reflexivity|]. split; [exact Hlen|]. split; [exact Hms|].
      destruct (call_setMonitors_ends ms etc (0 <? add_monitor_cnt options)%nat)
        as [->|[cerr ->]]; [left|right; exists cerr]; now split.
    + right. split; [exact He|]. exists i, cerr. rewrite Hc. now repeat split.
Qed.

Lemma listen_block_shape (options : NutConfOptions) (etc : string) :
  let n := length (listen_addrs options) in
  let keep_ex := (0 <? add_listen_cnt options)%nat in
  (listen_addrs options = [] /\ listen_block files options etc = ([], None)) \/
  (listen_addrs options <> [] /\
   exists ls,
     collect (fun i => listenAddr i options) 0 n [] = Returns ls /\
     length ls = n /\
     (forall i l, ls !! i = Some l -> listenAddr i options = Returns l) /\
     ((call_setListenAddrs files ls etc keep_ex = Returns tt /\
       listen_block files options etc = ([SetListenAddrs ls etc keep_ex], None)) \/
      (exists cerr,
         call_setListenAddrs files ls etc keep_ex = Exits cerr 1 /\
         listen_block files options etc =
           ([SetListenAddrs ls etc keep_ex; Cerr cerr], Some (Exit 1))))) \/
  (listen_addrs options <> [] /\
   exists i cerr, i < n /\
                  listen_block files options etc = ([Cerr cerr], Some (Exit 1)) /\
                  listenAddr i options = Exits cerr 1 /\
                  forall j, j < i -> exists l, listenAddr j options = Returns l).
Proof.
  cbn zeta. unfold listen_block.
  destruct (is_empty (listen_addrs options)) eqn:He; cbn [negb].
  - left. apply is_empty_nil in He. now split.
  - right. apply is_empty_false in He. cbn zeta.
    destruct (collect_total (fun i => listenAddr i options) (length (listen_addrs options)))
      as [(ls & Hc & Hlen & Hls)|(i & cerr & Hi & Hc & Hat & Hbefore)].
    + intros i Hi. now apply listenAddr_in_range.
    + left. split; [exact He|]. exists ls. rewrite Hc. cbn [filled].
      split; [reflexivity|]. split; [exact Hlen|]. split; [exact Hls|].
      destruct (call_setListenAddrs_ends ls etc (0 <? add_listen_cnt options)%nat)
        as [->|[cerr ->]]; [left|right; exists cerr]; now split.
    + right. split; [exact He|]. exists i, cerr. rewrite Hc. now repeat split.
Qed.

Lemma devices_block_shape (options : NutConfOptions) (etc : string) :
  let keep_ex := (0 <? add_device_cnt options)%nat in
  let call := SetDevices (devices options) etc keep_ex in
  (devices options = [] /\ devices_block files options etc = ([], None)) \/
  (devices options <> [] /\
   ((call_setDevices files (devices options) etc keep_ex = Returns tt /\
     devices_block files options etc = ([call], None)) \/
    (exists cerr,
       call_setDevices files (devices options) etc keep_ex = Exits cerr 1 /\
       devices_block files options etc = ([call; Cerr cerr], Some (Exit 1))) \/
    (call_setDevices files (devices options) etc keep_ex = Undefined /\
     keep_ex = false /\
     (exists sourced ups,
        source (file_exists files) (parse_ups files) ∅ (etc ++ "/ups.conf")%string =
          Returns sourced /\
        ups <> "" /\ is_Some (fst sourced !! ups)) /\
     devices_block files options etc = ([call], Some UndefinedBehaviour)))).
Proof.
  cbn zeta. unfold devices_block.
  destruct (is_empty (devices options)) eqn:He; cbn [negb].
  - left. apply is_empty_nil in He. now split.
  - right. apply is_empty_false in He. split; [exact He|]. cbn zeta.
    destruct (call_setDevices_ends (devices options) etc (0 <? add_device_cnt options)%nat)
      as [Hc|[[cerr Hc]|(Hc & Hk & Hnamed)]]; rewrite Hc.
    + left. now split.
    + right. left. exists cerr. now split.
    + right. right. now repeat split.
Qed.

(** What each block adds to the run. *)
Lemma monitors_block_end (options : NutConfOptions) (etc : string) :
  snd (monitors_block files options etc) = None \/
  snd (monitors_block files options etc) = Some (Exit 1).
Proof.
  destruct (monitors_block_shape options etc)
    as [[_ ->]|[(_ & ms & _ & _ & _ & [[_ ->]|(cerr & _ & ->)])|(_ & i & cerr & _ & -> & _)]];
    auto.
Qed.

Lemma listen_block_end (options : NutConfOptions) (etc : string) :
  snd (listen_block files options etc) = None \/
  snd (listen_block files options etc) = Some (Exit 1).
Proof.
  destruct (listen_block_shape options etc)
    as [[_ ->]|[(_ & ls & _ & _ & _ & [[_ ->]|(cerr & _ & ->)])|(_ & i & cerr & _ & -> & _)]];
    auto.
Qed.

Lemma devices_block_end (options : NutConfOptions) (etc : string) :
  snd (devices_block files options etc) = None \/
  snd (devices_block files options etc) = Some (Exit 1) \/
  (snd (devices_block files options etc) = Some UndefinedBehaviour /\
   devices options <> [] /\ (0 <? add_device_cnt options)%nat = false /\
   call_setDevices files (devices options) etc false = Undefined /\
   exists sourced ups,
     source (file_exists files) (parse_ups files) ∅ (etc ++ "/ups.conf")%string =
       Returns sourced /\
     ups <> "" /\ is_Some (fst sourced !! ups)).
Proof.
  destruct (devices_block_shape options etc)
    as [[_ ->]|(Hne & [[_ ->]|[(cerr & _ & ->)|(Hc & Hk & Hnamed & ->)]])]; auto.
  right. right. cbn zeta in Hk. rewrite Hk in Hc. now repeat split.
Qed.

Lemma monitors_block_event (options : NutConfOptions) (etc : string) (e : event) :
  In e (fst (monitors_block files options etc)) -> is_call e = true ->
  exists ms, e = SetMonitors ms etc (0 <? add_monitor_cnt options)%nat /\
             monitors options <> [] /\
             length ms = length (monitors options) / 6 /\
             forall i m, ms !! i = Some m -> monitor i options = Returns m.
Proof.
  destruct (monitors_block_shape options etc)
    as [[_ ->]|[(Hne & ms & _ & Hlen & Hms & [[_ ->]|(cerr & _ & ->)])|
                (_ & i & cerr & _ & -> & _)]];
    cbn [fst In]; intros Hin Hcall;
    repeat match goal with
           | H : _ \/ _ |- _ => destruct H
           | H : False |- _ => destruct H
           end; subst e; try discriminate Hcall; exists ms; auto.
Qed.

Lemma listen_block_event (options : NutConfOptions) (etc : string) (e : event) :
  In e (fst (listen_block files options etc)) -> is_call e = true ->
  exists ls, e = SetListenAddrs ls etc (0 <? add_listen_cnt options)%nat /\
             listen_addrs options <> [] /\
             length ls = length (listen_addrs options) /\
             forall i l, ls !! i = Some l -> listenAddr i options = Returns l.
Proof.
  destruct (listen_block_shape options etc)
    as [[_ ->]|[(Hne & ls & _ & Hlen & Hls & [[_ ->]|(cerr & _ & ->)])|
                (_ & i & cerr & _ & -> & _)]];
    cbn [fst In]; intros Hin Hcall;
    repeat match goal with
           | H : _ \/ _ |- _ => destruct H
           | H : False |- _ => destruct H
           end; subst e; try discriminate Hcall; exists ls; auto.
Qed.

Lemma devices_block_event (options : NutConfOptions) (etc : string) (e : event) :
  In e (fst (devices_block files options etc)) -> is_call e = true ->
  e = SetDevices (devices options) etc (0 <? add_device_cnt options)%nat /\
  devices options <> [].
Proof.
  destruct (devices_block_shape options etc)
    as [[_ ->]|(Hne & [[_ ->]|[(cerr & _ & ->)|(_ & _ & _ & ->)]])];
    cbn [fst In]; intros Hin Hcall;
    repeat match goal with
           | H : _ \/ _ |- _ => destruct H
           | H : False |- _ => destruct H
           end; subst e; try discriminate Hcall; auto.
Qed.








(** How the three blocks in a row end. *)
Lemma blocks_finish (options : NutConfOptions) (etc : string) :
  let run := and_then (monitors_block files options etc)
               (and_then (listen_block files options etc)
                  (and_then (devices_block files options etc) ([], Return 0))) in
  snd run = Return 0 \/ snd run = Exit 1 \/
  (snd run = UndefinedBehaviour /\
   devices options <> [] /\ (0 <? add_device_cnt options)%nat = false /\
   call_setDevices files (devices options) etc false = Undefined /\
   exists sourced ups,
     source (file_exists files) (parse_ups files) ∅ (etc ++ "/ups.conf")%string =
       Returns sourced /\
     ups <> "" /\ is_Some (fst sourced !! ups)).
Proof.
  cbn zeta. rewrite !and_then_snd. cbn [snd].
  destruct (monitors_block_end options etc) as [-> | ->]; [|auto].
  destruct (listen_block_end options etc) as [-> | ->]; [|auto].
  destruct (devices_block_end options etc) as [->|[->|(-> & H)]]; auto.
Qed.


End Ends.

Section Program.

Variable CONFPATH : string.
Variables etc_dir_exists isConfigured : string -> bool.
Variable files : Files.

(** The five ways through [mainx]. *)
Lemma mainx_cases (bin : string) (tokens : list string) :
  let argv := bin :: tokens in
  let options := NutConfOptions_ctor argv in
  let etc := directory CONFPATH options in
  let run := mainx CONFPATH etc_dir_exists isConfigured files argv in
  (exists_ (Options_ctor argv) "help" = true /\ run = (print CONFPATH bin, Exit 0)) \/
  (exists_ (Options_ctor argv) "help" = false /\ valid options = false /\
   exists cerr, cerr <> [] /\ reportInvalid options = Reported cerr /\
                run = (map Cerr cerr ++ print CONFPATH bin, Exit 1)) \/
  (exists_ (Options_ctor argv) "help" = false /\ valid options = true /\
   etc_dir_exists etc = false /\
   run = ([Cerr ("Error: Configuration directory " ++ etc ++ " isn't available")], Exit 1)) \/
  (exists_ (Options_ctor argv) "help" = false /\ valid options = true /\
   etc_dir_exists etc = true /\ is_configured options = true /\
   run = ([Cout (if isConfigured etc then "true" else "false")],
          Exit (if isConfigured etc then 0 else 1))) \/
  (exists_ (Options_ctor argv) "help" = false /\ valid options = true /\
   etc_dir_exists etc = true /\ is_configured options = false /\
   run = and_then (monitors_block files options etc)
           (and_then (listen_block files options etc)
              (and_then (devices_block files options etc) ([], Return 0)))).
Proof.
  cbn zeta. unfold mainx. rewrite ctor_base.
  destruct (exists_ (Options_ctor (bin :: tokens)) "help"); [left; now split|right].
  destruct (valid (NutConfOptions_ctor (bin :: tokens))) eqn:Hv; cbn [negb].
  - right.
    destruct (etc_dir_exists (directory CONFPATH (NutConfOptions_ctor (bin :: tokens))));
      cbn [negb]; [right|left; now repeat split].
    destruct (is_configured (NutConfOptions_ctor (bin :: tokens)));
      [left|right]; now repeat split.
  - left. split; [reflexivity|]. split; [reflexivity|].
    unfold reportInvalid. rewrite Hv. eexists. split; [|split; reflexivity].
    destruct (invalid_reason (bin :: tokens) Hv) as [H|[H|H]]; intros Hnil;
      apply app_eq_nil in Hnil as [H1 H2]; apply app_eq_nil in H2 as [H2 H3].
    + apply map_eq_nil in H1. contradiction.
    + apply map_eq_nil in H2. contradiction.
    + apply map_eq_nil in H3. contradiction.
Qed.

End Program.

(** ** The counters and the vectors *)

(** A family whose options are not on the command line has left nothing in
    its vector. *)
Lemma counts_zero_entries (argv : list string) (opt : string) :
  countDouble (Options_ctor argv) opt = 0 ->
  entries_of opt (m_double (Options_ctor argv)) = [].
Proof.
  rewrite countDouble_wf by apply wf_Options_ctor. apply nil_length_inv.
Qed.

Lemma vectors_need_options (argv : list string) :
  let r := NutConfOptions_ctor argv in
  (monitors r <> [] -> 0 < set_monitor_cnt r + add_monitor_cnt r) /\
  (listen_addrs r <> [] -> 0 < set_listen_cnt r + add_listen_cnt r) /\
  (devices r <> [] -> 0 < set_device_cnt r + add_device_cnt r).
Proof.
  cbn zeta.
  destruct (ctor_counts argv) as (Hc1 & Hc2 & Hc3 & Hc4 & Hc5 & Hc6).
  cbn zeta in Hc1, Hc2, Hc3, Hc4, Hc5, Hc6.
  destruct (ctor_monitors argv) as [Hmon _].
  destruct (ctor_listen argv) as [Hlis _].
  destruct (ctor_devices argv) as [Hdev _].
  cbn zeta in Hmon, Hlis, Hdev.
  rewrite Hc1, Hc2, Hc3, Hc4, Hc5, Hc6.
  split; [|split]; intros Hne;
    match goal with
    | |- 0 < ?a + ?b =>
        destruct a eqn:Ha; [|lia]; destruct b eqn:Hb; [|lia]
    end;
    apply counts_zero_entries in Ha, Hb; exfalso; apply Hne.
  - now rewrite Hmon, Ha, Hb.
  - now rewrite Hlis, Ha, Hb.
  - now rewrite Hdev, Ha, Hb.
Qed.

(** ** Help on the command line *)

(** The help option, with one dash or two, exists for [mainx] and is an
    unknown option for the constructor. *)
Lemma help_written (argv : list string) :
  In "--help" (tail argv) \/ In "-help" (tail argv) ->
  exists_ (Options_ctor argv) "help" = true /\
  valid (NutConfOptions_ctor argv) = false.
Proof.
  intros Hhelp. split.
  - apply exists_started, started_positive.
    destruct Hhelp as [H|H]; eexists; (split; [exact H|]);
      apply starts_proper; auto.
  - destruct (valid (NutConfOptions_ctor argv)) eqn:Hv; [|reflexivity].
    apply valid_clean in Hv as (Hu & _). rewrite ctor_unknown in Hu.
    apply app_eq_nil in Hu as [Hs Hd]. apply map_eq_nil in Hs, Hd.
    destruct Hhelp as [H|H].
    + assert (In "help" (List.filter (fun opt => negb (is_known opt))
                           (stringsDouble (Options_ctor argv)))) as Hin.
      { apply List.filter_In. split; [|reflexivity]. apply stored_double_name. now split. }
      rewrite Hd in Hin. destruct Hin.
    + assert (In "help" (stringsSingle (Options_ctor argv))) as Hin
        by (apply stored_single_name; now split).
      rewrite Hs in Hin. destruct Hin.
Qed.

(** ** The list merges *)

Lemma fold_push {A} (new : list A) : forall existing,
  fold_left (fun conf x => conf ++ [x]) new existing = existing ++ new.
Proof.
  induction new as [|x new IH]; intros existing; cbn [fold_left].
  - now rewrite app_nil_r.
  - rewrite IH, <- app_assoc. reflexivity.
Qed.

Lemma setMonitors_closed (monitors : list Monitor) (keep_ex : bool)
    (upsmon_conf : list Monitor) :
  setMonitors monitors keep_ex upsmon_conf =
    (if keep_ex then upsmon_conf else []) ++ monitors.
Proof. unfold setMonitors. rewrite fold_push. now destruct keep_ex. Qed.

Lemma setListenAddrs_closed (listen_addrs : list Listen) (keep_ex : bool)
    (upsd_conf : list Listen) :
  setListenAddrs listen_addrs keep_ex upsd_conf =
    (if keep_ex then upsd_conf else []) ++ listen_addrs.
Proof. unfold setListenAddrs. rewrite fold_push. now destruct keep_ex. Qed.

(** ** The calls of a run *)

Section Calls.

Variable CONFPATH : string.
Variables etc_dir_exists isConfigured : string -> bool.
Variable files : Files.

Lemma print_no_call (bin : string) (e : event) :
  In e (print CONFPATH bin) -> is_call e = false.
Proof. unfold print. intros (line & <- & _)%in_map_iff. reflexivity. Qed.

(** A call is made only after every check has passed, with the directory
    that was checked, and it is one of the three calls of the blocks. *)
Lemma call_in_run (bin : string) (tokens : list string) (e : event) :
  let argv := bin :: tokens in
  let options := NutConfOptions_ctor argv in
  let etc := directory CONFPATH options in
  In e (fst (mainx CONFPATH etc_dir_exists isConfigured files argv)) -> is_call e = true ->
  (exists_ (Options_ctor argv) "help" = false /\ valid options = true /\
   etc_dir_exists etc = true /\ is_configured options = false) /\
  ((exists ms, e = SetMonitors ms etc (0 <? add_monitor_cnt options)%nat /\
               monitors options <> [] /\
               length ms = length (monitors options) / 6 /\
               forall i m, ms !! i = Some m -> monitor i options = Returns m) \/
   (exists ls, e = SetListenAddrs ls etc (0 <? add_listen_cnt options)%nat /\
               listen_addrs options <> [] /\
               length ls = length (listen_addrs options) /\
               forall i l, ls !! i = Some l -> listenAddr i options = Returns l) \/
   (e = SetDevices (devices options) etc (0 <? add_device_cnt options)%nat /\
    devices options <> [])).
Proof.
  cbn zeta. intros Hin Hcall.
  destruct (mainx_cases CONFPATH etc_dir_exists isConfigured files bin tokens)
    as [[_ Hrun]|[(_ & _ & cerr & _ & _ & Hrun)|[(_ & _ & _ & Hrun)|
        [(_ & _ & _ & _ & Hrun)|(Hhelp & Hv & Hdir & Hq & Hrun)]]]];
    cbn zeta in Hrun; rewrite Hrun in Hin; clear Hrun.
  - cbn [fst] in Hin. apply print_no_call in Hin. congruence.
  - cbn [fst] in Hin.
    apply in_app_or in Hin as [(line & <- & _)%in_map_iff|Hin]; [discriminate|].
    apply print_no_call in Hin. congruence.
  - destruct Hin as [<-|[]]. discriminate.
  - destruct Hin as [<-|[]]. discriminate.
  - split; [repeat split; assumption|].
    remember (NutConfOptions_ctor (bin :: tokens)) as options eqn:Hoptions.
    remember (directory CONFPATH options) as etc eqn:Hetc.
    clear Hoptions Hetc Hhelp Hv Hdir Hq.
    destruct (and_then_In _ _ _ Hin) as [H1|H1];
      [left; exact (monitors_block_event files options etc e H1 Hcall)|].
    destruct (and_then_In _ _ _ H1) as [H2|H2];
      [right; left; exact (listen_block_event files options etc e H2 Hcall)|].
    destruct (and_then_In _ _ _ H2) as [H3|[]].
    right. right. exact (devices_block_event files options etc e H3 Hcall).
Qed.

End Calls.

End MainFacts.


(** * Further properties of the code *)

Import StoreFacts.

(** X1.  The arguments of the binary itself are the argument tokens written
    before the first option and after each double dash up to the next
    option, in that order.  A command line that starts with an option and
    has no double dash has none. *)
Theorem top_level_arguments_as_written (argv : list string) :
  get_args (Options_ctor argv) = written_top true (tail argv) /\
  (forall first rest,
     tail argv = first :: rest -> is_option first = true -> ~ In "--" rest ->
     get_args (Options_ctor argv) = []).
Proof.
  unfold get_args, Options_ctor. rewrite run_args. cbn [m_args Opts.empty no_current m_last app].
  split; [reflexivity|]. intros first rest -> Hopt Hno. cbn [written_top].
  unfold is_option in Hopt.
  destruct (classify first); try discriminate; now apply written_top_attached.
Qed.

Lemma top_level_arguments_as_written_witness :
  let argv := ["nutconf"; "--local"; "dir"; "stray"; "--system"] in
  (tail argv = "--local" :: ["dir"; "stray"; "--system"] /\
   is_option "--local" = true /\ ~ In "--" ["dir"; "stray"; "--system"]) /\
  get_args (Options_ctor argv) = [].
Proof.
  cbv zeta.
  assert (~ In "--" ["dir"; "stray"; "--system"]) as Hno
    by (cbn; intuition discriminate).
  split; [now repeat split|].
  destruct (top_level_arguments_as_written
              ["nutconf"; "--local"; "dir"; "stray"; "--system"]) as [_ H].
  exact (H "--local" ["dir"; "stray"; "--system"] eq_refl eq_refl Hno).
Defined.

(** X2.  Every argument token of the command line is stored exactly once,
    as an argument of the binary or of one occurrence; option tokens and
    double dashes are stored in no argument list. *)
Theorem arguments_stored_once (argv : list string) :
  Permutation (all_args (Options_ctor argv)) (List.filter is_argument (tail argv)).
Proof.
  unfold Options_ctor. rewrite all_args_run by apply wf_empty. reflexivity.
Qed.

(** X3.  The lists of option names hold one name for each option token, in
    the order of the keys and not of the command line; [strings()] is the
    list of the single-dashed names followed by the list of the
    double-dashed ones. *)
Theorem option_names_sorted (argv : list string) :
  let o := Options_ctor argv in
  Permutation (stringsSingle o) (omap single_name (tail argv)) /\
  Permutation (stringsDouble o) (omap double_name (tail argv)) /\
  StronglySorted (fun a b => String.ltb b a = false) (stringsSingle o) /\
  StronglySorted (fun a b => String.ltb b a = false) (stringsDouble o) /\
  length (Options_strings o) = length (List.filter is_option (tail argv)) /\
  Options_strings o = stringsSingle o ++ stringsDouble o /\
  Permutation (firstn (length (omap single_name (tail argv))) (Options_strings o))
              (omap single_name (tail argv)) /\
  Permutation (skipn (length (omap single_name (tail argv))) (Options_strings o))
              (omap double_name (tail argv)).
Proof.
  cbn zeta. destruct (names_written argv) as [Hs Hd]. cbn zeta in Hs, Hd.
  destruct (wf_Options_ctor argv) as (Hss & Hsd & _).
  split; [exact Hs|]. split; [exact Hd|].
  split; [now apply sorted_strings|]. split; [now apply sorted_strings|].
  split; [unfold Options_strings; rewrite length_app, Hs, Hd; apply option_count|].
  split; [reflexivity|].
  unfold Options_strings. rewrite <- (Permutation_length Hs).
  rewrite firstn_app, firstn_all, Nat.sub_diag, firstn_0, app_nil_r.
  rewrite skipn_app, skipn_all, Nat.sub_diag, skipn_0, app_nil_l.
  split; assumption.
Qed.

(** X4.  A stored option name is never empty and never starts with a dash,
    and with its dashes put back it is a token of the command line; the
    other way round, each such token is stored under its name. *)
Theorem stored_names_are_tokens (argv : list string) (name : string) :
  (In name (stringsSingle (Options_ctor argv)) <->
   proper_name name = true /\ In (String "-" name) (tail argv)) /\
  (In name (stringsDouble (Options_ctor argv)) <->
   proper_name name = true /\ In (String "-" (String "-" name)) (tail argv)).
Proof. split; [apply stored_single_name|apply stored_double_name]. Qed.

(** X5.  For a name that is not empty and does not start with a dash,
    [exists] answers true exactly when the name is written on the command
    line with one dash or with two; the combined [count], being a [bool],
    gives the same answer.  No other name exists. *)
Theorem exists_iff_written (argv : list string) (opt : string) :
  (proper_name opt = true ->
   (exists_ (Options_ctor argv) opt = true <->
    In (String "-" opt) (tail argv) \/ In (String "-" (String "-" opt)) (tail argv))) /\
  (exists_ (Options_ctor argv) opt = true -> proper_name opt = true) /\
  Opts.count (Options_ctor argv) opt = exists_ (Options_ctor argv) opt.
Proof.
  split; [|split].
  - intros Hp. rewrite exists_started, started_positive. split.
    + intros (arg & Hin & Hs). apply (starts_proper opt arg Hp) in Hs as [->| ->]; auto.
    + intros [Hin|Hin]; eexists; (split; [exact Hin|]); apply starts_proper; auto.
  - rewrite exists_started, started_positive. intros (arg & _ & Hs).
    unfold starts in Hs. destruct (classify arg) eqn:Hc; try discriminate;
      apply String.eqb_eq in Hs; subst.
    + now apply classify_single in Hc.
    + now apply classify_double in Hc.
  - unfold Opts.count, exists_, existsSingle, existsDouble.
    destruct (countSingle (Options_ctor argv) opt), (countDouble (Options_ctor argv) opt);
      reflexivity.
Qed.

Lemma exists_iff_written_witness :
  proper_name "help" = true /\
  exists_ (Options_ctor ["nutconf"; "--mode"; "none"; "-help"]) "help" = true.
Proof.
  assert (proper_name "help" = true) as Hp by reflexivity.
  split; [exact Hp|].
  destruct (exists_iff_written ["nutconf"; "--mode"; "none"; "-help"] "help") as [H _].
  apply (H Hp). left. cbn. auto.
Defined.

(** X6.  [getSingle] and [getDouble] succeed exactly for the orders below
    the count of the option, and [getSingle] with order [k] gives the
    arguments written after the [k]-th single-dashed occurrence of the
    option on the command line. *)
Theorem lookup_by_order (argv : list string) (opt : string) (order : nat) :
  let o := Options_ctor argv in
  (is_Some (getSingle o opt order) <-> order < countSingle o opt) /\
  (is_Some (getDouble o opt order) <-> order < countDouble o opt) /\
  getSingle o opt order = written_single opt (tail argv) !! order /\
  countSingle o opt = length (written_single opt (tail argv)).
Proof.
  cbn zeta. pose proof (wf_Options_ctor argv) as Hwf.
  rewrite getSingle_wf, getDouble_wf, countSingle_wf, countDouble_wf by assumption.
  rewrite !lookup_lt_is_Some.
  assert (entries_of opt (m_single (Options_ctor argv)) = written_single opt (tail argv))
    as -> by (unfold Options_ctor; now rewrite single_run_written by apply wf_empty).
  now repeat split.
Qed.

Import ValidationFacts.

(** X7.  The unknown options are the single-dashed options, each with its
    dash, followed by the double-dashed options whose name is none of the
    eleven known ones, each with its two dashes; every one of them is a
    token of the command line as it was typed.  The constructor knows no
    help option: with --help on the command line the result is not valid. *)
Theorem unknown_options_reported (argv : list string) :
  let o := Options_ctor argv in
  let r := NutConfOptions_ctor argv in
  m_unknown r =
    map (String.append "-") (stringsSingle o) ++
    map (String.append "--")
        (List.filter (fun opt => negb (is_known opt)) (stringsDouble o)) /\
  (forall unknown, In unknown (m_unknown r) -> In unknown (tail argv)) /\
  (forall name, proper_name name = true -> In (String "-" name) (tail argv) ->
                In (String "-" name) (m_unknown r)) /\
  (In "--help" (tail argv) -> In "--help" (m_unknown r) /\ valid r = false).
Proof.
  cbn zeta. rewrite ctor_unknown.
  assert (forall name, proper_name name = true -> In (String "-" name) (tail argv) ->
            In (String "-" name)
               (map (String.append "-") (stringsSingle (Options_ctor argv)) ++
                map (String.append "--")
                  (List.filter (fun opt => negb (is_known opt))
                     (stringsDouble (Options_ctor argv))))) as Hsingle.
  { intros name Hp Hin. apply in_or_app. left.
    apply (in_map (String.append "-") _ name). apply stored_single_name. now split. }
  split; [reflexivity|]. split; [|split; [exact Hsingle|]].
  - intros unknown [Hin|Hin]%in_app_or; apply in_map_iff in Hin as (name & <- & Hin).
    + now apply stored_single_name in Hin.
    + apply List.filter_In in Hin as [Hin _]. now apply stored_double_name in Hin.
  - intros Hhelp.
    assert (In "--help"
              (map (String.append "-") (stringsSingle (Options_ctor argv)) ++
               map (String.append "--")
                 (List.filter (fun opt => negb (is_known opt))
                    (stringsDouble (Options_ctor argv))))) as Hin.
    { apply in_or_app. right. apply (in_map (String.append "--") _ "help").
      apply List.filter_In. split; [|reflexivity].
      apply stored_double_name. now split. }
    split; [exact Hin|]. rewrite <- ctor_unknown in Hin.
    destruct (valid (NutConfOptions_ctor argv)) eqn:Hv; [|reflexivity].
    apply valid_clean in Hv as (Hu & _). rewrite Hu in Hin. destruct Hin.
Qed.

Lemma unknown_options_reported_witness :
  let argv := ["nutconf"; "--mode"; "none"; "--help"] in
  In "--help" (tail argv) /\
  In "--help" (m_unknown (NutConfOptions_ctor argv)) /\
  valid (NutConfOptions_ctor argv) = false.
Proof.
  cbv zeta.
  assert (In "--help" (tail ["nutconf"; "--mode"; "none"; "--help"])) as Hin
    by (cbn; auto).
  split; [exact Hin|].
  destruct (unknown_options_reported ["nutconf"; "--mode"; "none"; "--help"])
    as (_ & _ & _ & H).
  exact (H Hin).
Defined.

(** X8.  The listen addresses are made from the occurrences of add-listen
    and then of set-listen, each group in the order of the command line:
    an occurrence with one argument gives the address with an empty port,
    one with two arguments gives address and port, and any other gives no
    address and leaves its error in the error list: that the option
    requires arguments when it has none, that it requires 1 or 2 arguments
    when it has more. *)
Theorem listen_occurrences_collected (argv : list string) :
  let o := Options_ctor argv in
  let r := NutConfOptions_ctor argv in
  listen_addrs r =
    concat (map listen_records (written_double "add-listen" (tail argv))) ++
    concat (map listen_records (written_double "set-listen" (tail argv))) /\
  (forall addr, listen_records [addr] = [(addr, "")]) /\
  (forall addr port, listen_records [addr; port] = [(addr, port)]) /\
  (forall args, length args <> 1 -> length args <> 2 -> listen_records args = []) /\
  (forall opt order args,
     is_listen_opt opt = true -> getDouble o opt order = Some args ->
     length args <> 1 -> length args <> 2 -> valid r = false) /\
  (forall opt order args,
     is_listen_opt opt = true -> getDouble o opt order = Some args ->
     length args <> 1 -> length args <> 2 ->
     In ("--" ++ opt ++
         match args with
         | [] => " option requires arguments"
         | _ :: _ => " option requires 1 or 2 arguments"
         end)%string
        (m_errors r)).
Proof.
  cbn zeta. pose proof (wf_Options_ctor argv) as Hwf.
  destruct (ctor_listen argv) as [Hl Herr]. cbn zeta in Hl, Herr.
  rewrite <- !occurrences_written, !occurrences_wf by assumption.
  assert (forall args, length args <> 1 -> length args <> 2 -> listen_records args = [])
    as Hnone.
  { intros [|a [|b [|c args]]] H1 H2; cbn in *; try reflexivity; lia. }
  split; [exact Hl|]. split; [reflexivity|]. split; [reflexivity|]. split; [exact Hnone|].
  split; [|intros opt order args; apply ctor_listen_error].
  intros opt order args Hopt Hget H1 H2.
  destruct (valid (NutConfOptions_ctor argv)) eqn:Hv; [|reflexivity].
  apply valid_clean in Hv as (_ & He & _). exfalso. apply Herr; [|exact He].
  rewrite getDouble_wf in Hget by assumption.
  apply Exists_exists. exists args. split; [|now apply Hnone].
  apply list_elem_of_In, in_or_app.
  apply list_elem_of_lookup_2, list_elem_of_In in Hget.
  apply family_opt in Hopt as [-> | ->]; auto.
Qed.

Lemma listen_occurrences_collected_witness :
  let argv := ["nutconf"; "--set-listen"; "::1"; "3493"; "extra"; "--set-listen"; "10.0.0.1"] in
  (is_listen_opt "set-listen" = true /\
   getDouble (Options_ctor argv) "set-listen" 0 = Some ["::1"; "3493"; "extra"] /\
   length ["::1"; "3493"; "extra"] <> 1 /\ length ["::1"; "3493"; "extra"] <> 2) /\
  valid (NutConfOptions_ctor argv) = false /\
  In "--set-listen option requires 1 or 2 arguments" (m_errors (NutConfOptions_ctor argv)).
Proof.
  cbv zeta.
  assert (getDouble
            (Options_ctor ["nutconf"; "--set-listen"; "::1"; "3493"; "extra";
                           "--set-listen"; "10.0.0.1"])
            "set-listen" 0 = Some ["::1"; "3493"; "extra"]) as Hget
    by (vm_compute; reflexivity).
  assert (length ["::1"; "3493"; "extra"] <> 1) as H1 by (cbn; lia).
  assert (length ["::1"; "3493"; "extra"] <> 2) as H2 by (cbn; lia).
  split; [now repeat split|].
  destruct (listen_occurrences_collected
              ["nutconf"; "--set-listen"; "::1"; "3493"; "extra";
               "--set-listen"; "10.0.0.1"]) as (_ & _ & _ & _ & Hv & He).
  split; [exact (Hv "set-listen" 0 _ eq_refl Hget H1 H2)|].
  exact (He "set-listen" 0 _ eq_refl Hget H1 H2).
Defined.

(** X9.  The device specifications are made from the occurrences of
    add-device and then of set-device, each group in the order of the
    command line: three arguments give id, driver and port with an empty
    description, a fourth argument is the description, and an occurrence
    with fewer than three or more than four arguments gives no device and
    makes the result invalid. *)
Theorem device_occurrences_collected (argv : list string) :
  let o := Options_ctor argv in
  let r := NutConfOptions_ctor argv in
  devices r =
    concat (map device_records (written_double "add-device" (tail argv))) ++
    concat (map device_records (written_double "set-device" (tail argv))) /\
  (forall i d p, device_records [i; d; p] = [mkDeviceSpec i d p ""]) /\
  (forall i d p t, device_records [i; d; p; t] = [mkDeviceSpec i d p t]) /\
  (forall args, length args < 3 \/ 4 < length args -> device_records args = []) /\
  (forall opt order args,
     is_device_opt opt = true -> getDouble o opt order = Some args ->
     length args < 3 \/ 4 < length args -> valid r = false).
Proof.
  cbn zeta. pose proof (wf_Options_ctor argv) as Hwf.
  destruct (ctor_devices argv) as [Hd Herr]. cbn zeta in Hd, Herr.
  rewrite <- !occurrences_written, !occurrences_wf by assumption.
  assert (forall args, length args < 3 \/ 4 < length args -> device_records args = [])
    as Hnone.
  { intros [|a [|b [|c [|d [|e args]]]]] H; cbn in *; try reflexivity; lia. }
  split; [exact Hd|]. split; [reflexivity|]. split; [reflexivity|]. split; [exact Hnone|].
  intros opt order args Hopt Hget Hlen.
  destruct (valid (NutConfOptions_ctor argv)) eqn:Hv; [|reflexivity].
  apply valid_clean in Hv as (_ & He & _). exfalso. apply Herr; [|exact He].
  rewrite getDouble_wf in Hget by assumption.
  apply Exists_exists. exists args. split; [|now apply Hnone].
  apply list_elem_of_In, in_or_app.
  apply list_elem_of_lookup_2, list_elem_of_In in Hget.
  apply family_opt in Hopt as [-> | ->]; auto.
Qed.

Lemma device_occurrences_collected_witness :
  let argv := ["nutconf"; "--add-device"; "ups1"; "usbhid-ups"] in
  (is_device_opt "add-device" = true /\
   getDouble (Options_ctor argv) "add-device" 0 = Some ["ups1"; "usbhid-ups"] /\
   (length ["ups1"; "usbhid-ups"] < 3 \/ 4 < length ["ups1"; "usbhid-ups"])) /\
  valid (NutConfOptions_ctor argv) = false.
Proof.
  cbv zeta.
  assert (getDouble (Options_ctor ["nutconf"; "--add-device"; "ups1"; "usbhid-ups"])
            "add-device" 0 = Some ["ups1"; "usbhid-ups"]) as Hget
    by (vm_compute; reflexivity).
  assert (length ["ups1"; "usbhid-ups"] < 3 \/ 4 < length ["ups1"; "usbhid-ups"]) as Hlen
    by (left; cbn; lia).
  split; [now repeat split|].
  destruct (device_occurrences_collected
              ["nutconf"; "--add-device"; "ups1"; "usbhid-ups"]) as (_ & _ & _ & _ & H).
  exact (H "add-device" 0 _ eq_refl Hget Hlen).
Defined.

(** X10.  In a valid result nothing the command line asked for is dropped:
    every monitor occurrence has given its six values, every listen
    occurrence an address and every device occurrence a device, and of the
    set- and the add- form of a family only one was used. *)
Theorem valid_keeps_every_occurrence (argv : list string) :
  let r := NutConfOptions_ctor argv in
  valid r = true ->
  length (monitors r) = 6 * (set_monitor_cnt r + add_monitor_cnt r) /\
  length (listen_addrs r) = set_listen_cnt r + add_listen_cnt r /\
  length (devices r) = set_device_cnt r + add_device_cnt r /\
  (set_monitor_cnt r = 0 \/ add_monitor_cnt r = 0) /\
  (set_listen_cnt r = 0 \/ add_listen_cnt r = 0) /\
  (set_device_cnt r = 0 \/ add_device_cnt r = 0).
Proof.
  cbn zeta. intros Hv. pose proof (wf_Options_ctor argv) as Hwf.
  apply valid_clean in Hv as (_ & He & _ & Hm & Hl & Hd).
  apply both_false in Hm, Hl, Hd.
  destruct (ctor_counts argv) as (Hc1 & Hc2 & Hc3 & Hc4 & Hc5 & Hc6).
  cbn zeta in Hc1, Hc2, Hc3, Hc4, Hc5, Hc6.
  rewrite !countDouble_wf in * by assumption.
  destruct (ctor_monitors argv) as [Hmon Hmerr].
  destruct (ctor_listen argv) as [Hlis Hlerr].
  destruct (ctor_devices argv) as [Hdev Hderr].
  cbn zeta in Hmon, Hmerr, Hlis, Hlerr, Hdev, Hderr.
  assert (forall opt, is_monitor_opt opt = true ->
            Forall (fun args => six args = true)
                   (entries_of opt (m_double (Options_ctor argv)))) as Hsix.
  { intros opt Hopt. apply Forall_forall. intros args Hin.
    destruct (six args) eqn:Hs; [reflexivity|]. exfalso.
    unfold entries_of in Hin. apply list_elem_of_In, in_map_iff in Hin as (e & <- & Hin).
    apply List.filter_In in Hin as [Hin Hkey]. apply String.eqb_eq in Hkey. subst opt.
    specialize (Hmerr e Hin Hopt Hs). rewrite He in Hmerr. destruct Hmerr. }
  repeat split; try assumption.
  - rewrite Hmon, length_app, !all_six by (apply Hsix; reflexivity).
    rewrite Hc1, Hc2. lia.
  - rewrite Hlis, length_app, Hc3, Hc4.
    rewrite !(all_produce listen_records) by
      (apply listen_records_one || (intros H; apply Hlerr; [|exact He];
       apply Exists_app; auto)).
    lia.
  - rewrite Hdev, length_app, Hc5, Hc6.
    rewrite !(all_produce device_records) by
      (apply device_records_one || (intros H; apply Hderr; [|exact He];
       apply Exists_app; auto)).
    lia.
Qed.

Lemma valid_keeps_every_occurrence_witness :
  let r := NutConfOptions_ctor
             ["nutconf"; "--add-listen"; "::1"; "--add-listen"; "10.0.0.1"; "3493";
              "--set-device"; "ups1"; "usbhid-ups"; "auto"] in
  valid r = true /\
  length (listen_addrs r) = set_listen_cnt r + add_listen_cnt r.
Proof.
  cbv zeta.
  assert (valid (NutConfOptions_ctor
             ["nutconf"; "--add-listen"; "::1"; "--add-listen"; "10.0.0.1"; "3493";
              "--set-device"; "ups1"; "usbhid-ups"; "auto"]) = true) as Hv
    by (vm_compute; reflexivity).
  split; [exact Hv|].
  destruct (valid_keeps_every_occurrence _ Hv) as (_ & H & _). exact H.
Defined.

(** X13.  [reportInvalid] throws exactly when the options are valid.  For
    invalid options it writes one line for each unknown option, then one
    for each error, then one for each argument of the binary itself, and
    that is at least one line. *)
Theorem report_names_a_reason (argv : list string) :
  let r := NutConfOptions_ctor argv in
  (reportInvalid r = LogicError "No invalid options to report" <-> valid r = true) /\
  (valid r = false ->
   exists cerr,
     reportInvalid r = Reported cerr /\ cerr <> [] /\
     length cerr =
       length (m_unknown r) + length (m_errors r) + length (get_args (base r)) /\
     cerr =
       map (fun unknown => "Unknown option: " ++ unknown)%string (m_unknown r) ++
       map (fun error => "Option error: " ++ error)%string (m_errors r) ++
       map (fun arg => "Unexpected argument: " ++ arg)%string (get_args (Options_ctor argv))).
Proof.
  cbn zeta. unfold reportInvalid. split.
  - destruct (valid (NutConfOptions_ctor argv)); split; congruence.
  - intros Hv. rewrite Hv. eexists. split; [reflexivity|].
    split; [|split; [rewrite !length_app, !length_map; lia|now rewrite ctor_base]].
    destruct (invalid_reason argv Hv) as [H|[H|H]]; intros Hnil;
      apply app_eq_nil in Hnil as [H1 H2]; apply app_eq_nil in H2 as [H2 H3].
    + apply map_eq_nil in H1. contradiction.
    + apply map_eq_nil in H2. contradiction.
    + apply map_eq_nil in H3. contradiction.
Qed.

Lemma report_names_a_reason_witness :
  let r := NutConfOptions_ctor ["nutconf"; "stray"] in
  valid r = false /\
  reportInvalid r = Reported ["Unexpected argument: stray"].
Proof.
  cbv zeta.
  assert (valid (NutConfOptions_ctor ["nutconf"; "stray"]) = false) as Hv
    by (vm_compute; reflexivity).
  split; [exact Hv|].
  destruct (report_names_a_reason ["nutconf"; "stray"]) as [_ H].
  destruct (H Hv) as (cerr & -> & _ & _ & ->). vm_compute. reflexivity.
Defined.

(** X11.  Each of the three flags is set exactly when its option is on the
    command line; giving it twice or more is an error that makes the
    result invalid.  What follows a flag as its arguments is not looked at:
    a flag with arguments, alone on the command line, is valid. *)
Theorem flags_ignore_their_arguments (argv : list string) :
  let o := Options_ctor argv in
  let r := NutConfOptions_ctor argv in
  autoconfigure r = existsDouble o "autoconfigure" /\
  is_configured r = existsDouble o "is-configured" /\
  system r = existsDouble o "system" /\
  (2 <= countDouble o "autoconfigure" \/ 2 <= countDouble o "is-configured" \/
   2 <= countDouble o "system" -> valid r = false) /\
  (forall bin flag args,
     In flag ["autoconfigure"; "is-configured"; "system"] ->
     Forall (fun arg => is_argument arg = true) args ->
     let r' := NutConfOptions_ctor (bin :: String "-" (String "-" flag) :: args) in
     valid r' = true /\ m_errors r' = [] /\
     (autoconfigure r' || is_configured r' || system r') = true).
Proof.
  cbn zeta.
  destruct (ctor_autoconfigure argv) as [Ha Ha2], (ctor_is_configured argv) as [Hi Hi2],
    (ctor_system argv) as [Hs Hs2].
  cbn zeta in Ha, Ha2, Hi, Hi2, Hs, Hs2.
  split; [exact Ha|]. split; [exact Hi|]. split; [exact Hs|]. split.
  - intros [H|[H|H]]; eapply errors_invalid; eauto.
  - intros bin flag args Hflag Hargs. cbn [In] in Hflag.
    unfold NutConfOptions_ctor, specified.
    destruct Hflag as [<-|[<-|[<-|[]]]];
      rewrite flag_store by (reflexivity || assumption); now repeat split.
Qed.

Lemma flags_ignore_their_arguments_witness :
  let argv := ["nutconf"; "--system"; "--mode"; "none"; "--system"] in
  (2 <= countDouble (Options_ctor argv) "autoconfigure" \/
   2 <= countDouble (Options_ctor argv) "is-configured" \/
   2 <= countDouble (Options_ctor argv) "system") /\
  valid (NutConfOptions_ctor argv) = false.
Proof.
  cbv zeta.
  assert (2 <= countDouble (Options_ctor ["nutconf"; "--system"; "--mode"; "none"; "--system"])
                 "autoconfigure" \/
          2 <= countDouble (Options_ctor ["nutconf"; "--system"; "--mode"; "none"; "--system"])
                 "is-configured" \/
          2 <= countDouble (Options_ctor ["nutconf"; "--system"; "--mode"; "none"; "--system"])
                 "system") as Htwice
    by (right; right; vm_compute; lia).
  split; [exact Htwice|].
  destruct (flags_ignore_their_arguments
              ["nutconf"; "--system"; "--mode"; "none"; "--system"])
    as (_ & _ & _ & H & _).
  exact (H Htwice).
Defined.

(** X12.  The mode, when it is set, is one of the six modes, it is the
    single argument of the first --mode on the command line and it is what
    [getMode] returns; the directory of --local, when it is set, is the
    single argument of the first --local.  A first --local with exactly one
    argument always sets the directory to that argument. *)
Theorem scalar_values_from_first_occurrence (argv : list string) :
  let o := Options_ctor argv in
  let r := NutConfOptions_ctor argv in
  (mode r <> "" ->
   checkMode (mode r) = true /\ getDouble o "mode" 0 = Some [mode r] /\
   getMode r = mode r) /\
  (local r <> "" -> getDouble o "local" 0 = Some [local r]) /\
  (forall directory, getDouble o "local" 0 = Some [directory] -> local r = directory).
Proof.
  cbn zeta. destruct (ctor_scalars argv) as [Hm Hl]. cbn zeta in Hm, Hl.
  split; [|split].
  - intros Hne. destruct Hm as [Hm|[Hc Hget]]; [contradiction|].
    split; [exact Hc|]. split; [exact Hget|].
    unfold getMode, optMode. rewrite ctor_base, Hget. reflexivity.
  - intros Hne. destruct Hl as [Hl|Hl]; [contradiction|exact Hl].
  - intros directory. apply ctor_local.
Qed.

Lemma scalar_values_from_first_occurrence_witness :
  let argv := ["nutconf"; "--local"; "/etc/nut"; "--mode"; "netserver"] in
  getDouble (Options_ctor argv) "local" 0 = Some ["/etc/nut"] /\
  local (NutConfOptions_ctor argv) = "/etc/nut".
Proof.
  cbv zeta.
  assert (getDouble (Options_ctor ["nutconf"; "--local"; "/etc/nut"; "--mode"; "netserver"])
            "local" 0 = Some ["/etc/nut"]) as Hget by (vm_compute; reflexivity).
  split; [exact Hget|].
  destruct (scalar_values_from_first_occurrence
              ["nutconf"; "--local"; "/etc/nut"; "--mode"; "netserver"]) as (_ & _ & H).
  exact (H _ Hget).
Defined.

Import Main MainFacts.

(** X14.  The loop of [mainx] that reads the monitors stays inside the
    vector, whatever the options hold: below a sixth of its length
    [getMonitor] neither throws the range error nor reads outside the
    vector.  The loop gives one monitor for each six values, in their
    order, or it ends as the first monitor that cannot be read does, with
    that monitor's error line and exit status 1. *)
Theorem monitors_read_within_range (options : NutConfOptions) :
  let n := length (monitors options) / 6 in
  let loop := collect (fun i => monitor i options) 0 n [] in
  (forall i, i < n ->
     getMonitor options i <> OutOfBounds /\
     (forall what, getMonitor options i <> RangeError what) /\
     (forall what, monitor i options <> Throws what) /\
     monitor i options <> Undefined) /\
  ((exists ms, loop = Returns ms /\ length ms = n /\
               forall i m, ms !! i = Some m -> monitor i options = Returns m) \/
   (exists i cerr, i < n /\ loop = Exits cerr 1 /\ monitor i options = Exits cerr 1 /\
                   forall j, j < i -> exists m, monitor j options = Returns m)).
Proof.
  cbn zeta. split.
  - intros i Hi.
    destruct (getMonitor_fields _ _ Hi) as (x0 & x1 & x2 & x3 & x4 & x5 & Hget & _).
    rewrite Hget. split; [discriminate|]. split; [discriminate|].
    destruct (monitor_in_range options i Hi) as [[m ->]|[cerr ->]]; split; discriminate.
  - apply collect_total. intros i Hi. now apply monitor_in_range.
Qed.

(** X15.  The loop of [mainx] that reads the listen addresses indexes the
    vector below its length only.  When it returns, there is one listen
    address for each record, in order, with the record's address; the port
    is left unset exactly when the record has no port, and a port that is
    set is below 65536.  Otherwise the loop ends with the port error of the
    first record whose port cannot be read, and exit status 1. *)
Theorem listen_addresses_read_in_order (options : NutConfOptions) :
  let n := length (listen_addrs options) in
  let loop := collect (fun i => listenAddr i options) 0 n [] in
  (forall i, i < n -> listenAddr i options <> Undefined) /\
  ((exists ls, loop = Returns ls /\
               map address ls = map fst (listen_addrs options) /\
               forall i l addr_spec,
                 ls !! i = Some l -> listen_addrs options !! i = Some addr_spec ->
                 (listen_port l = None <-> snd addr_spec = "") /\
                 (forall port, listen_port l = Some port ->
                               extract_ushort (snd addr_spec) = Some port /\
                               (0 <= port < 65536)%Z)) \/
   (exists i addr_spec, listen_addrs options !! i = Some addr_spec /\
                        snd addr_spec <> "" /\
                        extract_ushort (snd addr_spec) = None /\
                        loop = PortParseError (snd addr_spec) /\
                        forall j, j < i -> exists l, listenAddr j options = Returns l)).
Proof.
  cbn zeta. split.
  - intros i Hi. destruct (listenAddr_in_range options i Hi) as [[l ->]|[cerr ->]]; discriminate.
  - destruct (collect_total (fun i => listenAddr i options) (length (listen_addrs options)))
      as [(ls & Hc & Hlen & Hls)|(i & cerr & Hi & Hc & Hat & Hbefore)].
    + intros i Hi. now apply listenAddr_in_range.
    + left. exists ls. split; [exact Hc|]. split.
      * apply list_eq. intros i. rewrite !list_lookup_fmap.
        destruct (ls !! i) as [l|] eqn:Hl.
        -- specialize (Hls i l Hl). unfold listenAddr in Hls.
           unfold ListenAddrSpec in *.
           destruct (_ !! i) as [spec|] in Hls |- *; [|discriminate Hls]. cbn.
           destruct (negb _); [destruct (extract_ushort _); [|discriminate Hls]|];
             injection Hls as <-; reflexivity.
        -- apply lookup_ge_None_1 in Hl. unfold ListenAddrSpec in *.
           rewrite lookup_ge_None_2; [reflexivity|lia].
      * intros i l spec Hl Hspec. specialize (Hls i l Hl). unfold listenAddr in Hls.
        unfold ListenAddrSpec in *. rewrite Hspec in Hls.
        destruct (String.eqb_spec (snd spec) "") as [He|Hne]; cbn [negb] in Hls.
        -- injection Hls as <-. cbn. split; [tauto|]. discriminate.
        -- destruct (extract_ushort (snd spec)) as [port|] eqn:Hport; [|discriminate Hls].
           injection Hls as <-. cbn. split; [split; [discriminate|contradiction]|].
           intros p [= <-]. split; [reflexivity|].
           apply (extract_unsigned_range 16) in Hport; lia.
    + right. unfold listenAddr in Hat. unfold ListenAddrSpec in *.
      destruct (_ !! i) as [spec|] eqn:Hspec in Hat; [|discriminate Hat].
      exists i, spec. split; [exact Hspec|].
      destruct (String.eqb_spec (snd spec) "") as [He|Hne]; cbn [negb] in Hat; [discriminate Hat|].
      destruct (extract_ushort (snd spec)) eqn:Hport; [discriminate Hat|].
      split; [exact Hne|]. split; [reflexivity|]. split; [|exact Hbefore].
      rewrite Hc. unfold PortParseError in *. congruence.
Qed.

(** X16.  [setMonitors] and [setListenAddrs] replace the entries of the
    file or append to them.  Without [keep_ex] the result is the new list,
    whatever the file held; with it the new entries follow the existing
    ones, in order and with no check for duplicates, so that adding a list
    twice leaves its entries twice.  Adding one list after the other is
    adding the two lists in one call. *)
Theorem entries_replaced_or_appended (keep_ex : bool)
    (monitors more existing : list Monitor)
    (listen_addrs more_addrs existing_addrs : list Listen) :
  setMonitors monitors false existing = monitors /\
  setMonitors monitors true existing = existing ++ monitors /\
  setMonitors more true (setMonitors monitors keep_ex existing) =
    setMonitors (monitors ++ more) keep_ex existing /\
  setMonitors monitors true (setMonitors monitors true existing) =
    existing ++ monitors ++ monitors /\
  setListenAddrs listen_addrs false existing_addrs = listen_addrs /\
  setListenAddrs listen_addrs true existing_addrs = existing_addrs ++ listen_addrs /\
  setListenAddrs more_addrs true (setListenAddrs listen_addrs keep_ex existing_addrs) =
    setListenAddrs (listen_addrs ++ more_addrs) keep_ex existing_addrs /\
  setListenAddrs listen_addrs true (setListenAddrs listen_addrs true existing_addrs) =
    existing_addrs ++ listen_addrs ++ listen_addrs.
Proof.
  rewrite !setMonitors_closed, !setListenAddrs_closed, <- !app_assoc.
  now repeat split.
Qed.

(** X17.  [setDevices] without [keep_ex] is defined only on a configuration
    that holds no device: when every section of the file is the global one
    the removal loop steps over it and the devices are merged as they are
    with [keep_ex]; as soon as the file holds a section with a name the
    loop erases the element its iterator is at and then increments that
    iterator, which has no defined behaviour. *)
Theorem discard_defined_without_devices (devices : list DeviceSpec)
    (ups_conf : gmap string Section) :
  ((forall ups, is_Some (ups_conf !! ups) -> ups = "") ->
   setDevices devices false ups_conf = Returns (fold_left add_device devices ups_conf) /\
   setDevices devices false ups_conf = setDevices devices true ups_conf) /\
  ((exists ups, ups <> "" /\ is_Some (ups_conf !! ups)) ->
   setDevices devices false ups_conf = Undefined).
Proof.
  split.
  - intros Hglobal. unfold setDevices. cbn [negb].
    rewrite remove_existing_global; [now split|].
    apply Forall_forall. intros ups Hin. apply Hglobal, section_names_dom.
    now apply list_elem_of_In.
  - intros (ups & Hne & Hsome). now apply (setDevices_discard_named devices ups_conf ups).
Qed.

Lemma discard_defined_without_devices_witness :
  let devices := [mkDeviceSpec "ups1" "usbhid-ups" "auto" ""] in
  let ups_conf : gmap string Section := {["" := new_section]} in
  (forall ups, is_Some (ups_conf !! ups) -> ups = "") /\
  setDevices devices false ups_conf = setDevices devices true ups_conf.
Proof.
  cbv zeta.
  assert (forall ups,
            is_Some (({["" := new_section]} : gmap string Section) !! ups) -> ups = "")
    as Hglobal.
  { intros ups [s Hs]. apply lookup_singleton_Some in Hs as [<- _]. reflexivity. }
  split; [exact Hglobal|].
  destruct (discard_defined_without_devices
              [mkDeviceSpec "ups1" "usbhid-ups" "auto" ""] {["" := new_section]})
    as [H _].
  exact (proj2 (H Hglobal)).
Defined.

(** X18.  Help comes before everything else.  With the help option on the
    command line, with two dashes or with one, [mainx] writes the usage
    text, whose first line names the binary, and exits with status 0; it
    changes no file and reports no error, although the constructor has
    found the options invalid, and whatever else the command line holds. *)
Theorem help_comes_first (CONFPATH : string) (etc_dir_exists isConfigured : string -> bool)
    (files : Files) (bin : string) (tokens : list string) :
  In "--help" tokens \/ In "-help" tokens ->
  let argv := bin :: tokens in
  let run := mainx CONFPATH etc_dir_exists isConfigured files argv in
  valid (NutConfOptions_ctor argv) = false /\
  run = (print CONFPATH bin, Exit 0) /\
  main CONFPATH etc_dir_exists isConfigured files argv = run /\
  calls run = [] /\
  head (fst run) = Some (Cerr ("Usage: " ++ bin ++ " [OPTIONS]")) /\
  length (fst run) = 31.
Proof.
  intros Hhelp. cbn zeta.
  destruct (help_written (bin :: tokens) Hhelp) as [Hex Hv].
  split; [exact Hv|].
  assert (mainx CONFPATH etc_dir_exists isConfigured files (bin :: tokens) =
          (print CONFPATH bin, Exit 0)) as Hrun.
  { destruct (mainx_cases CONFPATH etc_dir_exists isConfigured files bin tokens)
      as [[_ Hrun]|[(H & _)|[(H & _)|[(H & _)|(H & _)]]]]; cbn zeta in *; congruence. }
  unfold main. rewrite Hrun. split; [reflexivity|]. split; [reflexivity|].
  split; [apply calls_cerr|]. split; reflexivity.
Qed.

Lemma help_comes_first_witness :
  let argv := ["nutconf"; "--set-device"; "ups1"; "usbhid-ups"; "auto"; "-help"] in
  (In "--help" (tail argv) \/ In "-help" (tail argv)) /\
  mainx "/etc/nut" (fun _ => true) (fun _ => false) empty_directory argv = (print "/etc/nut" "nutconf", Exit 0).
Proof.
  cbv zeta.
  assert (In "--help" ["--set-device"; "ups1"; "usbhid-ups"; "auto"; "-help"] \/
          In "-help" ["--set-device"; "ups1"; "usbhid-ups"; "auto"; "-help"]) as Hhelp
    by (right; simpl; tauto).
  split; [exact Hhelp|].
  destruct (help_comes_first "/etc/nut" (fun _ => true) (fun _ => false) empty_directory "nutconf"
              ["--set-device"; "ups1"; "usbhid-ups"; "auto"; "-help"] Hhelp)
    as (_ & H & _).
  exact H.
Defined.

(** X19.  Invalid options end the run before the configuration directory
    is looked at.  Without the help option, [mainx] on invalid options
    writes the lines of [reportInvalid], at least one, then the usage text,
    and exits with status 1; [reportInvalid] does not throw there and no
    file is changed. *)
Theorem invalid_options_end_the_run (CONFPATH : string)
    (etc_dir_exists isConfigured : string -> bool) (files : Files)
    (bin : string) (tokens : list string) :
  let argv := bin :: tokens in
  let options := NutConfOptions_ctor argv in
  let run := mainx CONFPATH etc_dir_exists isConfigured files argv in
  exists_ (Options_ctor argv) "help" = false ->
  valid options = false ->
  exists cerr,
    cerr <> [] /\ reportInvalid options = Reported cerr /\
    run = (map Cerr cerr ++ print CONFPATH bin, Exit 1) /\
    main CONFPATH etc_dir_exists isConfigured files argv = run /\
    calls run = [].
Proof.
  cbn zeta. intros Hhelp Hv.
  destruct (mainx_cases CONFPATH etc_dir_exists isConfigured files bin tokens)
    as [[H _]|[(_ & _ & cerr & Hne & Hrep & Hrun)|[(_ & H & _)|[(_ & H & _)|(_ & H & _)]]]];
    cbn zeta in *; try congruence.
  exists cerr. split; [exact Hne|]. split; [exact Hrep|]. split; [exact Hrun|].
  unfold main, calls. rewrite Hrun. split; [reflexivity|].
  cbn [fst]. unfold print. rewrite <- map_app. apply calls_cerr.
Qed.

Lemma invalid_options_end_the_run_witness :
  let argv := ["nutconf"; "--mode"; "server"] in
  exists_ (Options_ctor argv) "help" = false /\
  valid (NutConfOptions_ctor argv) = false /\
  exists cerr,
    cerr <> [] /\ reportInvalid (NutConfOptions_ctor argv) = Reported cerr /\
    mainx "/etc/nut" (fun _ => true) (fun _ => false) empty_directory argv =
      (map Cerr cerr ++ print "/etc/nut" "nutconf", Exit 1).
Proof.
  cbv zeta.
  assert (exists_ (Options_ctor ["nutconf"; "--mode"; "server"]) "help" = false) as Hhelp
    by (vm_compute; reflexivity).
  assert (valid (NutConfOptions_ctor ["nutconf"; "--mode"; "server"]) = false) as Hv
    by (vm_compute; reflexivity).
  split; [exact Hhelp|]. split; [exact Hv|].
  destruct (invalid_options_end_the_run "/etc/nut" (fun _ => true) (fun _ => false) empty_directory
              "nutconf" ["--mode"; "server"] Hhelp Hv)
    as (cerr & Hne & Hrep & Hrun & _).
  exists cerr. now repeat split.
Defined.

(** X20.  [mainx] ends in one of four ways: it returns 0, it exits with
    status 0 or 1, or it runs into the removal loop of [setDevices].  The
    code of this file throws no exception on the way, neither the range
    error of [getMonitor] nor the logic error of [reportInvalid], so that
    [main] does what [mainx] does.
    Status 0 at an exit means that help was asked for or that the
    --is-configured query was answered with true; [mainx] returns only when
    help was not asked for, the options are valid, the directory is there
    and no query was made.  The behaviour is undefined only in the call of
    [setDevices] for --set-device, when the ups.conf that was sourced
    holds a section with a name; and it is undefined whenever a command line
    with nothing but valid --set-device options meets such a file. *)
Theorem mainx_returns_or_exits (CONFPATH : string)
    (etc_dir_exists isConfigured : string -> bool) (files : Files)
    (bin : string) (tokens : list string) :
  let argv := bin :: tokens in
  let options := NutConfOptions_ctor argv in
  let etc := directory CONFPATH options in
  let run := mainx CONFPATH etc_dir_exists isConfigured files argv in
  let checked :=
    exists_ (Options_ctor argv) "help" = false /\ valid options = true /\
    etc_dir_exists etc = true /\ is_configured options = false in
  (snd run = Return 0 \/ snd run = Exit 0 \/ snd run = Exit 1 \/
   snd run = UndefinedBehaviour) /\
  (forall what, snd run <> Throw what) /\
  main CONFPATH etc_dir_exists isConfigured files argv = run /\
  (snd run = Exit 0 <->
   exists_ (Options_ctor argv) "help" = true \/
   (valid options = true /\ etc_dir_exists etc = true /\
    is_configured options = true /\ isConfigured etc = true)) /\
  (snd run = Return 0 -> checked) /\
  (snd run = UndefinedBehaviour ->
   checked /\ devices options <> [] /\
   existsDouble (Options_ctor argv) "add-device" = false /\
   call_setDevices files (devices options) etc false = Undefined /\
   exists sourced ups,
     source (file_exists files) (parse_ups files) ∅ (etc ++ "/ups.conf")%string =
       Returns sourced /\
     ups <> "" /\ is_Some (fst sourced !! ups)) /\
  (checked ->
   monitors options = [] -> listen_addrs options = [] -> devices options <> [] ->
   existsDouble (Options_ctor argv) "add-device" = false ->
   file_exists files (etc ++ "/ups.conf")%string = true ->
   forall ups_conf ups,
     parse_ups files (etc ++ "/ups.conf")%string ∅ = (ups_conf, true) ->
     ups <> "" -> is_Some (ups_conf !! ups) ->
     run = ([SetDevices (devices options) etc false], UndefinedBehaviour)).
Proof.
  cbn zeta.
  destruct (ctor_counts (bin :: tokens)) as (_ & _ & _ & _ & _ & Hadd).
  cbn zeta in Hadd. unfold existsDouble. rewrite <- Hadd. clear Hadd.
  set (options := NutConfOptions_ctor (bin :: tokens)).
  set (etc := directory CONFPATH options).
  set (checked :=
         exists_ (Options_ctor (bin :: tokens)) "help" = false /\ valid options = true /\
         etc_dir_exists etc = true /\ is_configured options = false).
  assert (exists events f,
            mainx CONFPATH etc_dir_exists isConfigured files (bin :: tokens) = (events, f) /\
            (f = Return 0 \/ f = Exit 0 \/ f = Exit 1 \/ f = UndefinedBehaviour) /\
            (f = Exit 0 <->
             exists_ (Options_ctor (bin :: tokens)) "help" = true \/
             (valid options = true /\ etc_dir_exists etc = true /\
              is_configured options = true /\ isConfigured etc = true)) /\
            (f = Return 0 -> checked) /\
            (f = UndefinedBehaviour ->
             checked /\ devices options <> [] /\
             (0 <? add_device_cnt options)%nat = false /\
             call_setDevices files (devices options) etc false = Undefined /\
             exists sourced ups,
               source (file_exists files) (parse_ups files) ∅ (etc ++ "/ups.conf")%string =
                 Returns sourced /\
               ups <> "" /\ is_Some (fst sourced !! ups)))
    as (events & f & Hrun & Hf & Hzero & Hret & Hub).
  { subst checked etc options.
    destruct (mainx_cases CONFPATH etc_dir_exists isConfigured files bin tokens)
      as [[Hh Hrun]|[(Hh & Hv & cerr & _ & _ & Hrun)|[(Hh & Hv & Hd & Hrun)|
          [(Hh & Hv & Hd & Hq & Hrun)|(Hh & Hv & Hd & Hq & Hrun)]]]];
      cbn zeta in *.
    - do 2 eexists. split; [exact Hrun|]. split; [auto|].
      split; [|split; discriminate]. split; auto.
    - do 2 eexists. split; [exact Hrun|]. split; [auto|].
      split; [|split; discriminate].
      split; [discriminate|]. intros [H|(H & _)]; congruence.
    - do 2 eexists. split; [exact Hrun|]. split; [auto|].
      split; [|split; discriminate].
      split; [discriminate|]. intros [H|(_ & H & _)]; congruence.
    - do 2 eexists. split; [exact Hrun|].
      destruct (isConfigured _) eqn:Hc.
      + split; [auto|]. split; [|split; discriminate]. split; auto.
      + split; [auto|]. split; [|split; discriminate].
        split; [discriminate|]. intros [H|(_ & _ & _ & H)]; congruence.
    - exists (fst (mainx CONFPATH etc_dir_exists isConfigured files (bin :: tokens))),
             (snd (mainx CONFPATH etc_dir_exists isConfigured files (bin :: tokens))).
      split; [now destruct (mainx _ _ _ _ _)|]. rewrite Hrun.
      destruct (blocks_finish files (NutConfOptions_ctor (bin :: tokens))
                  (directory CONFPATH (NutConfOptions_ctor (bin :: tokens))))
        as [Hf|[Hf|(Hf & Hub)]]; cbn zeta in Hf; rewrite Hf.
      + split; [auto|]. split; [|split; [auto|discriminate]].
        split; [discriminate|]. intros [H|(_ & _ & H & _)]; congruence.
      + split; [auto|]. split; [|split; discriminate].
        split; [discriminate|]. intros [H|(_ & _ & H & _)]; congruence.
      + split; [auto|]. split; [|split; [discriminate|auto]].
        split; [discriminate|]. intros [H|(_ & _ & H & _)]; congruence. }
  unfold main. rewrite Hrun. cbn [snd].
  split; [exact Hf|]. split; [intros what; destruct Hf as [->|[->|[->| ->]]]; discriminate|].
  split; [destruct Hf as [->|[->|[->| ->]]]; reflexivity|].
  split; [exact Hzero|]. split; [exact Hret|]. split; [exact Hub|].
  intros Hchecked Hm Hl Hdev Hk Hfile ups_conf ups Hparse Hne Hsome.
  subst checked etc options. destruct Hchecked as (Hh & Hv & Hd & Hq).
  destruct (mainx_cases CONFPATH etc_dir_exists isConfigured files bin tokens)
    as [[H _]|[(_ & H & _)|[(_ & _ & H & _)|[(_ & _ & _ & H & _)|(_ & _ & _ & _ & Hblocks)]]]];
    cbn zeta in *; try congruence.
  rewrite Hrun in Hblocks. rewrite Hblocks.
  unfold monitors_block, listen_block, devices_block.
  apply is_empty_nil in Hm, Hl. apply is_empty_false in Hdev.
  rewrite Hm, Hl, Hdev, Hk. cbn [negb and_then fst snd app].
  assert (call_setDevices files (devices (NutConfOptions_ctor (bin :: tokens)))
            (directory CONFPATH (NutConfOptions_ctor (bin :: tokens))) false = Undefined)
    as ->; [|reflexivity].
  unfold call_setDevices, source. rewrite Hfile, Hparse. cbn [negb bind fst].
  now rewrite (setDevices_discard_named _ ups_conf ups).
Qed.

Lemma mainx_returns_or_exits_witness :
  let files :=
    mkFiles (fun _ => true)
            (fun _ config => (config, true)) (fun _ _ => true)
            (fun _ config => (config, true)) (fun _ _ => true)
            (fun _ _ => ({["A" := new_section]}, true)) (fun _ _ => true) in
  let argv := ["nutconf"; "--set-device"; "A"; "d2"; "p2"] in
  valid (NutConfOptions_ctor argv) = true /\
  mainx "/etc/nut" (fun _ => true) (fun _ => false) files argv =
    ([SetDevices [mkDeviceSpec "A" "d2" "p2" ""] "/etc/nut" false], UndefinedBehaviour).
Proof.
  cbv zeta.
  assert (valid (NutConfOptions_ctor ["nutconf"; "--set-device"; "A"; "d2"; "p2"]) = true)
    as Hv by (vm_compute; reflexivity).
  split; [exact Hv|].
  pose proof (mainx_returns_or_exits "/etc/nut" (fun _ => true) (fun _ => false)
                (mkFiles (fun _ => true)
                   (fun _ config => (config, true)) (fun _ _ => true)
                   (fun _ config => (config, true)) (fun _ _ => true)
                   (fun _ _ => ({["A" := new_section]}, true)) (fun _ _ => true))
                "nutconf" ["--set-device"; "A"; "d2"; "p2"]) as H.
  cbv zeta in H. destruct H as (_ & _ & _ & _ & _ & _ & H).
  assert (devices (NutConfOptions_ctor ["nutconf"; "--set-device"; "A"; "d2"; "p2"]) =
          [mkDeviceSpec "A" "d2" "p2" ""]) as Hdev by (vm_compute; reflexivity).
  assert (directory "/etc/nut"
            (NutConfOptions_ctor ["nutconf"; "--set-device"; "A"; "d2"; "p2"]) = "/etc/nut")
    as Hetc by (vm_compute; reflexivity).
  rewrite Hdev, Hetc in H.
  assert (exists_ (Options_ctor ["nutconf"; "--set-device"; "A"; "d2"; "p2"]) "help" = false)
    as Hh by (vm_compute; reflexivity).
  assert (is_configured (NutConfOptions_ctor ["nutconf"; "--set-device"; "A"; "d2"; "p2"])
          = false) as Hq by (vm_compute; reflexivity).
  assert (monitors (NutConfOptions_ctor ["nutconf"; "--set-device"; "A"; "d2"; "p2"]) = [])
    as Hm by (vm_compute; reflexivity).
  assert (listen_addrs (NutConfOptions_ctor ["nutconf"; "--set-device"; "A"; "d2"; "p2"])
          = []) as Hl by (vm_compute; reflexivity).
  assert (existsDouble (Options_ctor ["nutconf"; "--set-device"; "A"; "d2"; "p2"])
            "add-device" = false) as Hk by (vm_compute; reflexivity).
  assert ([mkDeviceSpec "A" "d2" "p2" ""] <> []) as Hne by discriminate.
  specialize (H (conj Hh (conj Hv (conj eq_refl Hq))) Hm Hl Hne Hk eq_refl
                {["A" := new_section]} "A" eq_refl).
  apply H; [discriminate|]. exists new_section. apply lookup_singleton_Some. now split.
Defined.

(** X21.  A file is changed only after every check has passed and only for
    an option of the three families: when a run of [mainx] makes a call,
    help was not asked for, the options are valid, the directory is there,
    --is-configured is not on the command line, and one of the six set-
    and add- options is.  Options such as --mode, --autoconfigure and
    --system alone change nothing. *)
Theorem changes_need_a_family_option (CONFPATH : string)
    (etc_dir_exists isConfigured : string -> bool) (files : Files)
    (bin : string) (tokens : list string) :
  let argv := bin :: tokens in
  let o := Options_ctor argv in
  let options := NutConfOptions_ctor argv in
  let run := mainx CONFPATH etc_dir_exists isConfigured files argv in
  calls run <> [] ->
  exists_ o "help" = false /\ valid options = true /\
  etc_dir_exists (directory CONFPATH options) = true /\
  existsDouble o "is-configured" = false /\
  exists opt,
    In opt ["set-monitor"; "add-monitor"; "set-listen"; "add-listen";
            "set-device"; "add-device"] /\
    existsDouble o opt = true.
Proof.
  cbn zeta. intros Hcalls.
  destruct (calls (mainx CONFPATH etc_dir_exists isConfigured files (bin :: tokens)))
    as [|e rest] eqn:He; [contradiction|].
  assert (In e (calls (mainx CONFPATH etc_dir_exists isConfigured files (bin :: tokens)))) as Hin
    by (rewrite He; now left).
  apply List.filter_In in Hin as [Hin Hcall].
  destruct (call_in_run CONFPATH etc_dir_exists isConfigured files bin tokens e Hin Hcall)
    as [(Hh & Hv & Hd & Hq) Hwhich].
  destruct (ctor_is_configured (bin :: tokens)) as [Hflag _]. cbn zeta in Hflag.
  rewrite Hflag in Hq.
  split; [exact Hh|]. split; [exact Hv|]. split; [exact Hd|]. split; [exact Hq|].
  destruct (vectors_need_options (bin :: tokens)) as (Hm & Hl & Hdev).
  destruct (ctor_counts (bin :: tokens)) as (Hc1 & Hc2 & Hc3 & Hc4 & Hc5 & Hc6).
  cbn zeta in Hm, Hl, Hdev, Hc1, Hc2, Hc3, Hc4, Hc5, Hc6.
  unfold existsDouble.
  destruct Hwhich as [(ms & _ & Hne & _)|[(ls & _ & Hne & _)|[_ Hne]]].
  - specialize (Hm Hne). rewrite Hc1, Hc2 in Hm.
    destruct (countDouble (Options_ctor (bin :: tokens)) "set-monitor") eqn:Hs.
    + exists "add-monitor". split; [cbn; tauto|]. apply Nat.ltb_lt. lia.
    + exists "set-monitor". split; [cbn; tauto|]. apply Nat.ltb_lt. lia.
  - specialize (Hl Hne). rewrite Hc3, Hc4 in Hl.
    destruct (countDouble (Options_ctor (bin :: tokens)) "set-listen") eqn:Hs.
    + exists "add-listen". split; [cbn; tauto|]. apply Nat.ltb_lt. lia.
    + exists "set-listen". split; [cbn; tauto|]. apply Nat.ltb_lt. lia.
  - specialize (Hdev Hne). rewrite Hc5, Hc6 in Hdev.
    destruct (countDouble (Options_ctor (bin :: tokens)) "set-device") eqn:Hs.
    + exists "add-device". split; [cbn; tauto|]. apply Nat.ltb_lt. lia.
    + exists "set-device". split; [cbn; tauto|]. apply Nat.ltb_lt. lia.
Qed.

Lemma changes_need_a_family_option_witness :
  let argv := ["nutconf"; "--mode"; "netserver"; "--add-device"; "ups1"; "usbhid-ups"; "auto"] in
  calls (mainx "/etc/nut" (fun _ => true) (fun _ => false) empty_directory argv) <> [] /\
  valid (NutConfOptions_ctor argv) = true /\
  exists opt,
    In opt ["set-monitor"; "add-monitor"; "set-listen"; "add-listen";
            "set-device"; "add-device"] /\
    existsDouble (Options_ctor argv) opt = true.
Proof.
  cbv zeta.
  assert (calls (mainx "/etc/nut" (fun _ => true) (fun _ => false) empty_directory
                   ["nutconf"; "--mode"; "netserver"; "--add-device"; "ups1"; "usbhid-ups";
                    "auto"]) <> []) as Hcalls
    by (vm_compute; discriminate).
  split; [exact Hcalls|].
  destruct (changes_need_a_family_option "/etc/nut" (fun _ => true) (fun _ => false) empty_directory
              "nutconf" ["--mode"; "netserver"; "--add-device"; "ups1"; "usbhid-ups"; "auto"]
              Hcalls)
    as (_ & Hv & _ & _ & Hopt).
  split; [exact Hv|exact Hopt].
Defined.



(** X23.  Every call that a run of [mainx] makes works on the directory
    that was checked, and it keeps the existing entries exactly when the
    add- option of its family is on the command line; the set- option of
    the family is then not, and the other way round.  The monitors and the
    listen addresses handed over are as many as the vectors hold, the
    devices are the vector itself. *)
Theorem existing_entries_kept_for_add (CONFPATH : string)
    (etc_dir_exists isConfigured : string -> bool) (files : Files)
    (bin : string) (tokens : list string) (e : event) :
  let argv := bin :: tokens in
  let o := Options_ctor argv in
  let options := NutConfOptions_ctor argv in
  let run := mainx CONFPATH etc_dir_exists isConfigured files argv in
  In e (fst run) ->
  match e with
  | SetMonitors ms etc keep_ex =>
      etc = directory CONFPATH options /\
      keep_ex = existsDouble o "add-monitor" /\
      existsDouble o "set-monitor" = negb keep_ex /\
      6 * length ms = length (monitors options)
  | SetListenAddrs ls etc keep_ex =>
      etc = directory CONFPATH options /\
      keep_ex = existsDouble o "add-listen" /\
      existsDouble o "set-listen" = negb keep_ex /\
      length ls = length (listen_addrs options)
  | SetDevices ds etc keep_ex =>
      etc = directory CONFPATH options /\
      keep_ex = existsDouble o "add-device" /\
      existsDouble o "set-device" = negb keep_ex /\
      ds = devices options
  | Cerr _ | Cout _ => True
  end.
Proof.
  cbn zeta. intros Hin.
  destruct (is_call e) eqn:Hcall; [|destruct e; try exact I; discriminate Hcall].
  destruct (call_in_run CONFPATH etc_dir_exists isConfigured files bin tokens e Hin Hcall)
    as [(_ & Hv & _) Hwhich].
  destruct (vectors_need_options (bin :: tokens)) as (Hm & Hl & Hdev).
  destruct (ctor_counts (bin :: tokens)) as (Hc1 & Hc2 & Hc3 & Hc4 & Hc5 & Hc6).
  pose proof (monitor_occurrences_flattened_length (bin :: tokens)) as [_ Hsix].
  apply valid_clean in Hv as (_ & _ & _ & Hbm & Hbl & Hbd).
  cbn zeta in *. apply both_false in Hbm, Hbl, Hbd.
  unfold existsDouble. rewrite <- Hc1, <- Hc2, <- Hc3, <- Hc4, <- Hc5, <- Hc6.
  destruct Hwhich as [(ms & -> & Hne & Hlen & _)|[(ls & -> & Hne & Hlen & _)|[-> Hne]]].
  - specialize (Hm Hne). split; [reflexivity|]. split; [reflexivity|]. split.
    + destruct Hbm as [H|H]; rewrite H in *;
        [destruct (add_monitor_cnt _)|destruct (set_monitor_cnt _)];
        cbn; try reflexivity; lia.
    + rewrite Hlen. apply Nat.Div0.div_exact in Hsix. lia.
  - specialize (Hl Hne). split; [reflexivity|]. split; [reflexivity|]. split; [|exact Hlen].
    destruct Hbl as [H|H]; rewrite H in *;
      [destruct (add_listen_cnt _)|destruct (set_listen_cnt _)];
      cbn; try reflexivity; lia.
  - specialize (Hdev Hne). split; [reflexivity|]. split; [reflexivity|]. split; [|reflexivity].
    destruct Hbd as [H|H]; rewrite H in *;
      [destruct (add_device_cnt _)|destruct (set_device_cnt _)];
      cbn; try reflexivity; lia.
Qed.

Lemma existing_entries_kept_for_add_witness :
  let argv := ["nutconf"; "--local"; "/srv/nut"; "--add-listen"; "::1";
               "--add-listen"; "10.0.0.1"; "3493"] in
  let e := SetListenAddrs [mkListen "::1" None; mkListen "10.0.0.1" (Some 3493%Z)]
             "/srv/nut" true in
  In e (fst (mainx "/etc/nut" (fun _ => true) (fun _ => false) empty_directory argv)) /\
  existsDouble (Options_ctor argv) "set-listen" = false.
Proof.
  cbv zeta.
  assert (In (SetListenAddrs [mkListen "::1" None; mkListen "10.0.0.1" (Some 3493%Z)]
                "/srv/nut" true)
             (fst (mainx "/etc/nut" (fun _ => true) (fun _ => false) empty_directory
                     ["nutconf"; "--local"; "/srv/nut"; "--add-listen"; "::1";
                      "--add-listen"; "10.0.0.1"; "3493"]))) as Hin
    by (vm_compute; left; reflexivity).
  split; [exact Hin|].
  pose proof (existing_entries_kept_for_add "/etc/nut" (fun _ => true) (fun _ => false) empty_directory
                "nutconf" ["--local"; "/srv/nut"; "--add-listen"; "::1";
                           "--add-listen"; "10.0.0.1"; "3493"] _ Hin) as H.
  cbv zeta in H. destruct H as (_ & _ & H & _). exact H.
Defined.

(** X24.  [getMode] reads the command line again and checks nothing: it
    gives the first argument of the first --mode, whatever that is and
    however many arguments follow it.  For valid options this is the
    member [mode]; where the constructor has rejected the mode, as unknown
    or for having more than one argument, [mode] is empty and [getMode]
    still gives the rejected word. *)
Theorem getMode_checks_nothing (argv : list string) :
  let o := Options_ctor argv in
  let r := NutConfOptions_ctor argv in
  getMode r = match getDouble o "mode" 0 with
              | Some (x :: _) => x
              | _ => ""
              end /\
  (valid r = true -> getMode r = mode r) /\
  (forall x args,
     getDouble o "mode" 0 = Some (x :: args) -> checkMode x = false \/ args <> [] ->
     getMode r = x /\ mode r = "" /\ valid r = false).
Proof.
  cbn zeta.
  assert (getMode (NutConfOptions_ctor argv) =
          match getDouble (Options_ctor argv) "mode" 0 with
          | Some (x :: _) => x
          | _ => ""
          end) as Hget.
  { unfold getMode, optMode. rewrite ctor_base.
    now destruct (getDouble (Options_ctor argv) "mode" 0) as [[|x args]|]. }
  destruct (ctor_scalars argv) as [Hm _]. cbn zeta in Hm.
  split; [exact Hget|]. split.
  - intros Hv. rewrite Hget.
    destruct (getDouble (Options_ctor argv) "mode" 0) as [[|x [|y rest]]|] eqn:Hd.
    + destruct Hm as [->|[_ [=]]]. reflexivity.
    + destruct (ctor_mode argv x Hd) as [Hbad Hgood]. cbn zeta in Hbad, Hgood.
      destruct (checkMode x) eqn:Hc; [now rewrite Hgood|].
      destruct (Hbad eq_refl) as (Hf & _). congruence.
    + rewrite (ctor_mode_many argv x y rest Hd) in Hv. discriminate Hv.
    + destruct Hm as [->|[_ [=]]]. reflexivity.
  - intros x args Hd Hbad. rewrite Hget, Hd. split; [reflexivity|].
    destruct args as [|y rest].
    + destruct Hbad as [Hc|Hne]; [|contradiction].
      destruct (ctor_mode argv x Hd) as [H _]. cbn zeta in H.
      destruct (H Hc) as (Hv & Hmode & _). now split.
    + split; [|exact (ctor_mode_many argv x y rest Hd)].
      destruct Hm as [Hmode|[_ Heq]]; [exact Hmode|]. rewrite Hd in Heq. discriminate Heq.
Qed.

Lemma getMode_checks_nothing_witness :
  let argv := ["nutconf"; "--mode"; "server"; "--mode"; "none"] in
  let r := NutConfOptions_ctor argv in
  getDouble (Options_ctor argv) "mode" 0 = Some ["server"] /\
  getMode r = "server" /\ mode r = "" /\ valid r = false.
Proof.
  cbv zeta.
  assert (getDouble (Options_ctor ["nutconf"; "--mode"; "server"; "--mode"; "none"])
            "mode" 0 = Some ["server"]) as Hd by (vm_compute; reflexivity).
  assert (checkMode "server" = false \/ @nil string <> []) as Hbad by (left; reflexivity).
  split; [exact Hd|].
  destruct (getMode_checks_nothing ["nutconf"; "--mode"; "server"; "--mode"; "none"])
    as (_ & _ & H).
  exact (H "server" [] Hd Hbad).
Defined.
